(** * claude-helper-agent: the indexing and retrieval pipeline

  A shallow embedding of the chunker ([src/lib/chunker.ts]), the path
  utilities ([src/lib/utils.ts]), the embedding client and vector store
  manager ([src/lib/embeddings.ts]), the file reader of the coding tools
  ([readFileTool]) and the two request handlers ([src/handlers/index.ts],
  [src/handlers/query.ts]), followed by the properties of the design
  document that are stated about them.

  Conventions.
  - A JavaScript string is the list of its UTF-16 code units ([jsstring]);
    [.length] is [length], [+] is [++].
  - Array indices and lengths are [nat]; line numbers stored in chunks and
    every quantity the source computes with a subtraction are [Z].
  - [push] on an array is [++ [x]]; a [for] loop over an array is a
    [Fixpoint] over the elements still to visit that carries the loop index
    and the mutable locals.
  - Cloudflare bindings ([DB], [KV], [AI], [VECTORIZE]) are fields of an
    explicit environment; the behaviour of the remote services is given by
    oracles. *)

From stdpp Require Import base list gmap strings pretty.
From Stdlib Require Import ZArith NArith Lia Ascii.
From Stdlib Require String.

Local Open Scope Z_scope.
Local Open Scope nat_scope.

(* ================================================================== *)
(** * JavaScript strings *)
(* ================================================================== *)

Module JsString.

(** A UTF-16 code unit. *)
Definition char := N.
Definition jsstring := list char.

(** A literal of the source (ASCII only). *)
Definition str (s : string) : jsstring :=
  List.map N_of_ascii (String.list_ascii_of_string s).

Definition NL : char := 10%N.
Definition DOT : char := 46%N.
Definition SLASH : char := 47%N.

Definition eqb (a b : jsstring) : bool := bool_decide (a = b).

(** [s.split(sep)] for a one-character separator: never empty. *)
Fixpoint split (sep : char) (s : jsstring) : list jsstring :=
  match s with
  | [] => [[]]
  | c :: s' =>
      if N.eqb c sep then [] :: split sep s'
      else match split sep s' with
           | [] => [[c]]
           | l :: ls => (c :: l) :: ls
           end
  end.

(** [ls.join(sep)] for a one-character separator. *)
Fixpoint join (sep : char) (ls : list jsstring) : jsstring :=
  match ls with
  | [] => []
  | l :: ls' =>
      match ls' with
      | [] => l
      | _ :: _ => l ++ sep :: join sep ls'
      end
  end.

(** [arr.slice(a, b)] and [arr.slice(a)] for indices [0 <= a], [0 <= b]. *)
Definition slice {A} (l : list A) (a b : nat) : list A := take (b - a) (drop a l).
Definition slice_from {A} (l : list A) (a : nat) : list A := drop a l.

(** [for (let i = i0; i < arr.length; i++) body(i, arr[i])] where [rest]
    are the elements from index [i0] on and [st] the mutable locals. *)
Fixpoint for_each {A St : Type} (body : nat -> A -> St -> St) (i : nat)
  (rest : list A) (st : St) : St :=
  match rest with
  | [] => st
  | x :: rest' => for_each body (S i) rest' (body i x st)
  end.

(** WhiteSpace and LineTerminator code units of ECMAScript: what
    [String.prototype.trim] strips and what [\s] matches. *)
Definition is_space (c : char) : bool :=
  ((9 <=? c) && (c <=? 13) || (c =? 32) || (c =? 160) || (c =? 5760)
   || (8192 <=? c) && (c <=? 8202) || (c =? 8232) || (c =? 8233)
   || (c =? 8239) || (c =? 8287) || (c =? 12288) || (c =? 65279))%N.

(** [\w] = [[A-Za-z0-9_]]. *)
Definition is_word (c : char) : bool :=
  ((65 <=? c) && (c <=? 90) || (97 <=? c) && (c <=? 122)
   || (48 <=? c) && (c <=? 57) || (c =? 95))%N.

Fixpoint trimStart (s : jsstring) : jsstring :=
  match s with
  | [] => []
  | c :: s' => if is_space c then trimStart s' else s
  end.

Definition trimEnd (s : jsstring) : jsstring := rev (trimStart (rev s)).

Definition trim (s : jsstring) : jsstring := trimEnd (trimStart s).

(** [toLowerCase] on the ASCII letters. Outside ASCII the only code units
    whose lower case contains an ASCII letter are U+212A (to [k]) and
    U+0130 (to [i] followed by U+0307); no extension compared against
    below contains a [k] or is matched by the latter, so the dispatch on
    extensions is not affected by leaving the other code units alone. *)
Definition lower_char (c : char) : char :=
  if ((65 <=? c) && (c <=? 90))%N then (c + 32)%N else c.

Definition toLowerCase (s : jsstring) : jsstring := List.map lower_char s.

(** [s.includes(p)] *)
Fixpoint is_prefix (p s : jsstring) : bool :=
  match p, s with
  | [], _ => true
  | _ :: _, [] => false
  | a :: p', b :: s' => N.eqb a b && is_prefix p' s'
  end.

Fixpoint includes (s p : jsstring) : bool :=
  is_prefix p s ||
  match s with
  | [] => false
  | _ :: s' => includes s' p
  end.

End JsString.

Export JsString.

(* ================================================================== *)
(** * Regular expressions of the chunker *)
(* ================================================================== *)

Module Regex.

(** The fragment of RegExp syntax used by the patterns of the chunker.
    All of them start with [^] and are used with [test] without flags:
    [test r s] holds when some prefix of [s] is matched by [r]. *)
Inductive regex : Type :=
| Void : regex
| Eps : regex
| Lit (c : char) : regex
| Space : regex                 (* \s *)
| Word : regex                  (* \w *)
| Seq (r1 r2 : regex) : regex
| Alt (r1 r2 : regex) : regex
| Star (r : regex) : regex.

Definition Opt (r : regex) : regex := Alt r Eps.          (* r? *)
Definition Plus (r : regex) : regex := Seq r (Star r).    (* r+ *)

Fixpoint Lits (s : jsstring) : regex :=
  match s with
  | [] => Eps
  | c :: s' => Seq (Lit c) (Lits s')
  end.

Definition Txt (s : string) : regex := Lits (str s).

Fixpoint Seqs (rs : list regex) : regex :=
  match rs with
  | [] => Eps
  | r :: rs' => Seq r (Seqs rs')
  end.

Fixpoint nullable (r : regex) : bool :=
  match r with
  | Void => false
  | Eps => true
  | Lit _ => false
  | Space => false
  | Word => false
  | Seq r1 r2 => nullable r1 && nullable r2
  | Alt r1 r2 => nullable r1 || nullable r2
  | Star _ => true
  end.

Definition seq' (r1 r2 : regex) : regex :=
  match r1 with
  | Void => Void
  | Eps => r2
  | _ => Seq r1 r2
  end.

Definition alt' (r1 r2 : regex) : regex :=
  match r1, r2 with
  | Void, _ => r2
  | _, Void => r1
  | _, _ => Alt r1 r2
  end.

(** Brzozowski derivative. *)
Fixpoint deriv (c : char) (r : regex) : regex :=
  match r with
  | Void => Void
  | Eps => Void
  | Lit c' => if N.eqb c c' then Eps else Void
  | Space => if is_space c then Eps else Void
  | Word => if is_word c then Eps else Void
  | Seq r1 r2 =>
      alt' (seq' (deriv c r1) r2) (if nullable r1 then deriv c r2 else Void)
  | Alt r1 r2 => alt' (deriv c r1) (deriv c r2)
  | Star r1 => seq' (deriv c r1) (Star r1)
  end.

(** [/^r/.test(s)] *)
Fixpoint test (r : regex) (s : jsstring) : bool :=
  nullable r ||
  match s with
  | [] => false
  | c :: s' => test (deriv c r) s'
  end.

(** Declarative meaning of a pattern: the strings it matches. *)
Inductive matches : regex -> jsstring -> Prop :=
| m_eps : matches Eps []
| m_lit c : matches (Lit c) [c]
| m_space c : is_space c = true -> matches Space [c]
| m_word c : is_word c = true -> matches Word [c]
| m_seq r1 r2 s1 s2 : matches r1 s1 -> matches r2 s2 -> matches (Seq r1 r2) (s1 ++ s2)
| m_alt_l r1 r2 s : matches r1 s -> matches (Alt r1 r2) s
| m_alt_r r1 r2 s : matches r2 s -> matches (Alt r1 r2) s
| m_star_nil r : matches (Star r) []
| m_star_app r s1 s2 : matches r s1 -> matches (Star r) s2 -> matches (Star r) (s1 ++ s2).

End Regex.

Export Regex.

(* ================================================================== *)
(** * src/lib/utils.ts *)
(* ================================================================== *)

Module Utils.

Inductive FileType : Type := code | markdown | config | text.

#[global] Instance FileType_eq_dec : EqDecision FileType.
Proof. solve_decision. Defined.

(** [getFileExtension] *)
Definition getFileExtension (path : jsstring) : jsstring :=
  let parts := split DOT path in
  if 1 <? length parts then toLowerCase (List.last parts []) else [].

Definition arr_includes (l : list jsstring) (x : jsstring) : bool :=
  existsb (JsString.eqb x) l.

Definition codeExtensions : list jsstring :=
  List.map str ["ts"; "tsx"; "js"; "jsx"; "py"; "go"; "rs"; "java"; "c"; "cpp";
                "h"; "hpp"; "sql"; "sh"; "bash"]%string.
Definition markdownExtensions : list jsstring := List.map str ["md"; "mdx"]%string.
Definition configExtensions : list jsstring :=
  List.map str ["json"; "yaml"; "yml"; "toml"; "xml"; "env"; "ini"; "cfg"]%string.

(** [getFileType] *)
Definition getFileType (path : jsstring) : FileType :=
  let ext := getFileExtension path in
  if arr_includes codeExtensions ext then code
  else if arr_includes markdownExtensions ext then markdown
  else if arr_includes configExtensions ext then config
  else text.

Definition indexableExtensions : list jsstring :=
  List.map str ["ts"; "tsx"; "js"; "jsx"; "py"; "go"; "rs"; "java"; "c"; "cpp"; "h";
                "hpp"; "sql"; "sh"; "bash"; "md"; "mdx"; "json"; "yaml"; "yml";
                "toml"; "txt"]%string.

Definition skipPatterns : list jsstring :=
  List.map str ["node_modules"; ".git"; "dist"; "build"; ".next"; "__pycache__";
                "venv"; ".venv"; "target"; ".idea"; ".vscode"; "coverage";
                ".wrangler"; ".turbo"; ".cache"]%string.

(** [shouldIndexFile] *)
Definition shouldIndexFile (path : jsstring) : bool :=
  let ext := getFileExtension path in
  if existsb (fun p => includes path p) skipPatterns then false
  else if includes path (str "package-lock.json")
          || includes path (str "yarn.lock")
          || includes path (str "pnpm-lock.yaml") then false
  else arr_includes indexableExtensions ext.

(** [path.replace(/\/$/, '')] *)
Definition dropTrailingSlash (path : jsstring) : jsstring :=
  match List.rev path with
  | c :: r => if N.eqb c SLASH then List.rev r else path
  | [] => path
  end.

(** [extractProjectName] *)
Definition extractProjectName (path : jsstring) : jsstring :=
  let parts := split SLASH (dropTrailingSlash path) in
  match List.last parts [] with
  | [] => str "unknown"
  | name => name
  end.

End Utils.

Export Utils.

(* ================================================================== *)
(** * src/lib/chunker.ts *)
(* ================================================================== *)

Module Chunker.

Definition MAX_CHUNK_TOKENS : nat := 512.
Definition OVERLAP_LINES : nat := 3.
Definition APPROX_CHARS_PER_TOKEN : nat := 4.
Definition MAX_CHUNK_CHARS : nat := MAX_CHUNK_TOKENS * APPROX_CHARS_PER_TOKEN.

Record ChunkOptions : Type := mkOptions {
  fileId : jsstring;
  projectId : jsstring;
  filePath : jsstring;
}.

(** [Omit<Chunk, 'id'>] *)
Record ChunkNoId : Type := mkChunk {
  file_id : jsstring;
  project_id : jsstring;
  content : jsstring;
  start_line : Z;
  end_line : Z;
  chunk_type : FileType;
}.

(** ** Boundary patterns *)

Definition ws1 : regex := Plus Space.            (* \s+ *)
Definition ws0 : regex := Star Space.            (* \s* *)
Definition ident : regex := Plus Word.           (* \w+ *)
Definition kw (s : string) : regex := Seq (Txt s) ws1.

(** [/^(export\s+)?(async\s+)?function\s+\w+/] *)
Definition re_js_function : regex :=
  Seqs [Opt (kw "export"); Opt (kw "async"); kw "function"; ident].
(** [/^(export\s+)?class\s+\w+/] *)
Definition re_js_class : regex :=
  Seqs [Opt (kw "export"); kw "class"; ident].
(** [/^(export\s+)?const\s+\w+\s*=\s*(async\s+)?\(/] *)
Definition re_js_const : regex :=
  Seqs [Opt (kw "export"); kw "const"; ident; ws0; Txt "="; ws0;
        Opt (kw "async"); Txt "("].
(** [/^(async\s+)?def\s+\w+/] *)
Definition re_py_def : regex := Seqs [Opt (kw "async"); kw "def"; ident].
(** [/^class\s+\w+/] *)
Definition re_py_class : regex := Seqs [kw "class"; ident].
(** [/^func\s+(\(\w+\s+\*?\w+\)\s+)?\w+/] *)
Definition re_go_func : regex :=
  Seqs [kw "func";
        Opt (Seqs [Txt "("; ident; ws1; Opt (Txt "*"); ident; Txt ")"; ws1]);
        ident].
(** [/^type\s+\w+\s+struct/] *)
Definition re_go_struct : regex := Seqs [kw "type"; ident; ws1; Txt "struct"].
(** [/^(pub\s+)?(async\s+)?fn\s+\w+/] *)
Definition re_rs_fn : regex :=
  Seqs [Opt (kw "pub"); Opt (kw "async"); kw "fn"; ident].
(** [/^(pub\s+)?struct\s+\w+/] *)
Definition re_rs_struct : regex := Seqs [Opt (kw "pub"); kw "struct"; ident].
(** [/^impl\s+/] *)
Definition re_rs_impl : regex := kw "impl".

(** The [patterns] table; [patterns[ext || ''] || []]. Within [chunkFile]
    the extension is one of [codeExtensions], so that only own keys of the
    table are looked up. *)
Definition patterns : list (jsstring * list regex) :=
  [ (str "ts", [re_js_function; re_js_class; re_js_const]);
    (str "tsx", [re_js_function; re_js_class; re_js_const]);
    (str "js", [re_js_function; re_js_class; re_js_const]);
    (str "jsx", [re_js_function; re_js_class]);
    (str "py", [re_py_def; re_py_class]);
    (str "go", [re_go_func; re_go_struct]);
    (str "rs", [re_rs_fn; re_rs_struct; re_rs_impl]) ].

Fixpoint lookup_patterns (tbl : list (jsstring * list regex)) (ext : jsstring)
  : list regex :=
  match tbl with
  | [] => []
  | (k, v) :: tbl' => if JsString.eqb k ext then v else lookup_patterns tbl' ext
  end.

(** [filePath.split('.').pop()?.toLowerCase()] *)
Definition boundaryExt (filePath : jsstring) : jsstring :=
  toLowerCase (List.last (split DOT filePath) []).

Definition langPatterns (filePath : jsstring) : list regex :=
  lookup_patterns patterns (boundaryExt filePath).

(** The inner loop of [detectCodeBoundaries]: the first pattern that
    matches ends it ([break]). [any_pattern ps line] tells whether the body
    of the [if] is run. *)
Fixpoint any_pattern (ps : list regex) (line : jsstring) : bool :=
  match ps with
  | [] => false
  | p :: ps' => if test p line then true else any_pattern ps' line
  end.

(** [boundaries[boundaries.length - 1]]; the array is never empty. *)
Definition lastBoundary (boundaries : list nat) : nat := List.last boundaries 0.

(** One iteration of the outer loop of [detectCodeBoundaries]. *)
Definition detect_step (ps : list regex) (i : nat) (raw : jsstring)
  (boundaries : list nat) : list nat :=
  let line := trim raw in
  if any_pattern ps line then
    if (5 <? Z.of_nat i - Z.of_nat (lastBoundary boundaries))%Z
    then boundaries ++ [i]
    else boundaries
  else boundaries.

(** [detectCodeBoundaries] *)
Definition detectCodeBoundaries (lines : list jsstring) (filePath : jsstring)
  : list nat :=
  for_each (detect_step (langPatterns filePath)) 0 lines [0].

(** [Math.max(0, currentChunk.length - OVERLAP_LINES)] *)
Definition overlapStart (currentChunk : list jsstring) : nat :=
  Z.to_nat (Z.max 0 (Z.of_nat (length currentChunk) - Z.of_nat OVERLAP_LINES)).

(** [chunkContent.trim().length > 0] *)
Definition nonblank (chunkContent : jsstring) : bool :=
  0 <? length (trim chunkContent).

(** ** [chunkByLines] *)

Record LineState : Type := mkLineState {
  ls_chunks : list ChunkNoId;
  ls_currentChunk : list jsstring;
  ls_chunkStartLine : Z;
}.

Definition chunkByLines_step (n : nat) (options : ChunkOptions)
  (chunkType : FileType) (i : nat) (line : jsstring) (st : LineState)
  : LineState :=
  let currentChunk := ls_currentChunk st ++ [line] in
  if (MAX_CHUNK_CHARS <=? length (join NL currentChunk))
     || (Z.of_nat i =? Z.of_nat n - 1)%Z
  then
    let chunkContent := join NL currentChunk in
    let chunks :=
      if nonblank chunkContent
      then ls_chunks st ++
           [mkChunk (fileId options) (projectId options) chunkContent
              (ls_chunkStartLine st + 1)%Z (Z.of_nat i + 1)%Z chunkType]
      else ls_chunks st in
    let currentChunk' := slice_from currentChunk (overlapStart currentChunk) in
    mkLineState chunks currentChunk'
      (Z.of_nat i - Z.of_nat (length currentChunk') + 1)%Z
  else mkLineState (ls_chunks st) currentChunk (ls_chunkStartLine st).

Definition chunkByLines (lines : list jsstring) (options : ChunkOptions)
  (chunkType : FileType) : list ChunkNoId :=
  ls_chunks (for_each (chunkByLines_step (length lines) options chunkType) 0 lines
               (mkLineState [] [] 0%Z)).

(** ** [splitLargeChunk] *)

Definition splitLargeChunk_step (startLine : Z) (options : ChunkOptions)
  (i : nat) (line : jsstring) (st : LineState) : LineState :=
  let currentChunk := ls_currentChunk st ++ [line] in
  if MAX_CHUNK_CHARS <=? length (join NL currentChunk)
  then
    let chunks :=
      ls_chunks st ++
      [mkChunk (fileId options) (projectId options) (join NL currentChunk)
         (ls_chunkStartLine st + 1)%Z (startLine + Z.of_nat i + 1)%Z code] in
    let currentChunk' := slice_from currentChunk (overlapStart currentChunk) in
    mkLineState chunks currentChunk'
      (startLine + Z.of_nat i - Z.of_nat (length currentChunk') + 1)%Z
  else mkLineState (ls_chunks st) currentChunk (ls_chunkStartLine st).

Definition splitLargeChunk (lines : list jsstring) (startLine : Z)
  (options : ChunkOptions) : list ChunkNoId :=
  let st := for_each (splitLargeChunk_step startLine options) 0 lines
              (mkLineState [] [] startLine) in
  if (0 <? length (ls_currentChunk st)) && nonblank (join NL (ls_currentChunk st))
  then ls_chunks st ++
       [mkChunk (fileId options) (projectId options) (join NL (ls_currentChunk st))
          (ls_chunkStartLine st + 1)%Z (startLine + Z.of_nat (length lines))%Z code]
  else ls_chunks st.

(** ** [chunkCode] *)

(** One iteration of the loop over [boundaries]; [next] is
    [boundaries[i + 1]], absent at the last index. *)
Definition chunkCode_step (lines : list jsstring) (options : ChunkOptions)
  (start : nat) (next : option nat) (chunks : list ChunkNoId)
  : list ChunkNoId :=
  let end_ := match next with Some e => e | None => length lines end in
  let chunkLines := slice lines start end_ in
  let chunkContent := join NL chunkLines in
  if MAX_CHUNK_CHARS <? length chunkContent then
    chunks ++ splitLargeChunk chunkLines (Z.of_nat start) options
  else if nonblank chunkContent then
    chunks ++ [mkChunk (fileId options) (projectId options) chunkContent
                 (Z.of_nat start + 1)%Z (Z.of_nat end_) code]
  else chunks.

Definition chunkCode (content : jsstring) (options : ChunkOptions)
  : list ChunkNoId :=
  let lines := split NL content in
  let boundaries := detectCodeBoundaries lines (filePath options) in
  if 0 <? length boundaries then
    for_each (fun i start chunks =>
                chunkCode_step lines options start (boundaries !! (S i)) chunks)
      0 boundaries []
  else chunkByLines lines options code.

(** ** [chunkMarkdown] *)

(** [/^#{1,3}\s+/] *)
Definition headerPattern : regex :=
  Seqs [Txt "#"; Opt (Txt "#"); Opt (Txt "#"); ws1].

Record MdState : Type := mkMdState {
  md_chunks : list ChunkNoId;
  md_currentChunkStart : nat;
  md_currentChunkLines : list jsstring;
}.

Definition chunkMarkdown_step (options : ChunkOptions) (i : nat)
  (line : jsstring) (st : MdState) : MdState :=
  if test headerPattern line && (0 <? length (md_currentChunkLines st)) then
    let chunkContent := join NL (md_currentChunkLines st) in
    let chunks :=
      if nonblank chunkContent
      then md_chunks st ++
           [mkChunk (fileId options) (projectId options) chunkContent
              (Z.of_nat (md_currentChunkStart st) + 1)%Z (Z.of_nat i) markdown]
      else md_chunks st in
    mkMdState chunks i [line]
  else
    let currentChunkLines := md_currentChunkLines st ++ [line] in
    if MAX_CHUNK_CHARS <? length (join NL currentChunkLines) then
      let splitPoint := length currentChunkLines / 2 in
      let firstHalf := slice currentChunkLines 0 splitPoint in
      let secondHalf := slice_from currentChunkLines splitPoint in
      mkMdState
        (md_chunks st ++
         [mkChunk (fileId options) (projectId options) (join NL firstHalf)
            (Z.of_nat (md_currentChunkStart st) + 1)%Z
            (Z.of_nat (md_currentChunkStart st) + Z.of_nat splitPoint)%Z markdown])
        (md_currentChunkStart st + splitPoint)
        secondHalf
    else mkMdState (md_chunks st) (md_currentChunkStart st) currentChunkLines.

Definition chunkMarkdown (content : jsstring) (options : ChunkOptions)
  : list ChunkNoId :=
  let lines := split NL content in
  let st := for_each (chunkMarkdown_step options) 0 lines (mkMdState [] 0 []) in
  if 0 <? length (md_currentChunkLines st) then
    let chunkContent := join NL (md_currentChunkLines st) in
    if nonblank chunkContent
    then md_chunks st ++
         [mkChunk (fileId options) (projectId options) chunkContent
            (Z.of_nat (md_currentChunkStart st) + 1)%Z
            (Z.of_nat (length lines)) markdown]
    else md_chunks st
  else md_chunks st.

(** ** [chunkConfig], [chunkText], [chunkFile] *)

Definition chunkConfig (content : jsstring) (options : ChunkOptions)
  : list ChunkNoId :=
  if length content <=? MAX_CHUNK_CHARS then
    [mkChunk (fileId options) (projectId options) content 1%Z
       (Z.of_nat (length (split NL content))) config]
  else chunkByLines (split NL content) options config.

Definition chunkText (content : jsstring) (options : ChunkOptions)
  : list ChunkNoId :=
  chunkByLines (split NL content) options text.

Definition chunkFile (content : jsstring) (options : ChunkOptions)
  : list ChunkNoId :=
  match getFileType (filePath options) with
  | markdown => chunkMarkdown content options
  | code => chunkCode content options
  | config => chunkConfig content options
  | text => chunkText content options
  end.

(** The lines [start_line .. end_line] (1-based, inclusive) of a file. *)
Definition lines_of_range (lines : list jsstring) (s e : Z) : list jsstring :=
  slice lines (Z.to_nat (s - 1)) (Z.to_nat e).

(** A long line, for examples: [n] times the letter [x]. *)
Definition xs (n : nat) : jsstring := repeat 120%N n.

End Chunker.

Export Chunker.

(* ================================================================== *)
(** * The bindings: relational store, cache, vector index, inference *)
(* ================================================================== *)

Module Pipeline.

(** The result of a computation that may throw an [Error] with a message. *)
Inductive outcome (A : Type) : Type :=
| Returned (a : A)
| Thrown (message : string).
Arguments Returned {A} a.
Arguments Thrown {A} message.

Section WithNumber.

(** The JavaScript [number]s that are only passed around (embedding
    components, similarity scores) are kept abstract. *)
Context {number : Type}.

(** ** Rows of [schema.sql] *)

Inductive ProjectStatus : Type := Pending | Indexing | Ready | Error.

Record Project : Type := mkProject {
  p_id : jsstring;
  p_name : jsstring;
  p_path : jsstring;
  p_status : ProjectStatus;
  p_file_count : Z;
  p_last_indexed_at : option Z;
  p_created_at : Z;
}.

Record File : Type := mkFile {
  f_id : jsstring;
  f_project_id : jsstring;
  f_relative_path : jsstring;
  f_content_hash : jsstring;
  f_chunk_count : Z;
  f_indexed_at : option Z;
}.

(** [Chunk]: a chunk of the chunker together with its [id]. *)
Record Chunk : Type := mkChunkRow {
  id : jsstring;
  chunk : ChunkNoId;
}.

Record Conversation : Type := mkConversation {
  c_id : jsstring;
  c_project_id : option jsstring;
  c_title : jsstring;
  c_message_count : Z;
  c_created_at : Z;
}.

Record SourceReference : Type := mkSource {
  s_chunk_id : jsstring;
  s_file_path : jsstring;
  s_project_name : jsstring;
  s_start_line : Z;
  s_end_line : Z;
  s_score : number;
}.

Inductive Role : Type := user | assistant | system.

Record Message : Type := mkMessage {
  m_id : jsstring;
  m_conversation_id : jsstring;
  m_role : Role;
  m_content : jsstring;
  m_sources : option (list SourceReference);
  m_created_at : Z;
}.

(** ** Vector records *)

Record VectorMetadata : Type := mkMetadata {
  vm_chunk_id : jsstring;
  vm_project_id : jsstring;
  vm_file_path : jsstring;
  vm_file_type : FileType;
  vm_start_line : Z;
  vm_end_line : Z;
}.

(** [EmbeddingResult]; [values] is absent when the service returned fewer
    vectors than texts ([embeddings[j]] is [undefined]). *)
Record EmbeddingResult : Type := mkEmbeddingResult {
  er_id : jsstring;
  er_values : option (list number);
  er_metadata : VectorMetadata;
}.

Record VectorMatch : Type := mkMatch {
  vr_id : jsstring;
  vr_score : number;
  vr_metadata : VectorMetadata;
}.

(** ** Requests sent to the remote services *)

Record ContextItem : Type := mkContext {
  cx_content : jsstring;
  cx_filePath : jsstring;
  cx_projectName : jsstring;
  cx_startLine : Z;
  cx_endLine : Z;
}.

(** The [content] of a chat message: the fixed system prompts, a stored
    message, or the question with the retrieved context. *)
Inductive ChatContent : Type :=
| RagSystemPrompt
| TitleSystemPrompt
| Plain (s : jsstring)
| Question (context : list ContextItem) (query : jsstring).

(** [env.LLM_MODEL], [env.FAST_MODEL] *)
Inductive ChatModel : Type := LLM_MODEL | FAST_MODEL.

Inductive AICall : Type :=
| EmbedCall (texts : list jsstring)
| ChatCall (model : ChatModel) (messages : list (Role * ChatContent)) (max_tokens : Z).

Inductive VectorizeCall : Type :=
| UpsertCall (batch : list EmbeddingResult)
| DeleteCall (ids : list jsstring)
| QueryCall (v : option (list number)) (topK : Z) (project_id : option jsstring).

Inductive LogEntry : Type :=
| LogEmbeddingError (i : nat) (msg : string)
| LogUpsertError
| LogDeleteError (i : nat)
| LogAppendSkipped (n : Z)
| LogHandlerError (msg : string).

(** ** The environment of a request

    [DB_*] are the tables of the relational store in insertion order,
    [KV] the cache (a rate counter is stored as the decimal text of a
    number, read back with [parseInt]: here the number itself),
    [VECTORIZE] the vectors of the index, [AI_calls] and [VECTORIZE_calls]
    the requests made so far to the two services, [uuids] the number of
    identifiers drawn, [now] the value of [Date.now()] (milliseconds; it
    does not advance while a request is served), [console] what was
    logged. *)
Record Env : Type := mkEnv {
  DB_projects : list Project;
  DB_files : list File;
  DB_chunks : list Chunk;
  DB_conversations : list Conversation;
  DB_messages : list Message;
  KV : gmap jsstring Z;
  VECTORIZE : list EmbeddingResult;
  AI_calls : list AICall;
  VECTORIZE_calls : list VectorizeCall;
  uuids : nat;
  now : Z;
  console : list LogEntry;
}.

(** What the platform and the remote services answer. A service call is
    identified by its position in the sequence of calls to that service;
    [None] means that the call throws. *)
Record Platform : Type := mkPlatform {
  randomUUID : nat -> jsstring;
  SHA256_hex : jsstring -> jsstring;
  (** [new Date(ms).toISOString().split('T')[0]] *)
  isoDate : Z -> jsstring;
  AI_embedding : nat -> list jsstring -> option (list (list number));
  (** the [response] of a chat completion, which may be absent *)
  AI_chat : nat -> ChatModel -> list (Role * ChatContent) -> option (option jsstring);
  VECTORIZE_upsert : nat -> list EmbeddingResult -> bool;
  VECTORIZE_deleteByIds : nat -> list jsstring -> bool;
  VECTORIZE_query : nat -> option (list number) -> Z -> option jsstring ->
                    option (list VectorMatch);
}.

Definition set_projects (v : list Project) (e : Env) : Env :=
  mkEnv v (DB_files e) (DB_chunks e) (DB_conversations e) (DB_messages e) (KV e)
    (VECTORIZE e) (AI_calls e) (VECTORIZE_calls e) (uuids e) (now e) (console e).
Definition set_files (v : list File) (e : Env) : Env :=
  mkEnv (DB_projects e) v (DB_chunks e) (DB_conversations e) (DB_messages e) (KV e)
    (VECTORIZE e) (AI_calls e) (VECTORIZE_calls e) (uuids e) (now e) (console e).
Definition set_chunks (v : list Chunk) (e : Env) : Env :=
  mkEnv (DB_projects e) (DB_files e) v (DB_conversations e) (DB_messages e) (KV e)
    (VECTORIZE e) (AI_calls e) (VECTORIZE_calls e) (uuids e) (now e) (console e).
Definition set_conversations (v : list Conversation) (e : Env) : Env :=
  mkEnv (DB_projects e) (DB_files e) (DB_chunks e) v (DB_messages e) (KV e)
    (VECTORIZE e) (AI_calls e) (VECTORIZE_calls e) (uuids e) (now e) (console e).
Definition set_messages (v : list Message) (e : Env) : Env :=
  mkEnv (DB_projects e) (DB_files e) (DB_chunks e) (DB_conversations e) v (KV e)
    (VECTORIZE e) (AI_calls e) (VECTORIZE_calls e) (uuids e) (now e) (console e).
Definition set_KV (v : gmap jsstring Z) (e : Env) : Env :=
  mkEnv (DB_projects e) (DB_files e) (DB_chunks e) (DB_conversations e) (DB_messages e) v
    (VECTORIZE e) (AI_calls e) (VECTORIZE_calls e) (uuids e) (now e) (console e).
Definition set_VECTORIZE (v : list EmbeddingResult) (e : Env) : Env :=
  mkEnv (DB_projects e) (DB_files e) (DB_chunks e) (DB_conversations e) (DB_messages e)
    (KV e) v (AI_calls e) (VECTORIZE_calls e) (uuids e) (now e) (console e).
Definition set_AI_calls (v : list AICall) (e : Env) : Env :=
  mkEnv (DB_projects e) (DB_files e) (DB_chunks e) (DB_conversations e) (DB_messages e)
    (KV e) (VECTORIZE e) v (VECTORIZE_calls e) (uuids e) (now e) (console e).
Definition set_VECTORIZE_calls (v : list VectorizeCall) (e : Env) : Env :=
  mkEnv (DB_projects e) (DB_files e) (DB_chunks e) (DB_conversations e) (DB_messages e)
    (KV e) (VECTORIZE e) (AI_calls e) v (uuids e) (now e) (console e).
Definition set_uuids (v : nat) (e : Env) : Env :=
  mkEnv (DB_projects e) (DB_files e) (DB_chunks e) (DB_conversations e) (DB_messages e)
    (KV e) (VECTORIZE e) (AI_calls e) (VECTORIZE_calls e) v (now e) (console e).
Definition set_console (v : list LogEntry) (e : Env) : Env :=
  mkEnv (DB_projects e) (DB_files e) (DB_chunks e) (DB_conversations e) (DB_messages e)
    (KV e) (VECTORIZE e) (AI_calls e) (VECTORIZE_calls e) (uuids e) (now e) v.

(** ** Computations on the environment that may throw *)

Definition M (A : Type) : Type := Env -> outcome A * Env.

Definition ret {A} (a : A) : M A := fun e => (Returned a, e).
Definition throw {A} (message : string) : M A := fun e => (Thrown message, e).
Definition bind {A B} (m : M A) (k : A -> M B) : M B :=
  fun e => match m e with
           | (Returned a, e') => k a e'
           | (Thrown msg, e') => (Thrown msg, e')
           end.
(** [try { m } catch (error) { h(error.message) }]; what [m] did to
    the environment before it threw stays done. *)
Definition try_catch {A} (m : M A) (h : string -> M A) : M A :=
  fun e => match m e with
           | (Returned a, e') => (Returned a, e')
           | (Thrown msg, e') => h msg e'
           end.
Definition gets {A} (f : Env -> A) : M A := fun e => (Returned (f e), e).
Definition modify (f : Env -> Env) : M unit := fun e => (Returned tt, f e).


Notation "x <- m ;; k" := (bind m (fun x => k))
  (at level 100, m at next level, right associativity).
Notation "m ;;; k" := (bind m (fun _ => k))
  (at level 100, right associativity).

Variable P : Platform.

(** [for (let i = 0; i < arr.length; i += size) body(i, arr.slice(i, i + size))].
    [fuel] bounds the number of iterations; [length arr] is enough as soon
    as [0 < size]. *)
Fixpoint for_batches {A St : Type} (size : nat)
  (body : nat -> list A -> St -> M St) (fuel i : nat) (arr : list A) (st : St)
  : M St :=
  if i <? length arr then
    match fuel with
    | 0 => ret st
    | S fuel' =>
        st' <- body i (slice arr i (i + size)) st ;;
        for_batches size body fuel' (i + size) arr st'
    end
  else ret st.

(** ** src/lib/utils.ts, continued *)

(** [generateId] *)
Definition generateId : M jsstring :=
  n <- gets uuids ;;
  modify (set_uuids (S n)) ;;;
  ret (randomUUID P n).

(** [`rate:${type}:${today}`] where [today] is the date of [t]. *)
Definition rateKey (type : string) (t : Z) : jsstring :=
  str "rate:" ++ str type ++ str ":" ++ isoDate P t.

(** [getRateLimitKey] *)
Definition getRateLimitKey (type : string) : M jsstring :=
  t <- gets now ;;
  ret (rateKey type t).

(** [assignChunkIds] *)
Fixpoint assignChunkIds (chunks : list ChunkNoId) : M (list Chunk) :=
  match chunks with
  | [] => ret []
  | c :: chunks' =>
      i <- generateId ;;
      rest <- assignChunkIds chunks' ;;
      ret (mkChunkRow i c :: rest)
  end.

(** ** src/lib/embeddings.ts *)

Definition DAILY_EMBEDDING_LIMIT : Z := 7000.
Definition BATCH_SIZE : nat := 100.

(** [console.error], [console.log] *)
Definition console_error (l : LogEntry) : M unit :=
  modify (fun e => set_console (console e ++ [l]) e).

(** [env.AI.run(env.EMBEDDING_MODEL, { text: texts })] and its [data]. *)
Definition AI_run_embedding (texts : list jsstring) : M (list (list number)) :=
  calls <- gets AI_calls ;;
  modify (set_AI_calls (calls ++ [EmbedCall texts])) ;;;
  match AI_embedding P (length calls) texts with
  | Some data => ret data
  | None => throw "AI.run failed"
  end.

(** [generateEmbeddings] *)
Definition generateEmbeddings (texts : list jsstring) : M (list (list number)) :=
  if length texts =? 0 then ret []
  else
    rateLimitKey <- getRateLimitKey "embedding" ;;
    stored <- gets (fun e => KV e !! rateLimitKey) ;;
    let currentCount := default 0%Z stored in
    if (DAILY_EMBEDDING_LIMIT <? currentCount + Z.of_nat (length texts))%Z then
      throw "Daily embedding limit reached (7000). Try again tomorrow."
    else
      result <- AI_run_embedding texts ;;
      modify (fun e =>
        set_KV (<[rateLimitKey := (currentCount + Z.of_nat (length texts))%Z]> (KV e)) e) ;;;
      ret result.

(** [generateQueryEmbedding]; [const [embedding] = ...] *)
Definition generateQueryEmbedding (query : jsstring) : M (option (list number)) :=
  r <- generateEmbeddings [query] ;;
  ret (head r).

(** Upsert by identifier. *)
Definition upsert_one (v : EmbeddingResult) (idx : list EmbeddingResult)
  : list EmbeddingResult :=
  if existsb (fun w => JsString.eqb (er_id w) (er_id v)) idx
  then List.map (fun w => if JsString.eqb (er_id w) (er_id v) then v else w) idx
  else idx ++ [v].

(** [env.VECTORIZE.upsert(batch)] *)
Definition VECTORIZE_do_upsert (batch : list EmbeddingResult) : M unit :=
  calls <- gets VECTORIZE_calls ;;
  modify (set_VECTORIZE_calls (calls ++ [UpsertCall batch])) ;;;
  if VECTORIZE_upsert P (length calls) batch then
    modify (fun e => set_VECTORIZE (fold_left (fun idx v => upsert_one v idx) batch (VECTORIZE e)) e)
  else throw "VECTORIZE.upsert failed".

(** [env.VECTORIZE.deleteByIds(ids)] *)
Definition VECTORIZE_do_deleteByIds (ids : list jsstring) : M unit :=
  calls <- gets VECTORIZE_calls ;;
  modify (set_VECTORIZE_calls (calls ++ [DeleteCall ids])) ;;;
  if VECTORIZE_deleteByIds P (length calls) ids then
    modify (fun e =>
      set_VECTORIZE (filter (fun w => arr_includes ids (er_id w) = false) (VECTORIZE e)) e)
  else throw "VECTORIZE.deleteByIds failed".

(** [env.VECTORIZE.query(v, { topK, filter })] and its [matches]. *)
Definition VECTORIZE_do_query (v : option (list number)) (topK : Z)
  (projectId : option jsstring) : M (list VectorMatch) :=
  calls <- gets VECTORIZE_calls ;;
  modify (set_VECTORIZE_calls (calls ++ [QueryCall v topK projectId])) ;;;
  match VECTORIZE_query P (length calls) v topK projectId with
  | Some ms => ret ms
  | None => throw "VECTORIZE.query failed"
  end.

(** The body of the loop of [upsertVectors]; the state is
    [(inserted, errors)]. *)
Definition upsertVectors_step (i : nat) (batch : list EmbeddingResult)
  (st : Z * Z) : M (Z * Z) :=
  let '(inserted, errors) := st in
  try_catch
    (VECTORIZE_do_upsert batch ;;;
     ret ((inserted + Z.of_nat (length batch))%Z, errors))
    (fun _ =>
       console_error LogUpsertError ;;;
       ret (inserted, (errors + Z.of_nat (length batch))%Z)).

(** [upsertVectors] *)
Definition upsertVectors (vectors : list EmbeddingResult) : M (Z * Z) :=
  for_batches BATCH_SIZE upsertVectors_step (length vectors) 0 vectors (0%Z, 0%Z).

(** [searchVectors] with [options = { topK, projectId }]; an empty
    [projectId] is not used as a filter. *)
Definition searchVectors (queryEmbedding : option (list number)) (topK : Z)
  (projectId : option jsstring) : M (list VectorMatch) :=
  let filter_project :=
    match projectId with
    | Some ((_ :: _) as p) => Some p
    | _ => None
    end in
  VECTORIZE_do_query queryEmbedding topK filter_project.

Definition deleteProjectVectors_step (i : nat) (batch : list jsstring) (st : unit)
  : M unit :=
  try_catch (VECTORIZE_do_deleteByIds batch)
            (fun _ => console_error (LogDeleteError i)).

(** [deleteProjectVectors] *)
Definition deleteProjectVectors (projectId : jsstring) : M unit :=
  chunks <- gets (fun e =>
    filter (fun c => project_id (chunk c) = projectId) (DB_chunks e)) ;;
  if length chunks =? 0 then ret tt
  else
    let chunkIds := List.map id chunks in
    for_batches 100 deleteProjectVectors_step (length chunkIds) 0 chunkIds tt.

(** ** [readFileTool] *)

(** [ORDER BY key] (ascending), as a stable insertion sort of the rows in
    table order. *)
Fixpoint insert_by {A} (key : A -> Z) (x : A) (l : list A) : list A :=
  match l with
  | [] => [x]
  | y :: l' => if (key x <=? key y)%Z then x :: l else y :: insert_by key x l'
  end.

Fixpoint order_by {A} (key : A -> Z) (l : list A) : list A :=
  match l with
  | [] => []
  | x :: l' => insert_by key x (order_by key l')
  end.

(** [FROM chunks c JOIN files f ON c.file_id = f.id
     WHERE f.project_id = ? AND f.relative_path = ?] *)
Definition chunks_of_file (e : Env) (projectId filePath : jsstring) : list Chunk :=
  flat_map (fun c =>
    List.map (fun _ => c)
      (filter (fun f => f_id f = file_id (chunk c)
                        /\ f_project_id f = projectId
                        /\ f_relative_path f = filePath) (DB_files e)))
    (DB_chunks e).

(** [readFileTool]: [Some (content, lineCount)] or [null]. *)
Definition readFileTool (projectId filePath : jsstring)
  : M (option (jsstring * Z)) :=
  chunks <- gets (fun e =>
    order_by (fun c => start_line (chunk c)) (chunks_of_file e projectId filePath)) ;;
  if length chunks =? 0 then ret None
  else
    let content := join NL (List.map (fun c => content (chunk c)) chunks) in
    match last chunks with
    | Some lastChunk => ret (Some (content, end_line (chunk lastChunk)))
    | None => ret None
    end.


(** ** Responses *)

Inductive ProgressStatus : Type :=
| Chunking | Embedding | Complete | Failed.          (* 'error' *)

Record IndexProgress : Type := mkProgress {
  ip_project_id : jsstring;
  ip_status : ProgressStatus;
  ip_total_files : Z;
  ip_processed_files : Z;
  ip_total_chunks : Z;
  (** [error]: the number [n] of [`${n} vectors failed to upsert`] *)
  ip_error : option Z;
}.

Inductive ResponseBody : Type :=
| ErrorBody (error : string)
| RecentlyIndexedBody (message : string) (project_id : jsstring) (last_indexed_at : Z)
| IndexBody (progress : IndexProgress) (message : option string)
    (vectors_inserted vectors_errors : Z)
| QueryBody (answer : jsstring) (sources : list SourceReference)
    (conversation_id : jsstring).

Record Response : Type := mkResponse {
  r_status : Z;
  r_body : ResponseBody;
}.

(** [jsonResponse], [errorResponse] *)
Definition jsonResponse (data : ResponseBody) : Response := mkResponse 200 data.
Definition errorResponse (message : string) (status : Z) : Response :=
  mkResponse status (ErrorBody message).

(** ** src/handlers/index.ts *)

Definition EMBEDDING_BATCH_SIZE : nat := 50.

(** The parsed body of an index request. An absent or empty
    [project_path] is [[]]; an absent [files] is [[]]; [force] is the
    truthiness of [body.force], [append] is [body.append === true]. *)
Record IndexRequest : Type := mkIndexRequest {
  project_path : jsstring;
  project_name : option jsstring;
  force : bool;
  append : bool;
  files : list (jsstring * jsstring);      (* path, content *)
}.

Definition unixNow : M Z :=                 (* Math.floor(Date.now() / 1000) *)
  t <- gets now ;; ret (t / 1000)%Z.

(** [SELECT * FROM projects WHERE path = ?], first row. *)
Definition projectByPath (e : Env) (path : jsstring) : option Project :=
  List.find (fun p => JsString.eqb (p_path p) path) (DB_projects e).

(** [SELECT relative_path FROM files WHERE project_id = ?], as a set. *)
Definition storedPaths (e : Env) (projectId : jsstring) : gset jsstring :=
  list_to_set (List.map f_relative_path
                 (filter (fun f => f_project_id f = projectId) (DB_files e))).

Definition DB_project_by_path (path : jsstring) : M (option Project) :=
  gets (fun e => projectByPath e path).

(** [UPDATE projects SET ... WHERE id = ?] *)
Definition DB_update_project (projectId : jsstring) (f : Project -> Project) : M unit :=
  modify (fun e =>
    set_projects
      (List.map (fun p => if JsString.eqb (p_id p) projectId then f p else p)
         (DB_projects e)) e).

Definition with_status (s : ProjectStatus) (p : Project) : Project :=
  mkProject (p_id p) (p_name p) (p_path p) s (p_file_count p)
    (p_last_indexed_at p) (p_created_at p).

Definition with_indexed (s : ProjectStatus) (file_count : Z) (t : Z) (p : Project)
  : Project :=
  mkProject (p_id p) (p_name p) (p_path p) s file_count (Some t) (p_created_at p).

(** The batch that clears a project: [DELETE FROM chunks WHERE project_id
    = ?], [DELETE FROM files WHERE project_id = ?] (which cascades to the
    chunks of the deleted files), [UPDATE projects SET status =
    'indexing', file_count = 0 WHERE id = ?]. *)
Definition DB_clear_project (projectId : jsstring) : M unit :=
  modify (fun e =>
    set_chunks (filter (fun c => project_id (chunk c) <> projectId) (DB_chunks e)) e) ;;;
  modify (fun e =>
    let gone := List.map f_id (filter (fun f => f_project_id f = projectId) (DB_files e)) in
    set_chunks
      (filter (fun c => arr_includes gone (file_id (chunk c)) = false) (DB_chunks e))
      (set_files (filter (fun f => f_project_id f <> projectId) (DB_files e)) e)) ;;;
  DB_update_project projectId
    (fun p => mkProject (p_id p) (p_name p) (p_path p) Indexing 0
                (p_last_indexed_at p) (p_created_at p)).

(** [INSERT INTO projects (id, name, path, status)]; [PRIMARY KEY (id)]
    and [UNIQUE (path)]. *)
Definition DB_insert_project (projectId projectName projectPath : jsstring) : M unit :=
  table <- gets DB_projects ;;
  t <- unixNow ;;
  if existsb (fun p => JsString.eqb (p_id p) projectId
                       || JsString.eqb (p_path p) projectPath) table
  then throw "D1_ERROR: UNIQUE constraint failed"
  else modify (set_projects
                 (table ++ [mkProject projectId projectName projectPath Indexing 0 None t])).

(** [UNIQUE(project_id, relative_path)] and [PRIMARY KEY (id)] of [files]. *)
Definition file_conflict (f : File) (table : list File) : bool :=
  existsb (fun g => JsString.eqb (f_id g) (f_id f)
                    || JsString.eqb (f_project_id g) (f_project_id f)
                       && JsString.eqb (f_relative_path g) (f_relative_path f))
          table.

Fixpoint insert_files (rows : list File) (table : list File) : option (list File) :=
  match rows with
  | [] => Some table
  | f :: rows' =>
      if file_conflict f table then None else insert_files rows' (table ++ [f])
  end.

(** [env.DB.batch(statements)] for [INSERT INTO files]: a transaction. *)
Definition DB_insert_files (i : nat) (rows : list File) (st : unit) : M unit :=
  table <- gets DB_files ;;
  match insert_files rows table with
  | Some table' => modify (set_files table')
  | None => throw "D1_ERROR: UNIQUE constraint failed"
  end.

(** [PRIMARY KEY (id)] of [chunks]. *)
Definition chunk_conflict (c : Chunk) (table : list Chunk) : bool :=
  existsb (fun d => JsString.eqb (id d) (id c)) table.

Fixpoint insert_chunks (rows : list Chunk) (table : list Chunk) : option (list Chunk) :=
  match rows with
  | [] => Some table
  | c :: rows' =>
      if chunk_conflict c table then None else insert_chunks rows' (table ++ [c])
  end.

Definition DB_insert_chunks (i : nat) (rows : list Chunk) (st : unit) : M unit :=
  table <- gets DB_chunks ;;
  match insert_chunks rows table with
  | Some table' => modify (set_chunks table')
  | None => throw "D1_ERROR: UNIQUE constraint failed"
  end.

(** The loop "Process each file"; the state is [(allChunks, fileRecords,
    processed_files)]. [indexed_at] is bound when the statements are
    prepared; the clock does not move, so it is set here. *)
Fixpoint processFiles (projectId : jsstring) (filesToProcess : list (jsstring * jsstring))
  (st : list Chunk * list File * Z) : M (list Chunk * list File * Z) :=
  match filesToProcess with
  | [] => ret st
  | (path, content) :: rest =>
      let '(allChunks, fileRecords, processed) := st in
      fileId <- generateId ;;
      let contentHash := SHA256_hex P content in
      chunks <- assignChunkIds (chunkFile content (mkOptions fileId projectId path)) ;;
      t <- unixNow ;;
      processFiles projectId rest
        (allChunks ++ chunks,
         fileRecords ++ [mkFile fileId projectId path contentHash
                           (Z.of_nat (length chunks)) (Some t)],
         (processed + 1)%Z)
  end.

(** The vector record built for [batch[j]]. *)
Definition vectorResult (projectId : jsstring) (fileRecords : list File)
  (embeddings : list (list number)) (j : nat) (c : Chunk) : EmbeddingResult :=
  let fileRecord := List.find (fun f => JsString.eqb (f_id f) (file_id (chunk c))) fileRecords in
  let relative_path :=
    match fileRecord with Some f => f_relative_path f | None => [] end in
  mkEmbeddingResult (id c) (embeddings !! j)
    (mkMetadata (id c) projectId relative_path (getFileType relative_path)
       (start_line (chunk c)) (end_line (chunk c))).

(** The body of the loop "Generate embeddings"; the state is
    [vectorResults]. *)
Definition embedBatch (projectId : jsstring) (fileRecords : list File)
  (i : nat) (batch : list Chunk) (vectorResults : list EmbeddingResult)
  : M (list EmbeddingResult) :=
  let texts := List.map (fun c => content (chunk c)) batch in
  try_catch
    (embeddings <- generateEmbeddings texts ;;
     ret (for_each (fun j c acc => acc ++ [vectorResult projectId fileRecords embeddings j c])
            0 batch vectorResults))
    (fun msg =>
       console_error (LogEmbeddingError i msg) ;;;
       ret vectorResults).

(** [handleIndex] from "Filter out already-indexed files" on, given what
    the first part has determined. *)
Definition filesToProcess (body : IndexRequest) (appendMode : bool)
  (existingFilePaths : gset jsstring) : list (jsstring * jsstring) :=
  let eligible := List.filter (fun f => shouldIndexFile (fst f)) (files body) in
  if appendMode && (0 <? size existingFilePaths)
  then List.filter (fun f => negb (bool_decide (fst f ∈ existingFilePaths))) eligible
  else eligible.

Definition indexFiles (body : IndexRequest) (projectId : jsstring) (appendMode : bool)
  (existingFilePaths : gset jsstring) : M Response :=
  let todo := filesToProcess body appendMode existingFilePaths in
  (if appendMode && (0 <? size existingFilePaths)
   then console_error
          (LogAppendSkipped
             (Z.of_nat (length (List.filter (fun f => shouldIndexFile (fst f)) (files body)))
              - Z.of_nat (length todo))%Z)
   else ret tt) ;;;
  let progress0 := mkProgress projectId Chunking (Z.of_nat (length todo)) 0 0 None in
  if length todo =? 0 then
    DB_update_project projectId (with_status Ready) ;;;
    ret (jsonResponse
           (IndexBody (mkProgress projectId Complete (Z.of_nat (length todo)) 0 0 None)
              (Some "No new files to index"%string) 0 0))
  else
    processed3 <- processFiles projectId todo ([], [], 0%Z) ;;
    let '(allChunks, fileRecords, processed) := processed3 in
    (if 0 <? length fileRecords
     then for_batches 100 DB_insert_files (length fileRecords) 0 fileRecords tt
     else ret tt) ;;;
    (if 0 <? length allChunks
     then for_batches 100 DB_insert_chunks (length allChunks) 0 allChunks tt
     else ret tt) ;;;
    vectorResults <- for_batches EMBEDDING_BATCH_SIZE (embedBatch projectId fileRecords)
                       (length allChunks) 0 allChunks [] ;;
    counts <- upsertVectors vectorResults ;;
    let '(inserted, errors) := counts in
    t <- unixNow ;;
    let final := if (errors =? 0)%Z then Ready else Error in
    (if appendMode
     then DB_update_project projectId
            (fun p => with_indexed final
                        (p_file_count p + Z.of_nat (length fileRecords))%Z t p)
     else DB_update_project projectId
            (with_indexed final (Z.of_nat (length fileRecords)) t)) ;;;
    ret (jsonResponse
           (IndexBody
              (mkProgress projectId (if (errors =? 0)%Z then Complete else Failed)
                 (Z.of_nat (length todo)) processed (Z.of_nat (length allChunks))
                 (if (0 <? errors)%Z then Some errors else None))
              None inserted errors)).

(** [lastIndexed && Date.now() / 1000 - lastIndexed < 3600]. The
    comparison of the quotient is the comparison of the milliseconds. *)
Definition indexedRecently (t_now : Z) (lastIndexed : option Z) : bool :=
  match lastIndexed with
  | Some t => negb (t =? 0)%Z && (t_now - 1000 * t <? 3600 * 1000)%Z
  | None => false
  end.

Definition recentMessage : string :=
  "Project was indexed recently. Use force=true to re-index or append=true to add files.".

(** The body of the [try] of [handleIndex]. *)
Definition handleIndex_try (body : IndexRequest) : M Response :=
  if length (project_path body) =? 0 then
    ret (errorResponse "project_path is required" 400)
  else if length (files body) =? 0 then
    ret (errorResponse "files array is required with path and content for each file" 400)
  else
    let projectName :=
      match project_name body with
      | Some ((_ :: _) as n) => n
      | _ => extractProjectName (project_path body)
      end in
    let projectPath := project_path body in
    let appendMode := append body in
    project <- DB_project_by_path projectPath ;;
    match project with
    | Some p =>
        let projectId := p_id p in
        if appendMode then
          existingFilePaths <- gets (fun e => storedPaths e projectId) ;;
          DB_update_project projectId (with_status Indexing) ;;;
          indexFiles body projectId appendMode existingFilePaths
        else if negb (force body) then
          t_now <- gets now ;;
          if indexedRecently t_now (p_last_indexed_at p) then
            ret (jsonResponse
                   (RecentlyIndexedBody recentMessage projectId
                      (default 0%Z (p_last_indexed_at p))))
          else
            deleteProjectVectors projectId ;;;
            DB_clear_project projectId ;;;
            indexFiles body projectId appendMode ∅
        else
          deleteProjectVectors projectId ;;;
          DB_clear_project projectId ;;;
          indexFiles body projectId appendMode ∅
    | None =>
        projectId <- generateId ;;
        DB_insert_project projectId projectName projectPath ;;;
        indexFiles body projectId appendMode ∅
    end.

(** [handleIndex] *)
Definition handleIndex (body : IndexRequest) : M Response :=
  try_catch (handleIndex_try body)
    (fun msg =>
       console_error (LogHandlerError msg) ;;;
       ret (errorResponse msg 500)).


(** ** src/lib/llm.ts *)

Definition DAILY_LLM_LIMIT : Z := 3000.

(** [env.AI.run(model, { messages, max_tokens })] and its [response]. *)
Definition AI_run_chat (model : ChatModel) (messages : list (Role * ChatContent))
  (max_tokens : Z) : M (option jsstring) :=
  calls <- gets AI_calls ;;
  modify (set_AI_calls (calls ++ [ChatCall model messages max_tokens])) ;;;
  match AI_chat P (length calls) model messages with
  | Some response => ret response
  | None => throw "AI.run failed"
  end.

(** [arr.slice(-n)] *)
Definition slice_last {A} (l : list A) (n : nat) : list A := drop (length l - n) l.

(** [generateRAGResponse] with [options = { conversationHistory }]; the
    result is the [answer]. *)
Definition generateRAGResponse (query : jsstring) (context : list ContextItem)
  (conversationHistory : list (Role * jsstring)) : M jsstring :=
  rateLimitKey <- getRateLimitKey "query" ;;
  stored <- gets (fun e => KV e !! rateLimitKey) ;;
  let currentCount := default 0%Z stored in
  if (DAILY_LLM_LIMIT <=? currentCount)%Z then
    throw "Daily LLM query limit reached (3000). Try again tomorrow."
  else
    let messages :=
      [(system, RagSystemPrompt)]
      ++ List.map (fun msg => (fst msg, Plain (snd msg))) (slice_last conversationHistory 6)
      ++ [(user, Question context query)] in
    response <- AI_run_chat LLM_MODEL messages 1024 ;;
    modify (fun e => set_KV (<[rateLimitKey := (currentCount + 1)%Z]> (KV e)) e) ;;;
    ret (match response with
         | Some ((_ :: _) as a) => a
         | _ => str "Unable to generate response."
         end).

(** [generateConversationTitle] *)
Definition generateConversationTitle (firstMessage : jsstring) : M jsstring :=
  response <- AI_run_chat FAST_MODEL
                [(system, TitleSystemPrompt); (user, Plain firstMessage)] 20 ;;
  ret (match response with
       | Some r =>
           match slice (trim r) 0 50 with
           | [] => str "New Conversation"
           | t => t
           end
       | None => str "New Conversation"
       end).

(** ** src/handlers/query.ts *)

(** The parsed body of a query request; an absent [query] is [[]]. *)
Record QueryRequest : Type := mkQueryRequest {
  q_query : jsstring;
  q_project_id : option jsstring;
  q_conversation_id : option jsstring;
  q_top_k : option Z;
}.

(** A row of the hydration query: the chunk, [f.relative_path] and
    [p.name as project_name]. *)
Definition hydrate (e : Env) (chunkIds : list jsstring)
  : list (Chunk * jsstring * jsstring) :=
  flat_map (fun c =>
    flat_map (fun f =>
      List.map (fun p => (c, f_relative_path f, p_name p))
        (filter (fun p => p_id p = project_id (chunk c)) (DB_projects e)))
      (filter (fun f => f_id f = file_id (chunk c)) (DB_files e)))
    (filter (fun c => arr_includes chunkIds (id c) = true) (DB_chunks e)).

(** [SELECT role, content FROM messages WHERE conversation_id = ?
     ORDER BY created_at ASC LIMIT 10] *)
Definition conversationHistory (e : Env) (conversation_id : jsstring)
  : list (Role * jsstring) :=
  List.map (fun m => (m_role m, m_content m))
    (take 10
       (order_by m_created_at
          (filter (fun m => m_conversation_id m = conversation_id) (DB_messages e)))).

Definition notFoundAnswer : jsstring :=
  str "I couldn't find any relevant code in the indexed projects for your query. Try indexing more files or rephrasing your question.".

(** The final batch of [handleQuery]: the two messages and the counter
    of the conversation. *)
Definition DB_save_exchange (userMessageId assistantMessageId conversationId : jsstring)
  (query answer : jsstring) (sources : list SourceReference) : M unit :=
  t <- unixNow ;;
  table <- gets DB_messages ;;
  if existsb (fun m => JsString.eqb (m_id m) userMessageId
                       || JsString.eqb (m_id m) assistantMessageId) table
     || JsString.eqb userMessageId assistantMessageId
  then throw "D1_ERROR: UNIQUE constraint failed"
  else
    modify (set_messages
              (table ++ [mkMessage userMessageId conversationId user query None t;
                         mkMessage assistantMessageId conversationId assistant answer
                           (Some sources) t])) ;;;
    modify (fun e =>
      set_conversations
        (List.map (fun c =>
           if JsString.eqb (c_id c) conversationId
           then mkConversation (c_id c) (c_project_id c) (c_title c)
                  (c_message_count c + 2)%Z (c_created_at c)
           else c) (DB_conversations e)) e).

(** The body of the [try] of [handleQuery]. *)
Definition handleQuery_try (body : QueryRequest) : M Response :=
  if (length (q_query body) =? 0) || (length (trim (q_query body)) =? 0) then
    ret (errorResponse "Query is required" 400)
  else
    let query := q_query body in
    let project_id := q_project_id body in
    let conversation_id :=
      match q_conversation_id body with
      | Some ((_ :: _) as c) => Some c
      | _ => None
      end in
    let top_k := default 10%Z (q_top_k body) in
    queryEmbedding <- generateQueryEmbedding query ;;
    vectorResults <- searchVectors queryEmbedding top_k project_id ;;
    if length vectorResults =? 0 then
      cid <- match conversation_id with
             | Some c => ret c
             | None => generateId
             end ;;
      ret (jsonResponse (QueryBody notFoundAnswer [] cid))
    else
      let chunkIds := List.map vr_id vectorResults in
      rows <- gets (fun e => hydrate e chunkIds) ;;
      let chunksMap : gmap jsstring (Chunk * jsstring * jsstring) :=
        fold_left (fun m row => <[id (fst (fst row)) := row]> m) rows ∅ in
      let context :=
        omap (fun vr =>
                match chunksMap !! vr_id vr with
                | Some (c, relative_path, project_name) =>
                    Some (mkContext (content (chunk c)) relative_path project_name
                            (start_line (chunk c)) (end_line (chunk c)))
                | None => None
                end) vectorResults in
      started <- match conversation_id with
                 | Some c =>
                     history <- gets (fun e => conversationHistory e c) ;;
                     ret (history, c)
                 | None =>
                     currentConversationId <- generateId ;;
                     title <- generateConversationTitle query ;;
                     t <- unixNow ;;
                     table <- gets DB_conversations ;;
                     (if existsb (fun c => JsString.eqb (c_id c) currentConversationId) table
                      then throw "D1_ERROR: UNIQUE constraint failed"
                      else modify (set_conversations
                                     (table ++ [mkConversation currentConversationId
                                                  (match project_id with
                                                   | Some ((_ :: _) as p) => Some p
                                                   | _ => None
                                                   end) title 0 t]))) ;;;
                     ret ([], currentConversationId)
                 end ;;
      let history := fst started in
      let currentConversationId := snd started in
      answer <- generateRAGResponse query context history ;;
      let sources :=
        List.map (fun vr =>
          match chunksMap !! vr_id vr with
          | Some (c, relative_path, project_name) =>
              mkSource (vr_id vr) relative_path project_name
                (vm_start_line (vr_metadata vr)) (vm_end_line (vr_metadata vr))
                (vr_score vr)
          | None =>
              mkSource (vr_id vr) (vm_file_path (vr_metadata vr)) []
                (vm_start_line (vr_metadata vr)) (vm_end_line (vr_metadata vr))
                (vr_score vr)
          end) vectorResults in
      userMessageId <- generateId ;;
      assistantMessageId <- generateId ;;
      DB_save_exchange userMessageId assistantMessageId currentConversationId
        query answer sources ;;;
      ret (jsonResponse (QueryBody answer sources currentConversationId)).

(** [handleQuery] *)
Definition handleQuery (body : QueryRequest) : M Response :=
  try_catch (handleQuery_try body)
    (fun msg =>
       console_error (LogHandlerError msg) ;;;
       ret (errorResponse msg 500)).

End WithNumber.

Arguments Platform : clear implicits.
Arguments Env : clear implicits.

End Pipeline.

Export Pipeline.

(* ================================================================== *)
(** * Concrete platforms and requests used in the examples *)
(* ================================================================== *)

Module Scenario.

(** Identifiers [id-0], [id-1], ...; the digest stands for itself; a day
    is named by its number; every text is embedded as the empty vector;
    the vector index accepts everything. *)
Definition healthy : Platform Z :=
  mkPlatform
    (fun n => str "id-" ++ str (pretty n))
    (fun content => content)
    (fun t => str (pretty (t / 86400000)%Z))
    (fun _ texts => Some (List.map (fun _ => []) texts))
    (fun _ _ _ => Some (Some (str "answer")))
    (fun _ _ => true)
    (fun _ _ => true)
    (fun _ _ _ _ => Some []).


Definition t0 : Z := 1700000000000.

Definition empty_env : Env Z := mkEnv [] [] [] [] [] ∅ [] [] [] 0 t0 [].

Definition run {A} (m : M A) (e : Env Z) : Env Z := snd (m e).

Definition proj : jsstring := str "/home/u/proj".

Definition first_request : IndexRequest :=
  mkIndexRequest proj None false false
    [(str "a.ts", str "export const a = 1"); (str "b.ts", str "export const b = 2")].

Definition append_request : IndexRequest :=
  mkIndexRequest proj None false true
    [(str "b.ts", str "export const b = 3"); (str "c.ts", str "export const c = 4")].

(** The store after [first_request]. *)
Definition indexed_env : Env Z := run (handleIndex healthy first_request) empty_env.

(** The cache with the embedding counter of the day at [n]. *)
Definition env_with_count (n : Z) : Env Z :=
  set_KV {[ rateKey healthy "embedding" t0 := n ]} empty_env.

Definition five_texts : list jsstring :=
  List.map str ["a"; "b"; "c"; "d"; "e"]%string.

(** The project row of [indexed_env]. *)
Definition indexed_project : Project :=
  mkProject (str "id-0") (str "proj") proj Ready 2 (Some 1700000000%Z) 1700000000.

(** The answer to [append_request] on [indexed_env]. *)
Definition append_progress : IndexProgress :=
  mkProgress (str "id-0") Complete 1 1 1 None.


(** A Markdown file with two sections, and one that starts with an
    empty line. *)
Definition two_sections : jsstring :=
  str "# A" ++ NL :: str "x" ++ NL :: str "# B" ++ NL :: str "y".

Definition blank_then_section : jsstring := NL :: str "# A".

Definition doc_request (content : jsstring) : IndexRequest :=
  mkIndexRequest proj None false false [(str "doc.md", content)].

Definition doc_options : ChunkOptions :=
  mkOptions (str "id-1") (str "id-0") (str "doc.md").

Definition doc_env (content : jsstring) : Env Z :=
  run (handleIndex healthy (doc_request content)) empty_env.

(** A conversation of twelve messages [m1 .. m12], created one second
    after the other, and a vector index that answers every query with
    the first chunk of [indexed_env]. *)
Definition nth_message (k : nat) : @Message Z :=
  mkMessage (str "msg-" ++ str (pretty k)) (str "conv-1")
    (if Nat.even k then assistant else user) (str "m" ++ str (pretty k)) None
    (Z.of_nat k).

Definition twelve_messages : list (@Message Z) := List.map nth_message (seq 1 12).

Definition chat_env : Env Z :=
  set_conversations [mkConversation (str "conv-1") None (str "talk") 12 0]
    (set_messages twelve_messages indexed_env).

Definition one_match : Platform Z :=
  mkPlatform (randomUUID healthy) (SHA256_hex healthy) (isoDate healthy)
    (AI_embedding healthy) (AI_chat healthy) (VECTORIZE_upsert healthy)
    (VECTORIZE_deleteByIds healthy)
    (fun _ _ _ _ =>
       Some [mkMatch (str "id-2") 1%Z
               (mkMetadata (str "id-2") (str "id-0") (str "a.ts") code 1 1)]).

Definition chat_request : QueryRequest :=
  mkQueryRequest (str "what is a") None (Some (str "conv-1")) None.

Definition plain (k : nat) : Role * ChatContent :=
  (if Nat.even k then assistant else user, Plain (str "m" ++ str (pretty k))).

Definition options_of (path : string) : ChunkOptions :=
  mkOptions (str "F") (str "P") (str path).

(** A Markdown file that is one line of 2049 characters. *)
Definition long_line_md : jsstring := xs 2049.

(** Six lines of TypeScript with a function declared on line index 5. *)
Definition six_lines : list jsstring :=
  List.map str ["a"; "b"; "c"; "d"; "e"; "function f() {}"]%string.

(** A first line of 2048 characters followed by two short lines. *)
Definition long_first_line : jsstring := xs 2048 ++ NL :: str "a" ++ NL :: str "b".

End Scenario.

(* ================================================================== *)
(** * Properties of chunks *)
(* ================================================================== *)

Module Spec.

(** The content of [c] is the text of the lines [start_line .. end_line]
    of the file, a range that lies within the file and may be empty. *)
Definition covers (lines : list jsstring) (c : ChunkNoId) : Prop :=
  (1 <= start_line c)%Z /\
  (start_line c <= end_line c + 1)%Z /\
  (end_line c <= Z.of_nat (length lines))%Z /\
  content c = join NL (lines_of_range lines (start_line c) (end_line c)).

(** The same for a chunk cut out of the lines [lines] that start at line
    [off + 1] of a file; the range is not empty. *)
Definition covers_from (lines : list jsstring) (off : Z) (c : ChunkNoId) : Prop :=
  (off + 1 <= start_line c)%Z /\
  (start_line c <= end_line c)%Z /\
  (end_line c <= off + Z.of_nat (length lines))%Z /\
  content c = join NL (slice lines (Z.to_nat (start_line c - 1 - off))
                                   (Z.to_nat (end_line c - off))).

(** [covers] with a range that is not empty. *)
Definition spans (lines : list jsstring) (c : ChunkNoId) : Prop :=
  covers lines c /\ (start_line c <= end_line c)%Z.

(** Two ranges of lines with no line in common. *)
Definition disjoint_ranges (c d : ChunkNoId) : Prop :=
  (end_line c < start_line d)%Z \/ (end_line d < start_line c)%Z.

Definition no_overlap (cs : list ChunkNoId) : Prop :=
  forall i j c d, i <> j -> cs !! i = Some c -> cs !! j = Some d -> disjoint_ranges c d.

(** The chunks [cs], in this order, cut the lines [from .. n] into
    consecutive non-empty ranges. *)
Fixpoint tiles (from : Z) (cs : list ChunkNoId) (n : Z) : Prop :=
  match cs with
  | [] => from = (n + 1)%Z
  | c :: cs' =>
      start_line c = from /\ (start_line c <= end_line c)%Z /\
      tiles (end_line c + 1) cs' n
  end.


(** [R] relates every element of [l] to the next one. *)
Definition adjacent {A} (R : A -> A -> Prop) (l : list A) : Prop :=
  forall i a b, l !! i = Some a -> l !! (S i) = Some b -> R a b.



(** No line of the file matches a boundary pattern of its language. *)
Definition no_boundary_pattern (filePath : jsstring) (lines : list jsstring) : Prop :=
  Forall (fun raw => any_pattern (langPatterns filePath) (trim raw) = false) lines.

(** Line [k] of the file is a candidate boundary. *)
Definition candidate (filePath : jsstring) (lines : list jsstring) (k : nat) : Prop :=
  exists raw, lines !! k = Some raw /\
              any_pattern (langPatterns filePath) (trim raw) = true.

(** The boundary accepted last before line [k] is reached. *)
Definition previousBoundary (filePath : jsstring) (lines : list jsstring) (k : nat) : nat :=
  lastBoundary (detectCodeBoundaries (take k lines) filePath).

(** A candidate line is accepted exactly when it is line 0 or lies at
    least [gap] lines after the boundary accepted before it. *)
Definition accepts_from (gap : Z) (filePath : jsstring) (lines : list jsstring) : Prop :=
  forall k, candidate filePath lines k ->
    (k ∈ detectCodeBoundaries lines filePath <->
     k = 0 \/ (gap <= Z.of_nat k - Z.of_nat (previousBoundary filePath lines k))%Z).

(** The batches [arr.slice(0, size)], [arr.slice(size, 2 * size)], ... *)
Fixpoint batches_from {A} (size fuel i : nat) (arr : list A) : list (list A) :=
  if i <? length arr then
    match fuel with
    | 0 => []
    | S fuel' => slice arr i (i + size) :: batches_from size fuel' (i + size) arr
    end
  else [].

Definition batches {A} (size : nat) (arr : list A) : list (list A) :=
  batches_from size (length arr) 0 arr.

(** ** Loop invariants *)

(** Before iteration [i] of the windowing loops over [lines] (which start
    at line [off + 1] of the file): the window holds the lines from
    [chunkStartLine] to [i], and the chunks emitted so far are right. *)
Definition window (lines : list jsstring) (off : Z) (i : nat) (st : LineState) : Prop :=
  exists s, ls_chunkStartLine st = (off + Z.of_nat s)%Z /\ (s <= i) /\
            ls_currentChunk st = slice lines s i /\
            Forall (covers_from lines off) (ls_chunks st).


(** Before iteration [i] of the loop of [chunkMarkdown]. *)
Definition md_window (lines : list jsstring) (i : nat) (st : MdState) : Prop :=
  (md_currentChunkStart st <= i) /\
  md_currentChunkLines st = slice lines (md_currentChunkStart st) i /\
  Forall (covers lines) (md_chunks st).

(** Before iteration [i] of the loop of [detectCodeBoundaries]. *)
Definition detected (i : nat) (boundaries : list nat) : Prop :=
  head boundaries = Some 0 /\
  Forall (fun b => b = 0 \/ b < i) boundaries /\
  adjacent (fun a b => a + 6 <= b) boundaries.

End Spec.

Export Spec.

(* ================================================================== *)
(** * Properties of runs of the pipeline *)
(* ================================================================== *)

Module PipelineSpec.
Section WithPlatform.

Context {number : Type}.
Variable P : Platform number.

(** The value of the embedding counter of the day. *)
Definition embeddingCount (e : Env number) : Z :=
  default 0%Z (KV e !! rateKey P "embedding" (now e)).

(** What [upsertVectors] reports for the batches [bs] when the first of
    them is call number [k] to the vector index: [(inserted, errors)]. *)
Fixpoint upsert_counts (k : nat) (bs : list (list (@EmbeddingResult number))) : Z * Z :=
  match bs with
  | [] => (0%Z, 0%Z)
  | b :: bs' =>
      let r := upsert_counts (S k) bs' in
      if VECTORIZE_upsert P k b
      then ((Z.of_nat (length b) + fst r)%Z, snd r)
      else (fst r, (Z.of_nat (length b) + snd r)%Z)
  end.

(** The number of records in the upsert calls of a log that failed; [k]
    is the number of the first call of the log. *)
Fixpoint upsert_errors_from (k : nat) (calls : list (@VectorizeCall number)) : Z :=
  match calls with
  | [] => 0%Z
  | UpsertCall b :: calls' =>
      ((if VECTORIZE_upsert P k b then 0 else Z.of_nat (length b))
       + upsert_errors_from (S k) calls')%Z
  | _ :: calls' => upsert_errors_from (S k) calls'
  end.

Definition failed_upserts (e : Env number) : Z :=
  upsert_errors_from 0 (VECTORIZE_calls e).

End WithPlatform.

(** A log of calls to the vector index without upserts. *)
Definition no_upserts {number} (calls : list (@VectorizeCall number)) : Prop :=
  Forall (fun c => match c with UpsertCall _ => False | _ => True end) calls.

(** The number of embedding batches reported as failed on the console. *)
Definition embedding_errors (log : list LogEntry) : nat :=
  length (List.filter (fun l => match l with LogEmbeddingError _ _ => true | _ => false end)
            log).

(** The number of chunks in the batches that were embedded, where
    [flags] tells for every batch whether it was. *)
Fixpoint embedded_size {A} (flags : list bool) (bs : list (list A)) : Z :=
  match flags, bs with
  | ok :: flags', b :: bs' =>
      ((if ok then Z.of_nat (length b) else 0) + embedded_size flags' bs')%Z
  | _, _ => 0%Z
  end.

Definition count_failed (flags : list bool) : nat :=
  length (List.filter negb flags).

(** The environment [e'] differs from [e] at most in the cache, the
    log of inference calls and the console. *)
Definition embedding_frame {number} (e e' : Env number) : Prop :=
  e' = set_console (console e') (set_KV (KV e') (set_AI_calls (AI_calls e') e)).

(** The environment [e'] differs from [e] at most in the vector index,
    the log of its calls and the console. *)
Definition vectorize_frame {number} (e e' : Env number) : Prop :=
  e' = set_console (console e')
         (set_VECTORIZE (VECTORIZE e') (set_VECTORIZE_calls (VECTORIZE_calls e') e)).

End PipelineSpec.

Export PipelineSpec.

(* ================================================================== *)
(** * src/lib/utils.ts, continued: [truncate] *)
(* ================================================================== *)

Module UtilsMore.

(** [s.slice(0, end)] on a string, for an integer [end]: a negative
    [end] counts from the end of the string. *)
Definition slice_to (s : jsstring) (end_ : Z) : jsstring :=
  let len := Z.of_nat (length s) in
  let final := if (end_ <? 0)%Z then Z.max (len + end_) 0 else Z.min end_ len in
  take (Z.to_nat final) s.

(** [truncate] *)
Definition truncate (text : jsstring) (maxLength : Z) : jsstring :=
  if (Z.of_nat (length text) <=? maxLength)%Z then text
  else slice_to text (maxLength - 3) ++ str "...".

End UtilsMore.

Export UtilsMore.

(* ================================================================== *)
(** * Properties of chunks, continued *)
(* ================================================================== *)

Module ChunkSpec.

(** Line number [n] (1-based) lies in the range of a chunk of [cs]. *)
Definition covers_line (cs : list ChunkNoId) (n : Z) : Prop :=
  exists c, c ∈ cs /\ (start_line c <= n <= end_line c)%Z.

(** Every line of the file that is not blank lies in some chunk. *)
Definition keeps_nonblank (lines : list jsstring) (cs : list ChunkNoId) : Prop :=
  forall k line, lines !! k = Some line -> nonblank line = true ->
                 covers_line cs (Z.of_nat k + 1).

(** The chunk names the file and the project of [options] and has the
    type [ty]. *)
Definition stamped (options : ChunkOptions) (ty : FileType) (c : ChunkNoId) : Prop :=
  file_id c = fileId options /\ project_id c = projectId options /\ chunk_type c = ty.

(** No line of the chunk after its first line is a heading. *)
Definition one_section (lines : list jsstring) (c : ChunkNoId) : Prop :=
  forall k line, (start_line c <= Z.of_nat k < end_line c)%Z ->
                 lines !! k = Some line -> test headerPattern line = false.

(** Before iteration [i] of the windowing loops over [lines], which start
    at line [off + 1] of the file and are [n] in number: the window
    starts at index [s], and every line before [i] that is not blank is
    in a chunk or still in the window; [last] tells whether the loop
    emits on the last line whatever the size of the window. *)
Definition pending (lines : list jsstring) (off : Z) (last : bool) (i : nat)
  (st : LineState) : Prop :=
  exists s, ls_chunkStartLine st = (off + Z.of_nat s)%Z /\ s <= i /\
            ls_currentChunk st = slice lines s i /\
            forall k line, k < i -> lines !! k = Some line -> nonblank line = true ->
              covers_line (ls_chunks st) (off + Z.of_nat k + 1) \/
              (s <= k /\ (last = true -> i < length lines)).

(** Before iteration [i] of the loop of [chunkMarkdown]. *)
Definition md_pending (lines : list jsstring) (i : nat) (st : MdState) : Prop :=
  md_currentChunkStart st <= i /\
  md_currentChunkLines st = slice lines (md_currentChunkStart st) i /\
  (0 < i -> md_currentChunkStart st < i) /\
  (forall k line, k < md_currentChunkStart st -> lines !! k = Some line ->
                  nonblank line = true -> covers_line (md_chunks st) (Z.of_nat k + 1)) /\
  (forall k line, md_currentChunkStart st < k -> k < i -> lines !! k = Some line ->
                  test headerPattern line = false) /\
  Forall (one_section lines) (md_chunks st).

End ChunkSpec.

Export ChunkSpec.

(* ================================================================== *)
(** * The other handlers and the reports on the quotas *)
(* ================================================================== *)

Module Services.

(** A response whose body is [data], or an error with its status. *)
Inductive Reply (A : Type) : Type :=
| Ok (data : A)                                  (* jsonResponse(data) *)
| Err (status : Z) (message : string).           (* errorResponse(message, status) *)
Arguments Ok {A} data.
Arguments Err {A} status message.

(** [{ used, limit, remaining }] *)
Record RateLimit : Type := mkRateLimit {
  rl_used : Z;
  rl_limit : Z;
  rl_remaining : Z;
}.

(** The body of the answer of [handleIndexProgress]. *)
Record ProgressReport : Type := mkProgressReport {
  pr_project_id : jsstring;
  pr_status : ProjectStatus;
  pr_total_files : Z;
  pr_processed_files : Z;
  pr_total_chunks : Z;
  pr_last_indexed_at : option Z;
}.

Section WithNumber.

Context {number : Type}.
Variable P : Platform number.

Notation "x <- m ;; k" := (bind m (fun x => k))
  (at level 100, m at next level, right associativity).
Notation "m ;;; k" := (bind m (fun _ => k))
  (at level 100, right associativity).

(** ** src/lib/embeddings.ts, src/lib/llm.ts: the reports on the quotas *)

(** [getEmbeddingRateLimit] *)
Definition getEmbeddingRateLimit : @M number RateLimit :=
  rateLimitKey <- getRateLimitKey P "embedding" ;;
  stored <- gets (fun e => KV e !! rateLimitKey) ;;
  let used := default 0%Z stored in
  ret (mkRateLimit used DAILY_EMBEDDING_LIMIT (Z.max 0 (DAILY_EMBEDDING_LIMIT - used))).

(** [getLLMRateLimit] *)
Definition getLLMRateLimit : @M number RateLimit :=
  rateLimitKey <- getRateLimitKey P "query" ;;
  stored <- gets (fun e => KV e !! rateLimitKey) ;;
  let used := default 0%Z stored in
  ret (mkRateLimit used DAILY_LLM_LIMIT (Z.max 0 (DAILY_LLM_LIMIT - used))).

(** ** src/handlers/index.ts: [handleIndexProgress] *)

(** [SELECT * FROM projects WHERE id = ?], first row. *)
Definition projectById (e : Env number) (projectId : jsstring) : option Project :=
  List.find (fun p => JsString.eqb (p_id p) projectId) (DB_projects e).

(** [SELECT COUNT( * ) FROM files WHERE project_id = ?] *)
Definition countFiles (e : Env number) (projectId : jsstring) : Z :=
  Z.of_nat (length (filter (fun f => f_project_id f = projectId) (DB_files e))).

(** [SELECT COUNT( * ) FROM chunks WHERE project_id = ?] *)
Definition countChunks (e : Env number) (projectId : jsstring) : Z :=
  Z.of_nat (length (filter (fun c => project_id (chunk c) = projectId) (DB_chunks e))).

(** [handleIndexProgress] *)
Definition handleIndexProgress (projectId : jsstring) : @M number (Reply ProgressReport) :=
  project <- gets (fun e => projectById e projectId) ;;
  match project with
  | None => ret (Err 404 "Project not found")
  | Some p =>
      fileCount <- gets (fun e => countFiles e projectId) ;;
      chunkCount <- gets (fun e => countChunks e projectId) ;;
      ret (Ok (mkProgressReport projectId (p_status p) (p_file_count p)
                 fileCount chunkCount (p_last_indexed_at p)))
  end.

(** ** src/handlers/projects.ts: [handleDeleteProject] *)

(** The batch of [handleDeleteProject], statement by statement:
    [DELETE FROM chunks WHERE project_id = ?];
    [DELETE FROM files WHERE project_id = ?], which cascades to the
    chunks of the deleted files;
    [DELETE FROM conversations WHERE project_id = ?], which cascades to
    the messages of the deleted conversations;
    [DELETE FROM projects WHERE id = ?], which cascades to the files of
    the project and their chunks and sets the [project_id] of its
    conversations to [NULL]. *)
Definition DB_delete_chunks_of (projectId : jsstring) : @M number unit :=
  modify (fun e =>
    set_chunks (filter (fun c => project_id (chunk c) <> projectId) (DB_chunks e)) e).

Definition DB_delete_files_of (projectId : jsstring) : @M number unit :=
  modify (fun e =>
    let gone := List.map f_id (filter (fun f => f_project_id f = projectId) (DB_files e)) in
    set_chunks
      (filter (fun c => arr_includes gone (file_id (chunk c)) = false) (DB_chunks e))
      (set_files (filter (fun f => f_project_id f <> projectId) (DB_files e)) e)).

Definition DB_delete_conversations_of (projectId : jsstring) : @M number unit :=
  modify (fun e =>
    let gone := List.map c_id
                  (filter (fun c => c_project_id c = Some projectId) (DB_conversations e)) in
    set_messages
      (filter (fun m => arr_includes gone (m_conversation_id m) = false) (DB_messages e))
      (set_conversations
         (filter (fun c => c_project_id c <> Some projectId) (DB_conversations e)) e)).

Definition DB_delete_project (projectId : jsstring) : @M number unit :=
  modify (fun e =>
    set_projects (filter (fun p => p_id p <> projectId) (DB_projects e)) e) ;;;
  DB_delete_files_of projectId ;;;
  modify (fun e =>
    set_conversations
      (List.map (fun c =>
         if bool_decide (c_project_id c = Some projectId)
         then mkConversation (c_id c) None (c_title c) (c_message_count c) (c_created_at c)
         else c) (DB_conversations e)) e).

(** The body of the success answer of [handleDeleteProject]: its
    [project_id]. *)
Definition handleDeleteProject (projectId : jsstring) : @M number (Reply jsstring) :=
  project <- gets (fun e => projectById e projectId) ;;
  match project with
  | None => ret (Err 404 "Project not found")
  | Some _ =>
      deleteProjectVectors P projectId ;;;
      DB_delete_chunks_of projectId ;;;
      DB_delete_files_of projectId ;;;
      DB_delete_conversations_of projectId ;;;
      DB_delete_project projectId ;;;
      ret (Ok projectId)
  end.

End WithNumber.

End Services.

Export Services.

(* ================================================================== *)
(** * Properties of runs of the pipeline, continued *)
(* ================================================================== *)

Module RunSpec.

(** The words that exclude a path from indexing. *)
Definition excluded : list jsstring :=
  skipPatterns ++ List.map str ["package-lock.json"; "yarn.lock"; "pnpm-lock.yaml"]%string.

Section WithPlatform.

Context {number : Type}.
Variable P : Platform number.

(** The value of the counter of chat completions of the day. *)
Definition llmCount (e : Env number) : Z :=
  default 0%Z (KV e !! rateKey P "query" (now e)).

(** The messages that [generateRAGResponse] sends. *)
Definition ragMessages (query : jsstring) (context : list (@ContextItem))
  (history : list (Role * jsstring)) : list (Role * ChatContent) :=
  [(system, RagSystemPrompt)]
  ++ List.map (fun msg => (fst msg, Plain (snd msg))) (slice_last history 6)
  ++ [(user, Question context query)].

(** The rows that [handleIndex] builds for the files [todo] of the
    project: one file row for each file, in order, with the digest of its
    content and the number of its chunks, and for each file the rows of
    the chunks that [chunkFile] cuts from its content. *)
Inductive processed (projectId : jsstring) :
  list (jsstring * jsstring) -> list File -> list (list Chunk) -> Prop :=
| processed_nil : processed projectId [] [] []
| processed_cons path content todo f fs cs css :
    f_project_id f = projectId -> f_relative_path f = path ->
    f_content_hash f = SHA256_hex P content ->
    f_chunk_count f = Z.of_nat (length cs) ->
    List.map chunk cs = chunkFile content (mkOptions (f_id f) projectId path) ->
    processed projectId todo fs css ->
    processed projectId ((path, content) :: todo) (f :: fs) (cs :: css).

End WithPlatform.

(** The environment [e'] differs from [e] at most in the vector index,
    the cache, the logs of calls, the identifiers drawn and the
    console: the tables are the same. *)
Definition same_tables {number} (e e' : Env number) : Prop :=
  DB_projects e' = DB_projects e /\ DB_files e' = DB_files e /\
  DB_chunks e' = DB_chunks e /\ DB_conversations e' = DB_conversations e /\
  DB_messages e' = DB_messages e.


(** The conversation that a query names, if it names one, has a row,
    as the foreign key of the messages demands. *)
Definition conversation_known {number} (e : Env number)
  (conversation_id : option jsstring) : Prop :=
  match conversation_id with
  | Some ((_ :: _) as c) => c ∈ List.map c_id (DB_conversations e)
  | _ => True
  end.

(** The project that a query names, if it names one, has a row, as the
    foreign key of the conversations demands. *)
Definition project_known {number} (e : Env number) (project_id : option jsstring) : Prop :=
  match project_id with
  | Some ((_ :: _) as p) => p ∈ List.map p_id (DB_projects e)
  | _ => True
  end.

(** [UPDATE conversations SET message_count = message_count + 2
     WHERE id = ?] on one row. *)
Definition counted (conversationId : jsstring) (c : Conversation) : Conversation :=
  if JsString.eqb (c_id c) conversationId
  then mkConversation (c_id c) (c_project_id c) (c_title c)
         (c_message_count c + 2)%Z (c_created_at c)
  else c.

(** The tables after a project has been deleted: the row of the
    project, its file rows, the chunk rows that name the project or one
    of its files, its conversations and their messages are gone, and
    every other row is as it was. *)
Definition deleted (projectId : jsstring) {number} (e e' : Env number) : Prop :=
  let files_gone :=
    List.map f_id (filter (fun f => f_project_id f = projectId) (DB_files e)) in
  let conversations_gone :=
    List.map c_id (filter (fun c => c_project_id c = Some projectId) (DB_conversations e)) in
  DB_projects e' = filter (fun p => p_id p <> projectId) (DB_projects e) /\
  DB_files e' = filter (fun f => f_project_id f <> projectId) (DB_files e) /\
  DB_chunks e'
  = filter (fun c => arr_includes files_gone (file_id (chunk c)) = false)
      (filter (fun c => project_id (chunk c) <> projectId) (DB_chunks e)) /\
  DB_conversations e'
  = filter (fun c => c_project_id c <> Some projectId) (DB_conversations e) /\
  DB_messages e'
  = filter (fun m => arr_includes conversations_gone (m_conversation_id m) = false)
      (DB_messages e) /\
  KV e' = KV e /\ AI_calls e' = AI_calls e.

(** What [handleIndex] does to a project that exists before it indexes
    its files anew. *)
Definition cleared {number} (projectId : jsstring) (e : Env number) : Env number :=
  let gone := List.map f_id (filter (fun f => f_project_id f = projectId) (DB_files e)) in
  set_projects
    (List.map (fun p => if JsString.eqb (p_id p) projectId
                        then mkProject (p_id p) (p_name p) (p_path p) Indexing 0
                               (p_last_indexed_at p) (p_created_at p)
                        else p) (DB_projects e))
    (set_chunks
       (filter (fun c => arr_includes gone (file_id (chunk c)) = false)
          (filter (fun c => project_id (chunk c) <> projectId) (DB_chunks e)))
       (set_files (filter (fun f => f_project_id f <> projectId) (DB_files e)) e)).

(** The row of the project after it has been indexed anew with [n]
    files at time [t]. *)
Definition reindexed (st : ProjectStatus) (n t : Z) (q : Project) : Project :=
  mkProject (p_id q) (p_name q) (p_path q) st n (Some t) (p_created_at q).

End RunSpec.

Export RunSpec.

(* ================================================================== *)
(** * More requests for the examples *)
(* ================================================================== *)

Module Scenario2.

Import Scenario.

(** [first_request] again, with [force]. *)
Definition force_request : IndexRequest :=
  mkIndexRequest proj None true false
    [(str "a.ts", str "export const a = 5"); (str "notes.txt", str "hello")].

(** An append of a file that is already stored. *)
Definition append_known_request : IndexRequest :=
  mkIndexRequest proj None false true [(str "b.ts", str "export const b = 3")].

(** A request that names the same path twice. *)
Definition duplicate_request : IndexRequest :=
  mkIndexRequest proj None false false
    [(str "a.ts", str "export const a = 1"); (str "a.ts", str "export const a = 2")].

(** A query on a store in which nothing matches. *)
Definition lost_request : QueryRequest :=
  mkQueryRequest (str "where is it") None None None.

(** The store of [indexed_env] on a day on which the quota of chat
    completions is used up. *)
Definition spent_env : Env Z :=
  set_KV (<[rateKey healthy "query" t0 := DAILY_LLM_LIMIT]> (KV indexed_env)) indexed_env.

(** A first question, with no conversation to continue. *)
Definition new_chat_request : QueryRequest :=
  mkQueryRequest (str "what is a") None None None.

End Scenario2.

(* ================================================================== *)
(** * The patterns: [test] against the strings a pattern matches *)
(* ================================================================== *)

Module RegexFacts.

Lemma matches_Void s : ~ matches Void s.
Proof. inversion 1. Qed.

Lemma matches_Eps s : matches Eps s <-> s = [].
Proof. split; [by inversion 1|intros ->; constructor]. Qed.

Lemma matches_Seq r1 r2 s :
  matches (Seq r1 r2) s <-> exists s1 s2, s = s1 ++ s2 /\ matches r1 s1 /\ matches r2 s2.
Proof.
  split.
  - inversion 1; subst. by eexists _, _.
  - intros (s1 & s2 & -> & H1 & H2). by constructor.
Qed.

Lemma matches_Alt r1 r2 s : matches (Alt r1 r2) s <-> matches r1 s \/ matches r2 s.
Proof.
  split; [inversion 1; auto|intros [H|H]; [by apply m_alt_l|by apply m_alt_r]].
Qed.

(** A non-empty match of [r*] starts with a non-empty match of [r]. *)
Lemma matches_Star_cons r s :
  matches (Star r) s -> s <> [] ->
  exists a s1 s2, s = (a :: s1) ++ s2 /\ matches r (a :: s1) /\ matches (Star r) s2.
Proof.
  intros H. remember (Star r) as r' eqn:E.
  induction H as [| | | | | | | |r0 s1 s2 H1 _ H2 IH2]; try discriminate; [done|].
  injection E as ->. intros Hne. destruct s1 as [|a s1].
  - by apply IH2.
  - by exists a, s1, s2.
Qed.

Lemma nullable_spec r : nullable r = true <-> matches r [].
Proof.
  induction r as [| | | | |r1 IH1 r2 IH2|r1 IH1 r2 IH2|r IH]; simpl.
  - split; [done|intros H; by apply matches_Void in H].
  - by rewrite matches_Eps.
  - split; [done|inversion 1].
  - split; [done|inversion 1].
  - split; [done|inversion 1].
  - rewrite andb_true_iff, IH1, IH2, matches_Seq. split.
    + intros [H1 H2]. by exists [], [].
    + intros (s1 & s2 & Heq & H1 & H2). symmetry in Heq.
      apply app_eq_nil in Heq as [-> ->]. done.
  - by rewrite orb_true_iff, IH1, IH2, matches_Alt.
  - split; [intros _; constructor|done].
Qed.

Lemma seq'_spec r1 r2 s : matches (seq' r1 r2) s <-> matches (Seq r1 r2) s.
Proof.
  destruct r1; simpl; try done.
  - rewrite matches_Seq. split; [intros H; by apply matches_Void in H|].
    intros (s1 & s2 & _ & H & _). by apply matches_Void in H.
  - rewrite matches_Seq. split.
    + intros H. exists [], s. by rewrite matches_Eps.
    + intros (s1 & s2 & -> & H1 & H2). apply matches_Eps in H1 as ->. done.
Qed.

Lemma alt'_spec r1 r2 s : matches (alt' r1 r2) s <-> matches (Alt r1 r2) s.
Proof.
  rewrite matches_Alt.
  assert (Hl : matches r2 s <-> matches Void s \/ matches r2 s).
  { split; [by right|intros [H|H]; [by apply matches_Void in H|done]]. }
  assert (Hr : matches r1 s <-> matches r1 s \/ matches Void s).
  { split; [by left|intros [H|H]; [done|by apply matches_Void in H]]. }
  destruct r1; simpl; try exact Hl;
    destruct r2; simpl; try exact Hr; by rewrite matches_Alt.
Qed.

(** The derivative with respect to [c] matches what is left of the
    matches that start with [c]. *)
Lemma deriv_spec c r s : matches (deriv c r) s <-> matches r (c :: s).
Proof.
  revert s.
  induction r as [| |c'| | |r1 IH1 r2 IH2|r1 IH1 r2 IH2|r IH]; intros s; simpl.
  - split; intros H; by apply matches_Void in H.
  - split; [intros H; by apply matches_Void in H|inversion 1].
  - destruct (N.eqb_spec c c') as [->|Hne].
    + rewrite matches_Eps. split; [intros ->; constructor|by inversion 1].
    + split; [intros H; by apply matches_Void in H|inversion 1; by subst].
  - destruct (is_space c) eqn:Hc.
    + rewrite matches_Eps. split; [intros ->; by constructor|by inversion 1].
    + split; [intros H; by apply matches_Void in H|inversion 1; congruence].
  - destruct (is_word c) eqn:Hc.
    + rewrite matches_Eps. split; [intros ->; by constructor|by inversion 1].
    + split; [intros H; by apply matches_Void in H|inversion 1; congruence].
  - rewrite alt'_spec, matches_Alt, seq'_spec, !matches_Seq. split.
    + intros [(s1 & s2 & -> & H1 & H2)|H].
      * exists (c :: s1), s2. by rewrite <- IH1.
      * destruct (nullable r1) eqn:Hn; [|by apply matches_Void in H].
        exists [], (c :: s). by rewrite <- nullable_spec, <- IH2.
    + intros ([|c0 s1] & s2 & Heq & H1 & H2); simpl in Heq.
      * subst s2. right. apply nullable_spec in H1 as ->. by apply IH2.
      * injection Heq as <- ->. left. exists s1, s2. by rewrite IH1.
  - rewrite alt'_spec, !matches_Alt. by rewrite IH1, IH2.
  - rewrite seq'_spec, matches_Seq. split.
    + intros (s1 & s2 & -> & H1 & H2). apply IH in H1.
      by apply (m_star_app r (c :: s1) s2).
    + intros H. apply matches_Star_cons in H as (a & s1 & s2 & Heq & H1 & H2); [|done].
      injection Heq as <- ->. exists s1, s2. by rewrite IH.
Qed.

(** [test r s] holds exactly when [r] matches a prefix of [s]: the
    pattern is anchored at the start and may stop anywhere. *)
Lemma test_spec r s :
  test r s = true <-> exists p q, s = p ++ q /\ matches r p.
Proof.
  revert r. induction s as [|c s IH]; intros r; simpl.
  - rewrite orb_false_r, nullable_spec. split.
    + intros H. by exists [], [].
    + intros (p & q & Heq & H). symmetry in Heq.
      apply app_eq_nil in Heq as [-> _]. done.
  - rewrite orb_true_iff, nullable_spec, IH. split.
    + intros [H|(p & q & -> & H)].
      * by exists [], (c :: s).
      * exists (c :: p), q. split; [done|]. by apply deriv_spec.
    + intros ([|c' p] & q & Heq & H); [by left|].
      injection Heq as <- ->. right. exists p, q. split; [done|]. by apply deriv_spec.
Qed.

(** The patterns on a few lines. *)
Example headerPattern_lines :
  List.map (test headerPattern)
    (List.map str ["# A"; "## A"; "### A"; "#### A"; "#A"; " # A"; "#"; "A"]%string)
  = [true; true; true; false; false; false; false; false].
Proof. vm_compute. reflexivity. Qed.

Example ts_patterns_lines :
  List.map (any_pattern (langPatterns (str "src/x.ts")))
    (List.map str ["function f() {}"; "export async function f() {}";
                   "export default function f() {}"; "class A {"; "export class A {";
                   "const f = (x) => x"; "export const f = async (x) => x";
                   "const f = 1"; "functional()"; "let x = 1"; "// function f"]%string)
  = [true; true; false; true; true; true; true; false; false; false; false].
Proof. vm_compute. reflexivity. Qed.

Example other_patterns_lines :
  [ any_pattern (langPatterns (str "m.py")) (str "def f(x):");
    any_pattern (langPatterns (str "m.py")) (str "async def f(x):");
    any_pattern (langPatterns (str "m.py")) (str "class A:");
    any_pattern (langPatterns (str "m.py")) (str "x = 1");
    any_pattern (langPatterns (str "m.go")) (str "func (s *T) f() {");
    any_pattern (langPatterns (str "m.go")) (str "func f() {");
    any_pattern (langPatterns (str "m.go")) (str "type T struct {");
    any_pattern (langPatterns (str "m.go")) (str "type T interface {");
    any_pattern (langPatterns (str "m.rs")) (str "pub async fn f() {");
    any_pattern (langPatterns (str "m.rs")) (str "impl T {");
    any_pattern (langPatterns (str "m.rs")) (str "pub(crate) fn f() {");
    any_pattern (langPatterns (str "m.sql")) (str "function f() {}");
    any_pattern (langPatterns (str "Makefile")) (str "function f() {}") ]
  = [true; true; true; false; true; true; true; false; true; true; false; false; false].
Proof. vm_compute. reflexivity. Qed.

End RegexFacts.

(* ================================================================== *)
(** * Facts about strings, slices and loops *)
(* ================================================================== *)

Module JsStringFacts.

Lemma split_not_nil sep s : split sep s <> [].
Proof.
  destruct s as [|c s]; simpl; [discriminate|].
  destruct (N.eqb c sep); [discriminate|].
  destruct (split sep s); discriminate.
Qed.

Lemma join_cons sep l ls :
  ls <> [] -> join sep (l :: ls) = l ++ sep :: join sep ls.
Proof. destruct ls; [congruence|reflexivity]. Qed.

Lemma join_split sep s : join sep (split sep s) = s.
Proof.
  induction s as [|c s IH]; [reflexivity|].
  simpl. destruct (N.eqb_spec c sep) as [->|Hne].
  - rewrite join_cons by apply split_not_nil. simpl. by rewrite IH.
  - pose proof (split_not_nil sep s) as Hs.
    destruct (split sep s) as [|l ls]; [congruence|].
    destruct ls as [|l' ls].
    + simpl in *. by rewrite IH.
    + rewrite join_cons by discriminate.
      rewrite join_cons in IH by discriminate.
      rewrite <- app_comm_cons. by rewrite IH.
Qed.

Lemma join_app sep l1 l2 :
  l1 <> [] -> l2 <> [] ->
  join sep (l1 ++ l2) = join sep l1 ++ sep :: join sep l2.
Proof.
  intros H1 H2. induction l1 as [|x l1 IH]; [congruence|].
  destruct l1 as [|y l1].
  - simpl app. by rewrite join_cons.
  - change ((x :: y :: l1) ++ l2) with (x :: ((y :: l1) ++ l2)).
    rewrite join_cons by (destruct l1; discriminate).
    rewrite IH by discriminate.
    rewrite (join_cons sep x (y :: l1)) by discriminate.
    by rewrite <- app_assoc.
Qed.

Lemma join_nil_inv sep ls : ls <> [] -> join sep ls = [] -> ls = [[]].
Proof.
  destruct ls as [|l ls]; [congruence|]. intros _.
  destruct ls as [|l' ls].
  - simpl. by intros ->.
  - intros H. rewrite join_cons in H by discriminate. by destruct l.
Qed.

Lemma length_join_app sep l1 l2 :
  l1 <> [] -> l2 <> [] ->
  length (join sep (l1 ++ l2)) = length (join sep l1) + 1 + length (join sep l2).
Proof.
  intros. rewrite join_app by done. rewrite length_app. simpl. lia.
Qed.

(** *** Slices *)

Lemma length_slice {A} (l : list A) a b :
  length (slice l a b) = Nat.min (b - a) (length l - a).
Proof. unfold slice. by rewrite length_take, length_drop. Qed.

Lemma slice_full {A} (l : list A) : slice l 0 (length l) = l.
Proof. unfold slice. rewrite drop_0, Nat.sub_0_r. apply firstn_all. Qed.

Lemma slice_snoc {A} (l : list A) a i x :
  a <= i -> l !! i = Some x -> slice l a i ++ [x] = slice l a (S i).
Proof.
  intros Ha Hx. unfold slice.
  replace (S i - a) with (S (i - a)) by lia.
  assert (Hd : drop a l !! (i - a) = Some x).
  { rewrite lookup_drop. by replace (a + (i - a)) with i by lia. }
  symmetry. by apply take_S_r.
Qed.

Lemma slice_single {A} (l : list A) i x :
  l !! i = Some x -> slice l i (S i) = [x].
Proof.
  intros Hx. rewrite <- (slice_snoc l i i x) by done.
  unfold slice. by rewrite Nat.sub_diag, take_0.
Qed.

Lemma drop_slice {A} (l : list A) a b k :
  drop k (slice l a b) = slice l (a + k) b.
Proof.
  unfold slice. rewrite skipn_firstn_comm, drop_drop.
  by replace (b - a - k) with (b - (a + k)) by lia.
Qed.

Lemma take_slice {A} (l : list A) a b k :
  k <= b - a -> take k (slice l a b) = slice l a (a + k).
Proof.
  intros Hk. unfold slice. rewrite take_take.
  by replace (Nat.min k (b - a)) with (a + k - a) by lia.
Qed.

Lemma slice_app {A} (l : list A) a b c :
  a <= b -> b <= c -> slice l a b ++ slice l b c = slice l a c.
Proof.
  intros Hab Hbc. unfold slice.
  replace (c - a) with ((b - a) + (c - b)) by lia.
  rewrite <- (take_drop (b - a) (take (b - a + (c - b)) (drop a l))).
  rewrite take_take, Nat.min_l by lia.
  rewrite skipn_firstn_comm, drop_drop.
  by replace (b - a + (c - b) - (b - a)) with (c - b) by lia;
     replace (a + (b - a)) with b by lia.
Qed.

Lemma slice_slice {A} (l : list A) a b x y :
  y <= length (slice l a b) -> slice (slice l a b) x y = slice l (a + x) (a + y).
Proof.
  intros Hy. rewrite length_slice in Hy.
  unfold slice at 1. rewrite drop_slice.
  destruct (decide (x <= y)) as [Hxy|Hxy].
  - rewrite take_slice by lia.
    unfold slice. by replace (a + x + (y - x) - (a + x)) with (a + y - (a + x)) by lia.
  - unfold slice. replace (y - x) with 0 by lia.
    replace (a + y - (a + x)) with 0 by lia. by rewrite !take_0.
Qed.

Lemma slice_nil_ge {A} (l : list A) a b : b <= a -> slice l a b = [].
Proof. intros. unfold slice. replace (b - a) with 0 by lia. apply take_0. Qed.

(** *** Loops *)

Lemma for_each_app {A St} (body : nat -> A -> St -> St) i l1 l2 st :
  for_each body i (l1 ++ l2) st =
  for_each body (i + length l1) l2 (for_each body i l1 st).
Proof.
  revert i st. induction l1 as [|x l1 IH]; intros i st; simpl.
  - by rewrite Nat.add_0_r.
  - rewrite IH. by replace (S i + length l1) with (i + S (length l1)) by lia.
Qed.

(** A property that holds before the loop and is kept by every
    iteration holds after it. *)
Lemma for_each_inv {A St} (body : nat -> A -> St -> St) (arr : list A)
  (Inv : nat -> St -> Prop) :
  (forall i x st, arr !! i = Some x -> Inv i st -> Inv (S i) (body i x st)) ->
  forall st, Inv 0 st -> Inv (length arr) (for_each body 0 arr st).
Proof.
  intros Hstep.
  assert (H : forall rest done st, arr = done ++ rest -> Inv (length done) st ->
                Inv (length arr) (for_each body (length done) rest st)).
  { induction rest as [|x rest IH]; intros done st Harr Hinv.
    - rewrite app_nil_r in Harr. by subst.
    - simpl.
      replace (S (length done)) with (length (done ++ [x]))
        by (rewrite length_app; simpl; lia).
      apply IH.
      + by rewrite <- app_assoc.
      + rewrite length_app. simpl. rewrite Nat.add_1_r.
        apply Hstep; [|done].
        subst arr. rewrite lookup_app_r by lia.
        by rewrite Nat.sub_diag. }
  intros st Hinv. by apply (H arr [] st).
Qed.

End JsStringFacts.

Import JsStringFacts.

(* ================================================================== *)
(** * The chunker: what every chunk contains *)
(* ================================================================== *)

Module ChunkerFacts.

Lemma adjacent_snoc {A} (R : A -> A -> Prop) (l : list A) (x : A) :
  adjacent R l -> (forall a, last l = Some a -> R a x) -> adjacent R (l ++ [x]).
Proof.
  intros Hl Hx i a b Ha Hb.
  destruct (decide (S i < length l)) as [Hlt|Hge].
  - rewrite lookup_app_l in Ha by lia. rewrite lookup_app_l in Hb by lia. eauto.
  - assert (S i = length l) as Hi.
    { apply lookup_lt_Some in Hb. rewrite length_app in Hb. simpl in Hb. lia. }
    rewrite lookup_app_l in Ha by lia.
    rewrite lookup_app_r, Hi, Nat.sub_diag in Hb by lia.
    injection Hb as <-. apply Hx.
    rewrite last_lookup. by replace (Nat.pred (length l)) with i by lia.
Qed.


Lemma overlapStart_eq l : overlapStart l = length l - 3.
Proof. unfold overlapStart, OVERLAP_LINES. lia. Qed.

Lemma nonblank_not_nil s : nonblank s = true -> s <> [].
Proof. intros H ->. discriminate. Qed.

(** *** From a part of the file to the file *)

Lemma covers_from_0 lines c : covers_from lines 0 c -> covers lines c.
Proof.
  intros (H1 & H2 & H3 & H4). unfold covers, lines_of_range.
  repeat split; try lia.
  rewrite H4. do 2 f_equal; lia.
Qed.

Lemma covers_from_slice lines a b c :
  covers_from (slice lines a b) (Z.of_nat a) c -> covers lines c.
Proof.
  intros (H1 & H2 & H3 & H4). pose proof (length_slice lines a b) as Hlen.
  unfold covers, lines_of_range. repeat split; try lia.
  rewrite H4, slice_slice by lia. do 2 f_equal; lia.
Qed.

Lemma covers_window lines off s i fid pid ty :
  s <= i -> i < length lines ->
  covers_from lines off
    (mkChunk fid pid (join NL (slice lines s (S i)))
       (off + Z.of_nat s + 1)%Z (off + Z.of_nat i + 1)%Z ty).
Proof.
  intros Hs Hi. unfold covers_from. simpl. repeat split; try lia.
  do 2 f_equal; lia.
Qed.

(** *** The windowing loops *)

Lemma window_next lines off s i :
  s <= i -> i < length lines ->
  let cur := slice lines s (S i) in
  let cur' := slice_from cur (overlapStart cur) in
  cur' = slice lines (s + overlapStart cur) (S i) /\
  s + overlapStart cur <= S i /\
  (off + Z.of_nat i - Z.of_nat (length cur') + 1
   = off + Z.of_nat (s + overlapStart cur))%Z /\
  Z.of_nat (length cur') = Z.min 3 (Z.of_nat i - Z.of_nat s + 1).
Proof.
  intros Hs Hi cur cur'. subst cur'. unfold slice_from.
  assert (Hlen : length cur = S i - s) by (subst cur; rewrite length_slice; lia).
  rewrite overlapStart_eq, Hlen. subst cur. rewrite drop_slice.
  rewrite length_slice. repeat split; lia.
Qed.

Lemma chunkByLines_step_window lines options ty i x st :
  lines !! i = Some x -> window lines 0 i st ->
  window lines 0 (S i) (chunkByLines_step (length lines) options ty i x st).
Proof.
  intros Hx (s & Hs & Hsi & Hcur & Hall).
  pose proof (lookup_lt_Some _ _ _ Hx) as Hi.
  unfold chunkByLines_step. rewrite Hcur, (slice_snoc lines s i x) by done.
  destruct (window_next lines 0 s i Hsi Hi) as (Hcur' & Hle & Hstart & _).
  match goal with |- context [if ?b then _ else _] => destruct b end.
  - exists (s + overlapStart (slice lines s (S i))). simpl.
    split; [lia|]. split; [done|]. split; [done|].
    destruct (nonblank _); [|done].
    apply Forall_app. split; [done|]. apply Forall_singleton.
    rewrite Hs.
    replace (Z.of_nat i + 1)%Z with (0 + Z.of_nat i + 1)%Z by lia.
    by apply covers_window.
  - exists s. simpl. repeat split; try done. lia.
Qed.

Lemma splitLargeChunk_step_window lines off options i x st :
  lines !! i = Some x -> window lines off i st ->
  window lines off (S i) (splitLargeChunk_step off options i x st).
Proof.
  intros Hx (s & Hs & Hsi & Hcur & Hall).
  pose proof (lookup_lt_Some _ _ _ Hx) as Hi.
  unfold splitLargeChunk_step. rewrite Hcur, (slice_snoc lines s i x) by done.
  destruct (window_next lines off s i Hsi Hi) as (Hcur' & Hle & Hstart & _).
  match goal with |- context [if ?b then _ else _] => destruct b end.
  - exists (s + overlapStart (slice lines s (S i))). simpl.
    split; [lia|]. split; [done|]. split; [done|].
    apply Forall_app. split; [done|]. apply Forall_singleton.
    rewrite Hs. by apply covers_window.
  - exists s. simpl. repeat split; try done. lia.
Qed.

Lemma chunkByLines_covers lines options ty :
  Forall (covers_from lines 0) (chunkByLines lines options ty).
Proof.
  unfold chunkByLines.
  pose proof (for_each_inv (chunkByLines_step (length lines) options ty) lines
                (window lines 0)) as H.
  destruct (H (fun i x st => chunkByLines_step_window lines options ty i x st)
              (mkLineState [] [] 0%Z)) as (s & _ & _ & _ & Hall); [|done].
  exists 0. simpl. repeat split; try done; lia.
Qed.

Lemma splitLargeChunk_window lines off options :
  window lines off (length lines)
    (for_each (splitLargeChunk_step off options) 0 lines (mkLineState [] [] off)).
Proof.
  apply (for_each_inv (splitLargeChunk_step off options) lines (window lines off)).
  - intros i x st. apply splitLargeChunk_step_window.
  - exists 0. simpl. repeat split; try done; lia.
Qed.

Lemma splitLargeChunk_covers lines off options :
  Forall (covers_from lines off) (splitLargeChunk lines off options).
Proof.
  unfold splitLargeChunk.
  destruct (splitLargeChunk_window lines off options) as (s & Hs & Hsi & Hcur & Hall).
  set (st := for_each _ _ _ _) in *.
  destruct (_ && _) eqn:Hlast; [|done].
  apply Forall_app. split; [done|]. apply Forall_singleton.
  apply andb_prop in Hlast as [Hlen _]. apply Nat.ltb_lt in Hlen.
  rewrite Hcur, length_slice in Hlen.
  unfold covers_from. simpl. rewrite Hs, Hcur. repeat split; try lia.
  do 2 f_equal; lia.
Qed.


(** *** Consecutive chunks of [splitLargeChunk] *)



(** *** The loop of [chunkMarkdown] *)

Lemma chunkMarkdown_step_window lines options i x st :
  lines !! i = Some x -> md_window lines i st ->
  md_window lines (S i) (chunkMarkdown_step options i x st).
Proof.
  intros Hx (Hsi & Hcur & Hall).
  pose proof (lookup_lt_Some _ _ _ Hx) as Hi.
  unfold chunkMarkdown_step.
  destruct (test headerPattern x && _) eqn:Hhdr.
  - apply andb_prop in Hhdr as [_ Hlen]. apply Nat.ltb_lt in Hlen.
    rewrite Hcur, length_slice in Hlen.
    split; [simpl; lia|]. split; [simpl; by rewrite (slice_single lines i x)|].
    simpl. destruct (nonblank _); [|done].
    apply Forall_app. split; [done|]. apply Forall_singleton.
    unfold covers, lines_of_range. simpl. rewrite Hcur.
    repeat split; try lia. do 2 f_equal; lia.
  - rewrite Hcur, (slice_snoc lines _ i x) by done.
    set (cs := md_currentChunkStart st) in *.
    assert (Hlen : length (slice lines cs (S i)) = S i - cs)
      by (rewrite length_slice; lia).
    destruct (MAX_CHUNK_CHARS <? _).
    + rewrite Hlen. set (sp := (S i - cs) / 2).
      assert (Hsp : sp <= S i - cs) by (apply Nat.Div0.div_le_upper_bound; lia).
      split; [simpl; lia|]. split.
      * simpl. unfold slice_from. by rewrite drop_slice.
      * simpl. apply Forall_app. split; [done|]. apply Forall_singleton.
        unfold covers, lines_of_range. simpl.
        rewrite slice_slice by (rewrite Hlen; lia).
        repeat split; try lia. do 2 f_equal; lia.
    + split; [simpl; lia|]. by split.
Qed.

Lemma chunkMarkdown_covers content options :
  Forall (covers (split NL content)) (chunkMarkdown content options).
Proof.
  unfold chunkMarkdown. set (lines := split NL content).
  pose proof (for_each_inv (chunkMarkdown_step options) lines (md_window lines)) as H.
  destruct (H (fun i x st => chunkMarkdown_step_window lines options i x st)
              (mkMdState [] 0 [])) as (Hsi & Hcur & Hall).
  { split; [simpl; lia|]. by split. }
  set (st := for_each _ _ _ _) in *.
  destruct (0 <? length _) eqn:Hlen; [|done].
  destruct (nonblank _); [|done].
  apply Nat.ltb_lt in Hlen. rewrite Hcur, length_slice in Hlen.
  apply Forall_app. split; [done|]. apply Forall_singleton.
  unfold covers, lines_of_range. simpl. rewrite Hcur.
  repeat split; try lia. do 2 f_equal; lia.
Qed.

(** *** [detectCodeBoundaries] *)

Lemma detect_step_cases ps i raw bs :
  detect_step ps i raw bs = bs \/
  (any_pattern ps (trim raw) = true /\
   (5 < Z.of_nat i - Z.of_nat (lastBoundary bs))%Z /\
   detect_step ps i raw bs = bs ++ [i]).
Proof.
  unfold detect_step. destruct (any_pattern ps (trim raw)); [|by left].
  destruct (5 <? _)%Z eqn:H; [|by left].
  right. apply Z.ltb_lt in H. by repeat split.
Qed.

Lemma lastBoundary_last bs b : last bs = Some b -> lastBoundary bs = b.
Proof.
  unfold lastBoundary. induction bs as [|a bs IH]; [done|].
  destruct bs as [|a' bs]; simpl in *; [by intros [= ->]|]. apply IH.
Qed.

Lemma detect_step_detected ps i raw bs :
  detected i bs -> detected (S i) (detect_step ps i raw bs).
Proof.
  intros (Hhd & Hlt & Hadj).
  assert (Hweak : Forall (fun b => b = 0 \/ b < S i) bs).
  { eapply Forall_impl; [exact Hlt|]. simpl. lia. }
  destruct (detect_step_cases ps i raw bs) as [->|(_ & Hgap & ->)]; [done|].
  split; [by destruct bs|]. split.
  - apply Forall_app. split; [done|]. apply Forall_singleton. lia.
  - apply adjacent_snoc; [done|].
    intros a Ha. rewrite (lastBoundary_last _ _ Ha) in Hgap. lia.
Qed.

Lemma detectCodeBoundaries_detected lines filePath :
  detected (length lines) (detectCodeBoundaries lines filePath).
Proof.
  unfold detectCodeBoundaries.
  apply (for_each_inv (detect_step (langPatterns filePath)) lines detected).
  - intros i x st _. apply detect_step_detected.
  - split; [done|]. split; [apply Forall_singleton; by left|].
    intros [|i] a b Ha Hb; discriminate.
Qed.

Lemma detectCodeBoundaries_bounded lines filePath :
  Forall (fun b => b <= length lines) (detectCodeBoundaries lines filePath).
Proof.
  destruct (detectCodeBoundaries_detected lines filePath) as (_ & H & _).
  eapply Forall_impl; [exact H|]. simpl. lia.
Qed.

(** *** [chunkCode], [chunkConfig], [chunkFile] *)

Lemma spans_from_0 lines c : covers_from lines 0 c -> spans lines c.
Proof. intros H. split; [by apply covers_from_0|]. by destruct H as (_ & ? & _). Qed.

Lemma spans_from_slice lines a b c :
  covers_from (slice lines a b) (Z.of_nat a) c -> spans lines c.
Proof.
  intros H. split; [by eapply covers_from_slice|]. by destruct H as (_ & ? & _).
Qed.

Lemma chunkCode_step_spans lines options start next chunks :
  (forall e, next = Some e -> e <= length lines) ->
  Forall (spans lines) chunks ->
  Forall (spans lines) (chunkCode_step lines options start next chunks).
Proof.
  intros Hnext Hall. unfold chunkCode_step.
  set (end_ := match next with Some e => e | None => length lines end).
  assert (Hend : end_ <= length lines).
  { subst end_. destruct next; [by apply Hnext|done]. }
  destruct (MAX_CHUNK_CHARS <? _).
  - apply Forall_app. split; [done|].
    eapply Forall_impl; [apply splitLargeChunk_covers|].
    intros c. apply spans_from_slice.
  - destruct (nonblank _) eqn:Hnb; [|done].
    apply Forall_app. split; [done|]. apply Forall_singleton.
    apply nonblank_not_nil in Hnb.
    assert (Hne : slice lines start end_ <> []) by (intros Heq; by rewrite Heq in Hnb).
    assert (start < end_).
    { destruct (decide (start < end_)); [done|].
      rewrite slice_nil_ge in Hne by lia. done. }
    unfold spans, covers, lines_of_range. simpl. repeat split; try lia.
    do 2 f_equal; lia.
Qed.

Lemma chunkCode_spans content options :
  Forall (spans (split NL content)) (chunkCode content options).
Proof.
  unfold chunkCode. set (lines := split NL content).
  set (bs := detectCodeBoundaries lines (filePath options)).
  destruct (0 <? length bs).
  - pose proof (detectCodeBoundaries_bounded lines (filePath options)) as Hb.
    fold bs in Hb.
    pose proof (for_each_inv
                  (fun i start chunks =>
                     chunkCode_step lines options start (bs !! S i) chunks) bs
                  (fun _ chunks => Forall (spans lines) chunks)) as H.
    apply H; [|done].
    intros i x st _ Hst. apply chunkCode_step_spans; [|done].
    intros e He. rewrite Forall_forall in Hb. apply Hb.
    eapply list_elem_of_lookup_2. exact He.
  - eapply Forall_impl; [apply chunkByLines_covers|]. apply spans_from_0.
Qed.

Lemma chunkConfig_spans content options :
  Forall (spans (split NL content)) (chunkConfig content options).
Proof.
  unfold chunkConfig. destruct (_ <=? _).
  - apply Forall_singleton. unfold spans, covers, lines_of_range. simpl.
    pose proof (split_not_nil NL content) as Hne.
    assert (0 < length (split NL content)) by (destruct (split NL content); [done|simpl; lia]).
    repeat split; try lia.
    rewrite Nat2Z.id. change (Z.to_nat (1 - 1)) with 0.
    by rewrite slice_full, join_split.
  - eapply Forall_impl; [apply chunkByLines_covers|]. apply spans_from_0.
Qed.

(** Every chunk of [chunkFile] holds the text of the lines it names. *)
Lemma chunkFile_covers content options :
  Forall (covers (split NL content)) (chunkFile content options).
Proof.
  unfold chunkFile. destruct (getFileType _).
  - eapply Forall_impl; [apply chunkCode_spans|]. by intros c [].
  - apply chunkMarkdown_covers.
  - eapply Forall_impl; [apply chunkConfig_spans|]. by intros c [].
  - eapply Forall_impl; [apply chunkByLines_covers|]. apply covers_from_0.
Qed.

(** Outside Markdown the range of a chunk is never empty. *)
Lemma chunkFile_spans content options :
  getFileType (filePath options) <> markdown ->
  Forall (spans (split NL content)) (chunkFile content options).
Proof.
  unfold chunkFile. destruct (getFileType _); intros Hty.
  - apply chunkCode_spans.
  - done.
  - apply chunkConfig_spans.
  - eapply Forall_impl; [apply chunkByLines_covers|]. apply spans_from_0.
Qed.

(** *** Small files under [chunkByLines] *)

Opaque MAX_CHUNK_CHARS.

Lemma length_join_take_lt (ls : list jsstring) k :
  0 < k -> k < length ls ->
  length (join NL (take k ls)) < length (join NL ls).
Proof.
  intros H0 Hk. rewrite <- (take_drop k ls) at 2.
  rewrite length_join_app; [lia| |].
  - intros H. apply (f_equal length) in H. rewrite length_take in H. simpl in H. lia.
  - intros H. apply (f_equal length) in H. rewrite length_drop in H. simpl in H. lia.
Qed.

Lemma chunkByLines_small lines options ty :
  lines <> [] -> length (join NL lines) <= MAX_CHUNK_CHARS ->
  chunkByLines lines options ty =
  if nonblank (join NL lines)
  then [mkChunk (fileId options) (projectId options) (join NL lines) 1
          (Z.of_nat (length lines)) ty]
  else [].
Proof.
  intros Hne Hsmall. unfold chunkByLines.
  destruct (exists_last Hne) as (init & lastl & ->).
  rewrite for_each_app. simpl.
  assert (Hinit : for_each (chunkByLines_step (length (init ++ [lastl])) options ty)
                    0 init (mkLineState [] [] 0%Z) = mkLineState [] init 0%Z).
  { replace (mkLineState [] init 0%Z)
      with (mkLineState [] (take (length init) init) 0%Z) by (by rewrite firstn_all).
    apply (for_each_inv
             (chunkByLines_step (length (init ++ [lastl])) options ty) init
             (fun i st => st = mkLineState [] (take i init) 0%Z)); [|done].
    intros i x st Hx ->. pose proof (lookup_lt_Some _ _ _ Hx) as Hi.
    unfold chunkByLines_step. simpl.
    rewrite <- (take_S_r init i x) by done.
    assert (Hlt : length (join NL (take (S i) init))
                  < length (join NL (init ++ [lastl]))).
    { rewrite <- (take_app_le init [lastl]) by lia.
      apply length_join_take_lt; [lia|]. rewrite length_app. simpl. lia. }
    rewrite length_app. simpl.
    destruct (MAX_CHUNK_CHARS <=? _) eqn:Hc; [apply Nat.leb_le in Hc; lia|].
    destruct (Z.of_nat i =? _)%Z eqn:Hz; [apply Z.eqb_eq in Hz; lia|].
    done. }
  rewrite Hinit. unfold chunkByLines_step. simpl.
  rewrite length_app. simpl.
  assert (Hz : (Z.of_nat (length init) =? Z.of_nat (length init + 1) - 1)%Z = true)
    by (apply Z.eqb_eq; lia).
  rewrite Hz, orb_true_r. simpl.
  destruct (nonblank _); [|done].
  do 2 f_equal; lia.
Qed.

End ChunkerFacts.

(* ================================================================== *)
(** * The chunker: the stated properties *)
(* ================================================================== *)

Module ChunkerTheorems.

Import ChunkerFacts Scenario.

(** C1 (the code falls short of it). Claimed: every chunk emitted by
    [chunkFile] has [start_line <= end_line] and holds the text of these
    lines. For a Markdown file that consists of one line longer than
    [MAX_CHUNK_CHARS], the split at the midpoint emits its empty first
    half: a chunk with empty content, [start_line = 1] and
    [end_line = 0]. *)
Theorem chunkFile_markdown_long_line_empty_range :
  chunkFile long_line_md (options_of "README.md")
  = [ mkChunk (str "F") (str "P") [] 1 0 markdown;
      mkChunk (str "F") (str "P") long_line_md 1 1 markdown ].
Proof. vm_compute. reflexivity. Qed.

(** *** Boundaries *)

Lemma detect_suffix ps rest i bs :
  exists more, for_each (detect_step ps) i rest bs = bs ++ more /\
               Forall (fun b => i <= b) more.
Proof.
  revert i bs. induction rest as [|raw rest IH]; intros i bs; simpl.
  - exists []. by rewrite app_nil_r.
  - destruct (IH (S i) (detect_step ps i raw bs)) as (more & -> & Hmore).
    assert (Hweak : Forall (fun b => i <= b) more).
    { eapply Forall_impl; [exact Hmore|]. simpl. lia. }
    destruct (detect_step_cases ps i raw bs) as [->|(_ & _ & ->)].
    + by exists more.
    + exists (i :: more). rewrite <- app_assoc. split; [done|].
      by constructor.
Qed.

Lemma detect_accepts filePath lines : accepts_from 6 filePath lines.
Proof.
  intros k (raw & Hraw & Hcand).
  pose proof (lookup_lt_Some _ _ _ Hraw) as Hk.
  unfold previousBoundary.
  pose proof (detectCodeBoundaries_detected (take k lines) filePath) as (Hhd & Hlt & _).
  rewrite length_take, Nat.min_l in Hlt by lia.
  assert (Hrun : detectCodeBoundaries lines filePath
                 = for_each (detect_step (langPatterns filePath)) (S k)
                     (drop (S k) lines)
                     (detect_step (langPatterns filePath) k raw
                        (detectCodeBoundaries (take k lines) filePath))).
  { unfold detectCodeBoundaries at 1.
    rewrite <- (take_drop_middle lines k raw Hraw) at 1.
    rewrite for_each_app, length_take, Nat.min_l by lia. done. }
  rewrite Hrun. clear Hrun.
  set (bs := detectCodeBoundaries (take k lines) filePath) in *.
  destruct (detect_suffix (langPatterns filePath) (drop (S k) lines) (S k)
              (detect_step (langPatterns filePath) k raw bs)) as (more & -> & Hmore).
  assert (Hnot : k ∉ more).
  { intros Hin. rewrite Forall_forall in Hmore. specialize (Hmore k Hin). lia. }
  assert (Hbs : k ∈ bs <-> k = 0).
  { split.
    - intros Hin. rewrite Forall_forall in Hlt. specialize (Hlt k Hin). lia.
    - intros ->. destruct bs as [|b bs']; [done|].
      simpl in Hhd. injection Hhd as ->. apply list_elem_of_here. }
  unfold detect_step. rewrite Hcand.
  destruct (5 <? _)%Z eqn:Hgap.
  - apply Z.ltb_lt in Hgap. rewrite !elem_of_app, list_elem_of_singleton.
    split; [intros _; right; lia|tauto].
  - apply Z.ltb_ge in Hgap. rewrite elem_of_app, Hbs.
    split; [intros [?|?]; [by left|done]|intros [?|?]; [by left|lia]].
Qed.

(** C6 (as amended). Line 0 is always a boundary. A candidate line is
    accepted exactly when it lies more than 5 lines (at least 6) after
    the boundary accepted before it, so that consecutive accepted
    boundaries are at least 6 lines apart. *)
Theorem detectCodeBoundaries_gap filePath lines :
  head (detectCodeBoundaries lines filePath) = Some 0 /\
  adjacent (fun a b => a + 6 <= b) (detectCodeBoundaries lines filePath) /\
  accepts_from 6 filePath lines.
Proof.
  destruct (detectCodeBoundaries_detected lines filePath) as (Hhd & _ & Hadj).
  split; [done|]. split; [done|]. apply detect_accepts.
Qed.

(** C6 (as stated, refuted). In a TypeScript file whose line 5 declares
    a function, that line is a candidate exactly 5 lines after the
    boundary accepted before it (line 0), and it is not accepted. *)
Lemma detectCodeBoundaries_rejects_gap_5 :
  ~ accepts_from 5 (str "src/x.ts") six_lines.
Proof.
  intros H. specialize (H 5).
  assert (Hc : candidate (str "src/x.ts") six_lines 5).
  { exists (str "function f() {}"). split; vm_compute; reflexivity. }
  destruct (H Hc) as [_ Hin].
  assert (Hp : previousBoundary (str "src/x.ts") six_lines 5 = 0)
    by (vm_compute; reflexivity).
  rewrite Hp in Hin.
  assert (Hbs : detectCodeBoundaries six_lines (str "src/x.ts") = [0])
    by (vm_compute; reflexivity).
  rewrite Hbs in Hin.
  assert (Hmem : 5 ∈ [0]) by (apply Hin; right; lia).
  apply list_elem_of_singleton in Hmem. discriminate.
Qed.


(** *** Code files without boundaries *)

Lemma detect_no_pattern filePath lines :
  no_boundary_pattern filePath lines -> detectCodeBoundaries lines filePath = [0].
Proof.
  intros Hno. unfold detectCodeBoundaries.
  apply (for_each_inv (detect_step (langPatterns filePath)) lines
           (fun _ bs => bs = [0])); [|done].
  intros i x st Hx ->. unfold detect_step.
  by rewrite (Forall_lookup_1 _ _ _ _ Hno Hx).
Qed.





(** *** Chunks that tile the file *)

Lemma tiles_lower from cs n :
  tiles from cs n -> Forall (fun c => (from <= start_line c)%Z) cs.
Proof.
  revert from. induction cs as [|c cs IH]; intros from; [done|].
  intros (Hs & Hle & Hrest). constructor; [lia|].
  eapply Forall_impl; [apply (IH _ Hrest)|]. simpl. lia.
Qed.

Lemma tiles_order_by {A} (f : A -> ChunkNoId) (rows : list A) from n :
  tiles from (List.map f rows) n ->
  order_by (fun r => start_line (f r)) rows = rows.
Proof.
  revert from. induction rows as [|r rows IH]; intros from; [done|].
  intros (Hs & Hle & Hrest). simpl. rewrite (IH _ Hrest).
  destruct rows as [|r' rows]; [done|].
  apply tiles_lower in Hrest. inversion Hrest as [|? ? Hr' _]; subst.
  simpl. destruct (_ <=? _)%Z eqn:Hcmp; [done|].
  apply Z.leb_gt in Hcmp. lia.
Qed.

Lemma tiles_last from cs n c :
  tiles from cs n -> last cs = Some c -> end_line c = n.
Proof.
  revert from. induction cs as [|c0 cs IH]; intros from; [done|].
  intros (Hs & Hle & Hrest) Hlast. destruct cs as [|c1 cs].
  - simpl in *. injection Hlast as <-. lia.
  - by apply (IH _ Hrest).
Qed.

Lemma tiles_join lines cs from :
  Forall (covers lines) cs -> cs <> [] -> (1 <= from)%Z ->
  tiles from cs (Z.of_nat (length lines)) ->
  join NL (List.map content cs)
  = join NL (slice lines (Z.to_nat (from - 1)) (length lines)).
Proof.
  intros Hall. revert from.
  induction Hall as [|c cs Hc Hall IH]; intros from Hne Hfrom; [done|].
  intros (Hs & Hle & Hrest).
  destruct Hc as (H1 & _ & H3 & Hcontent). unfold lines_of_range in Hcontent.
  destruct cs as [|c' cs].
  - simpl in *. rewrite Hcontent. do 2 f_equal; lia.
  - assert (Hlt : (end_line c < Z.of_nat (length lines))%Z).
    { destruct Hrest as (Hs' & Hle' & _).
      inversion Hall as [|? ? (_ & _ & H3' & _) _]; subst. lia. }
    change (List.map content (c :: c' :: cs))
      with (content c :: List.map content (c' :: cs)).
    rewrite join_cons by done.
    rewrite (IH (end_line c + 1)%Z) by (done || lia).
    rewrite Hcontent, <- join_app.
    + rewrite Hs.
      replace (Z.to_nat (end_line c + 1 - 1)) with (Z.to_nat (end_line c)) by lia.
      rewrite slice_app by lia. done.
    + intros Heq. apply (f_equal length) in Heq.
      rewrite length_slice in Heq. simpl in Heq. lia.
    + intros Heq. apply (f_equal length) in Heq.
      rewrite length_slice in Heq. simpl in Heq. lia.
Qed.

End ChunkerTheorems.

(* ================================================================== *)
(** * The pipeline: embedding client and vector store manager *)
(* ================================================================== *)

Module PipelineFacts.
Section WithPlatform.

Context {number : Type}.
Variable P : Platform number.
Implicit Types e : Env number.

(** *** Sequencing *)

Lemma bind_inv {A B} (m : @M number A) (k : A -> @M number B) e b e2 :
  bind m k e = (Returned b, e2) ->
  exists a e1, m e = (Returned a, e1) /\ k a e1 = (Returned b, e2).
Proof.
  unfold bind. destruct (m e) as [[a|msg] e1]; [|discriminate]. eauto.
Qed.

Lemma bind_returned {A B} (m : @M number A) (k : A -> @M number B) e a e1 :
  m e = (Returned a, e1) -> bind m k e = k a e1.
Proof. unfold bind. by intros ->. Qed.

Lemma bind_thrown {A B} (m : @M number A) (k : A -> @M number B) e msg e1 :
  m e = (Thrown msg, e1) -> bind m k e = (Thrown msg, e1).
Proof. unfold bind. by intros ->. Qed.

(** *** Batches *)

Lemma batches_from_concat {A} (size fuel i : nat) (arr : list A) :
  0 < size -> length arr - i <= fuel ->
  concat (batches_from size fuel i arr) = drop i arr.
Proof.
  intros Hsize. revert i. induction fuel as [|fuel IH]; intros i Hfuel; simpl.
  - destruct (i <? length arr) eqn:Hi; [apply Nat.ltb_lt in Hi; lia|].
    apply Nat.ltb_ge in Hi. by rewrite drop_ge.
  - destruct (i <? length arr) eqn:Hi.
    + apply Nat.ltb_lt in Hi. simpl. rewrite IH by lia.
      unfold slice. replace (i + size - i) with size by lia.
      rewrite <- drop_drop. apply take_drop.
    + apply Nat.ltb_ge in Hi. by rewrite drop_ge.
Qed.

Lemma batches_concat {A} (size : nat) (arr : list A) :
  0 < size -> concat (batches size arr) = arr.
Proof. intros. unfold batches. rewrite batches_from_concat by lia. apply drop_0. Qed.

Lemma batches_from_bounded {A} (size fuel i : nat) (arr : list A) :
  Forall (fun b => length b <= size) (batches_from size fuel i arr).
Proof.
  revert i. induction fuel as [|fuel IH]; intros i; simpl;
    destruct (i <? length arr); try done.
  constructor; [|apply IH]. rewrite length_slice. lia.
Qed.

(** *** [generateEmbeddings] *)

Lemma generateEmbeddings_quota (texts : list jsstring) e :
  texts <> [] ->
  (DAILY_EMBEDDING_LIMIT < embeddingCount P e + Z.of_nat (length texts))%Z ->
  generateEmbeddings P texts e
  = (Thrown "Daily embedding limit reached (7000). Try again tomorrow.", e).
Proof.
  intros Hne Hq. unfold generateEmbeddings.
  destruct (length texts =? 0) eqn:Hlen.
  { apply Nat.eqb_eq in Hlen. by destruct texts. }
  cbv [bind getRateLimitKey gets ret throw]. unfold embeddingCount in Hq.
  destruct (_ <? _)%Z eqn:Hc; [done|]. apply Z.ltb_ge in Hc. lia.
Qed.


(** *** Frames *)

Ltac env_simpl :=
  unfold set_projects, set_files, set_chunks, set_conversations, set_messages, set_KV,
    set_VECTORIZE, set_AI_calls, set_VECTORIZE_calls, set_uuids, set_console in *;
  cbn [DB_projects DB_files DB_chunks DB_conversations DB_messages KV VECTORIZE
       AI_calls VECTORIZE_calls uuids now console] in *.

(** Closes a goal that equates two environments built from the same
    fields. *)
Ltac frame_solve :=
  unfold embedding_frame, vectorize_frame in *;
  repeat match goal with e : Env _ |- _ => destruct e end;
  env_simpl; congruence.

Lemma embedding_errors_app l1 l2 :
  embedding_errors (l1 ++ l2) = embedding_errors l1 + embedding_errors l2.
Proof. unfold embedding_errors. by rewrite List.filter_app, length_app. Qed.

Lemma vectorize_frame_refl e : vectorize_frame e e.
Proof. unfold vectorize_frame. by destruct e. Qed.

Lemma vectorize_frame_trans e e1 e2 :
  vectorize_frame e e1 -> vectorize_frame e1 e2 -> vectorize_frame e e2.
Proof.
  unfold vectorize_frame. intros H1 H2.
  etransitivity; [exact H2|]. rewrite H1 at 1.
  by destruct e.
Qed.

Lemma embedding_frame_refl e : embedding_frame e e.
Proof. unfold embedding_frame. by destruct e. Qed.

Lemma embedding_frame_trans e e1 e2 :
  embedding_frame e e1 -> embedding_frame e1 e2 -> embedding_frame e e2.
Proof.
  unfold embedding_frame. intros H1 H2.
  etransitivity; [exact H2|]. rewrite H1 at 1.
  by destruct e.
Qed.

(** *** [upsertVectors] *)

Lemma upsertVectors_step_spec i (b : list EmbeddingResult) ins errs e :
  exists e',
    upsertVectors_step P i b (ins, errs) e
    = (Returned (if VECTORIZE_upsert P (length (VECTORIZE_calls e)) b
                 then ((ins + Z.of_nat (length b))%Z, errs)
                 else (ins, (errs + Z.of_nat (length b))%Z)), e') /\
    VECTORIZE_calls e' = VECTORIZE_calls e ++ [UpsertCall b] /\
    vectorize_frame e e' /\
    embedding_errors (console e') = embedding_errors (console e).
Proof.
  cbv [upsertVectors_step try_catch bind VECTORIZE_do_upsert gets modify ret throw
       console_error].
  destruct (VECTORIZE_upsert P _ b); eexists; (split; [reflexivity|]);
    (split; [reflexivity|]); (split; [unfold vectorize_frame; by destruct e|]).
  - done.
  - cbn [console set_console]. rewrite embedding_errors_app.
    cbn [console set_VECTORIZE_calls]. unfold embedding_errors at 2. simpl. lia.
Qed.

Lemma upsert_loop fuel i (arr : list EmbeddingResult) ins errs e :
  exists e',
    for_batches BATCH_SIZE (upsertVectors_step P) fuel i arr (ins, errs) e
    = (Returned
         ((ins + fst (upsert_counts P (length (VECTORIZE_calls e))
                        (batches_from BATCH_SIZE fuel i arr)))%Z,
          (errs + snd (upsert_counts P (length (VECTORIZE_calls e))
                         (batches_from BATCH_SIZE fuel i arr)))%Z), e') /\
    VECTORIZE_calls e'
    = VECTORIZE_calls e ++ List.map UpsertCall (batches_from BATCH_SIZE fuel i arr) /\
    vectorize_frame e e' /\
    embedding_errors (console e') = embedding_errors (console e).
Proof.
  revert i ins errs e. induction fuel as [|fuel IH]; intros i ins errs e.
  - exists e. simpl. destruct (i <? length arr); simpl;
      rewrite !Z.add_0_r, app_nil_r; (split; [done|]); (split; [done|]);
      (split; [apply vectorize_frame_refl|done]).
  - simpl. destruct (i <? length arr).
    + destruct (upsertVectors_step_spec i (slice arr i (i + BATCH_SIZE)) ins errs e)
        as (e1 & Hstep & Hcalls & Hframe & Hlog).
      rewrite (bind_returned _ _ _ _ _ Hstep).
      assert (Hlen : length (VECTORIZE_calls e1) = S (length (VECTORIZE_calls e))).
      { rewrite Hcalls, length_app. simpl. lia. }
      cbn [upsert_counts List.map].
      destruct (VECTORIZE_upsert P _ _);
        [destruct (IH (i + BATCH_SIZE) (ins + Z.of_nat (length (slice arr i (i + BATCH_SIZE))))%Z
                     errs e1) as (e' & Hrun & Hcalls' & Hframe' & Hlog')
        |destruct (IH (i + BATCH_SIZE) ins
                     (errs + Z.of_nat (length (slice arr i (i + BATCH_SIZE))))%Z e1)
           as (e' & Hrun & Hcalls' & Hframe' & Hlog')];
        exists e'; rewrite Hrun, Hlen; cbn [fst snd];
        (split; [by rewrite <- !Z.add_assoc|]);
        (split; [rewrite Hcalls', Hcalls, <- app_assoc; done|]);
        (split; [by eapply vectorize_frame_trans|lia]).
    + exists e. simpl. rewrite !Z.add_0_r, app_nil_r.
      split; [done|]. split; [done|]. split; [apply vectorize_frame_refl|done].
Qed.

Lemma upsert_counts_total k (bs : list (list EmbeddingResult)) :
  (fst (upsert_counts P k bs) + snd (upsert_counts P k bs)
   = Z.of_nat (length (concat bs)))%Z.
Proof.
  revert k. induction bs as [|b bs IH]; intros k; [done|].
  cbn [upsert_counts concat]. rewrite length_app.
  specialize (IH (S k)). destruct (VECTORIZE_upsert P k b); cbn [fst snd]; lia.
Qed.

Lemma upsert_counts_errors k (bs : list (list EmbeddingResult)) :
  snd (upsert_counts P k bs) = upsert_errors_from P k (List.map UpsertCall bs).
Proof.
  revert k. induction bs as [|b bs IH]; intros k; [done|].
  cbn [upsert_counts List.map upsert_errors_from]. specialize (IH (S k)).
  destruct (VECTORIZE_upsert P k b); cbn [snd]; lia.
Qed.

Lemma upsertVectors_spec (vectors : list EmbeddingResult) e :
  exists e',
    upsertVectors P vectors e
    = (Returned (upsert_counts P (length (VECTORIZE_calls e))
                   (batches BATCH_SIZE vectors)), e') /\
    VECTORIZE_calls e'
    = VECTORIZE_calls e ++ List.map UpsertCall (batches BATCH_SIZE vectors) /\
    vectorize_frame e e' /\
    embedding_errors (console e') = embedding_errors (console e).
Proof.
  unfold upsertVectors, batches.
  destruct (upsert_loop (length vectors) 0 vectors 0 0 e) as (e' & Hrun & H).
  exists e'. split; [|done]. rewrite Hrun. by destruct (upsert_counts _ _ _).
Qed.


(** *** Identifiers, chunk rows, file rows *)

Lemma generateId_spec e :
  generateId P e = (Returned (randomUUID P (uuids e)), set_uuids (S (uuids e)) e).
Proof. reflexivity. Qed.

Lemma set_uuids_set_uuids n m e : set_uuids n (set_uuids m e) = set_uuids n e.
Proof. reflexivity. Qed.

Lemma assignChunkIds_spec (cs : list ChunkNoId) e :
  exists n rows,
    assignChunkIds P cs e = (Returned rows, set_uuids n e) /\
    List.map chunk rows = cs.
Proof.
  revert e. induction cs as [|c cs IH]; intros e.
  - exists (uuids e), []. split; [|done]. cbv [assignChunkIds ret]. by destruct e.
  - cbn [assignChunkIds]. rewrite (bind_returned _ _ _ _ _ (generateId_spec e)).
    destruct (IH (set_uuids (S (uuids e)) e)) as (n & rows & Hrun & Hrows).
    rewrite (bind_returned _ _ _ _ _ Hrun).
    exists n, (mkChunkRow (randomUUID P (uuids e)) c :: rows).
    split; [done|]. simpl. by rewrite Hrows.
Qed.

Lemma processFiles_spec projectId (todo : list (jsstring * jsstring)) a0 f0 p0 e :
  exists n allChunks fileRecords,
    processFiles P projectId todo (a0, f0, p0) e
    = (Returned (a0 ++ allChunks, f0 ++ fileRecords, (p0 + Z.of_nat (length todo))%Z),
       set_uuids n e) /\
    List.map f_relative_path fileRecords = List.map fst todo /\
    List.map f_content_hash fileRecords = List.map (fun f => SHA256_hex P (snd f)) todo /\
    Forall (fun f => f_project_id f = projectId) fileRecords.
Proof.
  revert a0 f0 p0 e. induction todo as [|[path content] todo IH]; intros a0 f0 p0 e.
  - exists (uuids e), [], []. rewrite !app_nil_r, Z.add_0_r.
    split; [|done]. cbv [processFiles ret]. by destruct e.
  - cbn [processFiles]. rewrite (bind_returned _ _ _ _ _ (generateId_spec e)).
    destruct (assignChunkIds_spec
                (chunkFile content (mkOptions (randomUUID P (uuids e)) projectId path))
                (set_uuids (S (uuids e)) e)) as (n1 & rows & Hrun & _).
    rewrite (bind_returned _ _ _ _ _ Hrun).
    unfold unixNow at 1. cbv [bind gets ret].
    match goal with |- context [processFiles P projectId todo (?a, ?f, ?p) ?e1] =>
      destruct (IH a f p e1) as (n & allChunks & fileRecords & Hrest & Hp & Hh & Hproj)
    end.
    rewrite Hrest. eexists n, (rows ++ allChunks), (_ :: fileRecords).
    split; [|split; [|split]].
    + rewrite <- !app_assoc. simpl. do 3 f_equal. lia.
    + simpl. by rewrite Hp.
    + simpl. by rewrite Hh.
    + by constructor.
Qed.

(** *** Inserting rows *)

Lemma insert_files_app rows table table' :
  insert_files rows table = Some table' -> table' = table ++ rows.
Proof.
  revert table. induction rows as [|f rows IH]; intros table; simpl.
  - intros [= <-]. by rewrite app_nil_r.
  - destruct (file_conflict f table); [done|]. intros H.
    rewrite (IH _ H), <- app_assoc. done.
Qed.

Lemma insert_chunks_app rows table table' :
  insert_chunks rows table = Some table' -> table' = table ++ rows.
Proof.
  revert table. induction rows as [|c rows IH]; intros table; simpl.
  - intros [= <-]. by rewrite app_nil_r.
  - destruct (chunk_conflict c table); [done|]. intros H.
    rewrite (IH _ H), <- app_assoc. done.
Qed.

Lemma insert_files_loop fuel i (rows : list File) e u e' :
  for_batches 100 DB_insert_files fuel i rows tt e = (Returned u, e') ->
  e' = set_files (DB_files e ++ concat (batches_from 100 fuel i rows)) e.
Proof.
  revert i e. induction fuel as [|fuel IH]; intros i e; simpl.
  - destruct (i <? length rows); intros [= _ <-];
      rewrite app_nil_r; by destruct e.
  - destruct (i <? length rows).
    + intros H. apply bind_inv in H as (a & e1 & Hstep & H).
      unfold DB_insert_files in Hstep. cbv [bind gets] in Hstep.
      destruct (insert_files _ _) as [table'|] eqn:Hins; [|done].
      injection Hstep as _ <-. apply insert_files_app in Hins. subst table'.
      destruct a. rewrite (IH _ _ H). simpl. rewrite <- app_assoc. by destruct e.
    + intros [= _ <-]. rewrite app_nil_r. by destruct e.
Qed.

Lemma insert_chunks_loop fuel i (rows : list Chunk) e u e' :
  for_batches 100 DB_insert_chunks fuel i rows tt e = (Returned u, e') ->
  e' = set_chunks (DB_chunks e ++ concat (batches_from 100 fuel i rows)) e.
Proof.
  revert i e. induction fuel as [|fuel IH]; intros i e; simpl.
  - destruct (i <? length rows); intros [= _ <-];
      rewrite app_nil_r; by destruct e.
  - destruct (i <? length rows).
    + intros H. apply bind_inv in H as (a & e1 & Hstep & H).
      unfold DB_insert_chunks in Hstep. cbv [bind gets] in Hstep.
      destruct (insert_chunks _ _) as [table'|] eqn:Hins; [|done].
      injection Hstep as _ <-. apply insert_chunks_app in Hins. subst table'.
      destruct a. rewrite (IH _ _ H). simpl. rewrite <- app_assoc. by destruct e.
    + intros [= _ <-]. rewrite app_nil_r. by destruct e.
Qed.


(** *** The embedding loop of [handleIndex] *)

Lemma generateEmbeddings_cases (texts : list jsstring) e :
  exists e',
    embedding_frame e e' /\ console e' = console e /\
    ((exists data, generateEmbeddings P texts e = (Returned data, e')) \/
     (exists msg, generateEmbeddings P texts e = (Thrown msg, e'))).
Proof.
  cbv [generateEmbeddings bind getRateLimitKey gets ret throw modify AI_run_embedding].
  destruct (length texts =? 0); [|destruct (_ <? _)%Z; [|destruct (AI_embedding P _ texts)]];
    eexists; (split; [|split; [|(left; eexists; reflexivity) || (right; eexists; reflexivity)]]);
    try (unfold embedding_frame; by destruct e); reflexivity.
Qed.

Lemma length_for_each_push {A B} (f : nat -> A -> B) i (batch : list A) (acc : list B) :
  length (for_each (fun j c acc => acc ++ [f j c]) i batch acc)
  = length acc + length batch.
Proof.
  revert i acc. induction batch as [|c batch IH]; intros i acc; simpl; [lia|].
  rewrite IH, length_app. simpl. lia.
Qed.

Lemma embedBatch_spec projectId fileRecords i (batch : list Chunk)
  (vectorResults : list EmbeddingResult) e :
  exists (ok : bool) vectorResults' e',
    embedBatch P projectId fileRecords i batch vectorResults e
    = (Returned vectorResults', e') /\
    embedding_frame e e' /\
    Z.of_nat (length vectorResults')
    = (Z.of_nat (length vectorResults) + if ok then Z.of_nat (length batch) else 0)%Z /\
    embedding_errors (console e')
    = embedding_errors (console e) + if ok then 0 else 1.
Proof.
  unfold embedBatch, try_catch.
  destruct (generateEmbeddings_cases (List.map (fun c => content (chunk c)) batch) e)
    as (e1 & Hframe & Hconsole & [(data & Hrun)|(msg & Hrun)]).
  - rewrite (bind_returned _ _ _ _ _ Hrun). cbv [ret].
    exists true. eexists _, e1. split; [reflexivity|]. split; [done|].
    rewrite length_for_each_push, Hconsole. lia.
  - rewrite (bind_thrown _ _ _ _ _ Hrun). cbv [console_error modify bind ret].
    exists false. eexists _, _. split; [reflexivity|]. split.
    + clear Hrun. frame_solve.
    + cbn [console set_console]. rewrite embedding_errors_app, Hconsole.
      split; [lia|]. unfold embedding_errors at 2. simpl. lia.
Qed.

Lemma embed_loop projectId fileRecords fuel i (arr : list Chunk)
  (vectorResults : list EmbeddingResult) e :
  exists flags vectorResults' e',
    for_batches EMBEDDING_BATCH_SIZE (embedBatch P projectId fileRecords) fuel i arr
      vectorResults e = (Returned vectorResults', e') /\
    embedding_frame e e' /\
    length flags = length (batches_from EMBEDDING_BATCH_SIZE fuel i arr) /\
    Z.of_nat (length vectorResults')
    = (Z.of_nat (length vectorResults)
       + embedded_size flags (batches_from EMBEDDING_BATCH_SIZE fuel i arr))%Z /\
    embedding_errors (console e') = embedding_errors (console e) + count_failed flags.
Proof.
  revert i vectorResults e. induction fuel as [|fuel IH]; intros i vr e.
  - exists [], vr, e. simpl. destruct (i <? length arr); simpl;
      (split; [done|]); (split; [apply embedding_frame_refl|]);
      (split; [done|]); (split; [lia|unfold count_failed; simpl; lia]).
  - simpl. destruct (i <? length arr).
    + destruct (embedBatch_spec projectId fileRecords i
                  (slice arr i (i + EMBEDDING_BATCH_SIZE)) vr e)
        as (ok & vr1 & e1 & Hstep & Hframe & Hlen & Hlog).
      rewrite (bind_returned _ _ _ _ _ Hstep).
      destruct (IH (i + EMBEDDING_BATCH_SIZE) vr1 e1)
        as (flags & vr' & e' & Hrun & Hframe' & Hflags & Hlen' & Hlog').
      exists (ok :: flags), vr', e'. split; [done|].
      split; [by eapply embedding_frame_trans|].
      split; [simpl; by rewrite Hflags|].
      split; [cbn [embedded_size]; lia|].
      unfold count_failed in *. simpl. destruct ok; simpl in *; lia.
    + exists [], vr, e. simpl. split; [done|]. split; [apply embedding_frame_refl|].
      split; [done|]. split; [lia|unfold count_failed; simpl; lia].
Qed.

(** *** Updating and clearing a project *)

Lemma update_ids projectId (f : Project -> Project) (table : list Project) :
  (forall p, p_id (f p) = p_id p) ->
  List.map p_id
    (List.map (fun p => if JsString.eqb (p_id p) projectId then f p else p) table)
  = List.map p_id table.
Proof.
  intros Hf. rewrite List.map_map. apply List.map_ext. intros p.
  destruct (JsString.eqb _ _); [apply Hf|done].
Qed.

Lemma update_status projectId (f : Project -> Project) st (table : list Project) :
  (forall p, p_id (f p) = p_id p) -> (forall p, p_status (f p) = st) ->
  Forall (fun p => p_id p = projectId -> p_status p = st)
    (List.map (fun p => if JsString.eqb (p_id p) projectId then f p else p) table).
Proof.
  intros Hid Hst. apply List.Forall_map, Forall_forall. intros p _.
  unfold JsString.eqb. case_bool_decide as Hp; [intros _; apply Hst|done].
Qed.

Lemma upsert_errors_from_app k (l1 l2 : list (@VectorizeCall number)) :
  upsert_errors_from P k (l1 ++ l2)
  = (upsert_errors_from P k l1 + upsert_errors_from P (k + length l1) l2)%Z.
Proof.
  revert k. induction l1 as [|c l1 IH]; intros k.
  - simpl. by rewrite Nat.add_0_r.
  - simpl. replace (k + S (length l1)) with (S k + length l1) by lia.
    destruct c; rewrite IH; lia.
Qed.


Lemma delete_loop fuel i (ids : list jsstring) e :
  exists e' dels,
    for_batches 100 (deleteProjectVectors_step P) fuel i ids tt e = (Returned tt, e') /\
    vectorize_frame e e' /\
    VECTORIZE_calls e' = VECTORIZE_calls e ++ dels /\ no_upserts dels /\
    embedding_errors (console e') = embedding_errors (console e).
Proof.
  revert i e. induction fuel as [|fuel IH]; intros i e; simpl.
  - exists e, []. rewrite app_nil_r.
    destruct (i <? length ids); (split; [done|]); (split; [apply vectorize_frame_refl|]);
      (split; [done|]); (split; [constructor|done]).
  - destruct (i <? length ids).
    + assert (Hstep : exists e1,
                deleteProjectVectors_step P i (slice ids i (i + 100)) tt e
                = (Returned tt, e1) /\
                vectorize_frame e e1 /\
                VECTORIZE_calls e1
                = VECTORIZE_calls e ++ [DeleteCall (slice ids i (i + 100))] /\
                embedding_errors (console e1) = embedding_errors (console e)).
      { cbv [deleteProjectVectors_step try_catch bind VECTORIZE_do_deleteByIds gets
             modify ret throw console_error].
        destruct (VECTORIZE_deleteByIds P _ _); eexists;
          (split; [reflexivity|]); (split; [unfold vectorize_frame; by destruct e|]);
          (split; [reflexivity|]); [done|].
        cbn [console set_console]. rewrite embedding_errors_app.
        cbn [console set_VECTORIZE_calls]. unfold embedding_errors at 2. simpl. lia. }
      destruct Hstep as (e1 & Hstep & Hframe & Hcalls & Hlog).
      rewrite (bind_returned _ _ _ _ _ Hstep).
      destruct (IH (i + 100) e1) as (e' & dels & Hrun & Hframe' & Hcalls' & Hdels & Hlog').
      exists e', (DeleteCall (slice ids i (i + 100)) :: dels).
      split; [done|]. split; [by eapply vectorize_frame_trans|].
      split; [rewrite Hcalls', Hcalls, <- app_assoc; done|].
      split; [by constructor|lia].
    + exists e, []. rewrite app_nil_r. split; [done|].
      split; [apply vectorize_frame_refl|]. split; [done|]. split; [constructor|done].
Qed.

Lemma deleteProjectVectors_spec projectId e :
  exists e' dels,
    deleteProjectVectors P projectId e = (Returned tt, e') /\
    vectorize_frame e e' /\
    VECTORIZE_calls e' = VECTORIZE_calls e ++ dels /\ no_upserts dels /\
    embedding_errors (console e') = embedding_errors (console e).
Proof.
  unfold deleteProjectVectors. cbv [bind gets].
  destruct (length _ =? 0).
  - exists e, []. rewrite app_nil_r. split; [done|].
    split; [apply vectorize_frame_refl|]. split; [done|]. split; [constructor|done].
  - apply delete_loop.
Qed.


(** *** [handleIndex] from the filter on *)

Lemma embedding_frame_fields e e' :
  embedding_frame e e' ->
  DB_projects e' = DB_projects e /\ DB_files e' = DB_files e /\
  DB_chunks e' = DB_chunks e /\ VECTORIZE_calls e' = VECTORIZE_calls e /\
  now e' = now e.
Proof. intros ->. done. Qed.

Lemma vectorize_frame_fields e e' :
  vectorize_frame e e' ->
  DB_projects e' = DB_projects e /\ DB_files e' = DB_files e /\
  DB_chunks e' = DB_chunks e /\ now e' = now e.
Proof. intros ->. done. Qed.

Lemma length_zero_nil {A} (l : list A) : (length l =? 0) = true -> l = [].
Proof. intros H. apply Nat.eqb_eq in H. by destruct l. Qed.

Lemma insert_files_all (rows : list File) e u e' :
  (if 0 <? length rows then for_batches 100 DB_insert_files (length rows) 0 rows tt
   else ret tt) e = (Returned u, e') ->
  e' = set_files (DB_files e ++ rows) e.
Proof.
  destruct (0 <? length rows) eqn:Hlen.
  - intros H. rewrite (insert_files_loop _ _ _ _ _ _ H).
    rewrite batches_from_concat, drop_0 by lia. done.
  - apply Nat.ltb_ge in Hlen. destruct rows; [|simpl in Hlen; lia].
    intros [= _ <-]. rewrite app_nil_r. by destruct e.
Qed.

Lemma insert_chunks_all (rows : list Chunk) e u e' :
  (if 0 <? length rows then for_batches 100 DB_insert_chunks (length rows) 0 rows tt
   else ret tt) e = (Returned u, e') ->
  e' = set_chunks (DB_chunks e ++ rows) e.
Proof.
  destruct (0 <? length rows) eqn:Hlen.
  - intros H. rewrite (insert_chunks_loop _ _ _ _ _ _ H).
    rewrite batches_from_concat, drop_0 by lia. done.
  - apply Nat.ltb_ge in Hlen. destruct rows; [|simpl in Hlen; lia].
    intros [= _ <-]. rewrite app_nil_r. by destruct e.
Qed.

Lemma indexFiles_spec (body : IndexRequest) (projectId : jsstring) (appendMode : bool) (existing : gset jsstring) e (progress : IndexProgress) msg ins errs e' :
indexFiles P body projectId appendMode existing e
= (Returned (jsonResponse (IndexBody progress msg ins errs)), e') ->
ip_project_id progress = projectId /\
ip_total_files progress = Z.of_nat (length (filesToProcess body appendMode existing)) /\
(exists rows, DB_files e' = DB_files e ++ rows /\
              List.map f_relative_path rows = List.map fst (filesToProcess body appendMode existing) /\
              List.map f_content_hash rows = List.map (fun f => SHA256_hex P (snd f)) (filesToProcess body appendMode existing) /\
              Forall (fun f => f_project_id f = projectId) rows) /\
List.map p_id (DB_projects e') = List.map p_id (DB_projects e) /\
(msg = None ->
   errs = (failed_upserts P e' - failed_upserts P e)%Z /\
   Forall (fun p => p_id p = projectId -> p_status p = if (errs =? 0)%Z then Ready else Error) (DB_projects e') /\
   exists allChunks flags,
     ip_total_chunks progress = Z.of_nat (length allChunks) /\
     DB_chunks e' = DB_chunks e ++ allChunks /\
     length flags = length (batches EMBEDDING_BATCH_SIZE allChunks) /\
     (ins + errs)%Z = embedded_size flags (batches EMBEDDING_BATCH_SIZE allChunks) /\
     embedding_errors (console e') = embedding_errors (console e) + count_failed flags).
Proof.
intros H. unfold indexFiles in H.
apply bind_inv in H as (u & e1 & Hskip & H).
assert (He1 : e1 = set_console (console e1) e /\
              embedding_errors (console e1) = embedding_errors (console e)).
{ destruct (appendMode && _).
  - cbv [console_error modify] in Hskip. injection Hskip as _ <-.
    split; [by destruct e|]. cbn [console set_console].
    rewrite embedding_errors_app. unfold embedding_errors at 2. simpl. lia.
  - injection Hskip as _ <-. split; [by destruct e|done]. }
clear Hskip. destruct He1 as [He1 Hlog1].
assert (He1f : DB_projects e1 = DB_projects e /\ DB_files e1 = DB_files e /\
               DB_chunks e1 = DB_chunks e /\ VECTORIZE_calls e1 = VECTORIZE_calls e)
  by (rewrite He1; done).
destruct He1f as (Hp1 & Hf1 & Hc1 & Hv1).
set (todo := filesToProcess body appendMode existing) in *.
destruct (length todo =? 0) eqn:Hlen.
- apply bind_inv in H as (u2 & e2 & Hupd & H).
  cbv [DB_update_project modify] in Hupd. injection Hupd as _ <-.
  cbv [ret] in H. injection H as <- <- <- <- <-.
  apply length_zero_nil in Hlen. rewrite Hlen.
  split; [done|]. split; [done|]. split.
  { exists []. rewrite app_nil_r. split; [|done]. done. }
  split; [|done].
  cbn [DB_projects set_projects]. rewrite update_ids by done. by rewrite Hp1.
- apply bind_inv in H as (a & e2 & Hproc & H).
  destruct (processFiles_spec projectId todo [] [] 0%Z e1)
    as (n & allChunks & fileRecords & Hp & Hpaths & Hhash & Hproj).
  rewrite Hp in Hproc. injection Hproc as <- <-. cbn [app] in H.
  apply bind_inv in H as (u3 & e3 & Hfiles & H). apply insert_files_all in Hfiles.
  apply bind_inv in H as (u4 & e4 & Hchunks & H). apply insert_chunks_all in Hchunks.
  apply bind_inv in H as (vr & e5 & Hembed & H).
  destruct (embed_loop projectId fileRecords (length allChunks) 0 allChunks [] e4)
    as (flags & vr' & e5' & Hrun & Hframe5 & Hflags & Hvr & Hlog5).
  rewrite Hrun in Hembed. injection Hembed as <- <-.
  apply bind_inv in H as (counts & e6 & Hupsert & H).
  destruct (upsertVectors_spec vr' e5') as (e6' & Hrun6 & Hcalls6 & Hframe6 & Hlog6).
  rewrite Hrun6 in Hupsert. injection Hupsert as <- <-.
  pose proof (upsert_counts_total (length (VECTORIZE_calls e5')) (batches BATCH_SIZE vr')) as Htotal.
  pose proof (upsert_counts_errors (length (VECTORIZE_calls e5')) (batches BATCH_SIZE vr')) as Herrors.
  rewrite batches_concat in Htotal by (unfold BATCH_SIZE; lia).
  destruct (upsert_counts _ _ _) as [inserted errors]. cbn [fst snd] in *.
  apply bind_inv in H as (t & e7 & Hnow & H).
  cbv [unixNow bind gets ret] in Hnow. injection Hnow as <- <-.
  apply bind_inv in H as (u8 & e8 & Hfinal & H).
  cbv [ret] in H. injection H as <- <- <- <- <-.
  assert (Hproj8 : DB_projects e8
            = List.map (fun p => if JsString.eqb (p_id p) projectId
                                 then with_indexed (if (errors =? 0)%Z then Ready else Error)
                                        (if appendMode then (p_file_count p + Z.of_nat (length fileRecords))%Z else Z.of_nat (length fileRecords))
                                        (now e6' / 1000)%Z p
                                 else p) (DB_projects e6') /\
          e8 = set_projects (DB_projects e8) e6').
  { destruct appendMode; cbv [DB_update_project modify] in Hfinal;
      injection Hfinal as _ <-; split; try done; by destruct e6'. }
  clear Hfinal. destruct Hproj8 as [Hproj8 He8].
  destruct (embedding_frame_fields _ _ Hframe5) as (Hp5 & Hf5 & Hc5 & Hv5 & _).
  destruct (vectorize_frame_fields _ _ Hframe6) as (Hp6 & Hf6 & Hc6 & _).
  subst e3 e4.
  cbn [DB_projects DB_files DB_chunks VECTORIZE_calls set_chunks set_files set_uuids]
    in Hp5, Hf5, Hc5, Hv5.
  assert (Hf8 : DB_files e8 = DB_files e6' /\ DB_chunks e8 = DB_chunks e6' /\
                VECTORIZE_calls e8 = VECTORIZE_calls e6' /\ console e8 = console e6')
    by (rewrite He8; done).
  destruct Hf8 as (Hf8 & Hc8 & Hv8 & Hl8).
  split; [done|]. split; [done|]. split.
  { exists fileRecords. split; [|done]. by rewrite Hf8, Hf6, Hf5, Hf1. }
  split.
  { rewrite Hproj8, update_ids by done. by rewrite Hp6, Hp5, Hp1. }
  intros _. split.
  { assert (Hv : VECTORIZE_calls e5' = VECTORIZE_calls e) by (by rewrite Hv5, Hv1).
    rewrite Hv in Herrors, Hcalls6. unfold failed_upserts.
    rewrite Hv8, Hcalls6, upsert_errors_from_app, Nat.add_0_l, <- Herrors. lia. }
  split.
  { rewrite Hproj8. by apply update_status. }
  exists allChunks, flags. split; [done|]. split.
  { by rewrite Hc8, Hc6, Hc5, Hc1. }
  split; [done|]. split.
  { unfold batches. simpl in Hvr. lia. }
  rewrite Hl8. cbn [console set_chunks set_files set_uuids] in Hlog5. lia.
Qed.


(** *** The first part of [handleIndex] *)

Lemma length_eqb_0 {A} (l : list A) : l <> [] -> (length l =? 0) = false.
Proof. intros H. apply Nat.eqb_neq. by destruct l. Qed.

Lemma filesToProcess_append (body : IndexRequest) (stored : gset jsstring) :
  filesToProcess body true stored
  = List.filter (fun f => shouldIndexFile (fst f) && negb (bool_decide (fst f ∈ stored)))
      (files body).
Proof.
  unfold filesToProcess. cbn [andb].
  destruct (0 <? size stored) eqn:Hsize.
  - induction (files body) as [|f fs IH]; [done|]. simpl.
    destruct (shouldIndexFile f.1); simpl; [|done].
    destruct (negb _); by rewrite IH.
  - apply Nat.ltb_ge in Hsize.
    assert (Hempty : stored = ∅).
    { apply leibniz_equiv, size_empty_inv. lia. }
    apply List.filter_ext. intros f. rewrite Hempty.
    rewrite bool_decide_eq_false_2 by set_solver. by rewrite andb_true_r.
Qed.

Lemma handleIndex_try_append (body : IndexRequest) e p :
  project_path body <> [] -> files body <> [] -> append body = true ->
  projectByPath e (project_path body) = Some p ->
  handleIndex_try P body e
  = indexFiles P body (p_id p) true (storedPaths e (p_id p))
      (set_projects
         (List.map (fun q => if JsString.eqb (p_id q) (p_id p)
                             then with_status Indexing q else q) (DB_projects e)) e).
Proof.
  intros Hpath Hfiles Happend Hproj. unfold handleIndex_try.
  rewrite (length_eqb_0 _ Hpath), (length_eqb_0 _ Hfiles), Happend.
  cbv [DB_project_by_path bind gets DB_update_project modify]. by rewrite Hproj.
Qed.

Lemma handleIndex_returned (body : IndexRequest) e (b : ResponseBody) e' :
  handleIndex P body e = (Returned (jsonResponse b), e') ->
  handleIndex_try P body e = (Returned (jsonResponse b), e').
Proof.
  unfold handleIndex, try_catch.
  destruct (handleIndex_try P body e) as [[resp|msg] e1]; [done|].
  cbv [console_error modify bind ret errorResponse jsonResponse].
  intros H. discriminate H.
Qed.




End WithPlatform.
End PipelineFacts.

(* ================================================================== *)
(** * The pipeline: the stated properties *)
(* ================================================================== *)

Module PipelineTheorems.

Import PipelineFacts Scenario.

Section WithPlatform.

Context {number : Type}.
Variable P : Platform number.
Implicit Types e : Env number.

(** C3 (as amended). When the counter of the day plus the size of the
    batch exceeds the daily limit, [generateEmbeddings] on a batch that is
    not empty throws the quota error and leaves the environment as it
    was: no call to the embedding service is made and the counter is
    unchanged. An empty batch returns the empty list at once, whatever
    the counter is. *)
Theorem generateEmbeddings_over_quota (texts : list jsstring) e :
  (DAILY_EMBEDDING_LIMIT < embeddingCount P e + Z.of_nat (length texts))%Z ->
  (texts <> [] ->
   generateEmbeddings P texts e
   = (Thrown "Daily embedding limit reached (7000). Try again tomorrow.", e)) /\
  (texts = [] -> generateEmbeddings P texts e = (Returned [], e)).
Proof.
  intros Hq. split.
  - intros Hne. by apply generateEmbeddings_quota.
  - by intros ->.
Qed.

(** C10. [upsertVectors] attempts every batch of at most 100 records,
    whether or not earlier batches failed; a batch counts in full as
    inserted when its upsert succeeds and in full as errors when it
    throws, so that [inserted + errors] is the number of records. *)
Theorem upsertVectors_counts (vectors : list EmbeddingResult) e :
  exists e',
    upsertVectors P vectors e
    = (Returned (upsert_counts P (length (VECTORIZE_calls e))
                   (batches BATCH_SIZE vectors)), e') /\
    VECTORIZE_calls e'
    = VECTORIZE_calls e ++ List.map UpsertCall (batches BATCH_SIZE vectors) /\
    Forall (fun b => length b <= 100) (batches BATCH_SIZE vectors) /\
    concat (batches BATCH_SIZE vectors) = vectors /\
    (fst (upsert_counts P (length (VECTORIZE_calls e)) (batches BATCH_SIZE vectors))
     + snd (upsert_counts P (length (VECTORIZE_calls e)) (batches BATCH_SIZE vectors))
     = Z.of_nat (length vectors))%Z.
Proof.
  destruct (upsertVectors_spec P vectors e) as (e' & Hrun & Hcalls & _).
  exists e'. split; [done|]. split; [done|].
  split; [apply batches_from_bounded|].
  split; [apply batches_concat; unfold BATCH_SIZE; lia|].
  rewrite upsert_counts_total, batches_concat by (unfold BATCH_SIZE; lia). done.
Qed.

(** C9. For an existing project, with neither [force] nor [append],
    whose [last_indexed_at] is less than an hour old, [handleIndex]
    leaves the whole environment unchanged: no row, vector, counter or
    call is added, changed or removed. Unless the request is turned down
    for lack of a path or of files, the answer is that the project was
    indexed recently. *)
Theorem handleIndex_recently_indexed (body : IndexRequest) e p t :
  force body = false -> append body = false ->
  projectByPath e (project_path body) = Some p ->
  p_last_indexed_at p = Some t -> t <> 0%Z ->
  (now e - 1000 * t < 3600 * 1000)%Z ->
  snd (handleIndex P body e) = e /\
  (project_path body <> [] -> files body <> [] ->
   fst (handleIndex P body e)
   = Returned (jsonResponse (RecentlyIndexedBody recentMessage (p_id p) t))).
Proof.
  intros Hforce Happend Hproj Hlast Ht Hrecent.
  unfold handleIndex, try_catch, handleIndex_try.
  destruct (length (project_path body) =? 0) eqn:Hp.
  { split; [done|]. intros Hpath _. apply Nat.eqb_eq in Hp.
    by destruct (project_path body). }
  destruct (length (files body) =? 0) eqn:Hf.
  { split; [done|]. intros _ Hfiles. apply Nat.eqb_eq in Hf.
    by destruct (files body). }
  rewrite Happend, Hforce.
  cbv [DB_project_by_path bind gets ret negb]. rewrite Hproj, Hlast.
  unfold indexedRecently.
  replace (t =? 0)%Z with false by (symmetry; by apply Z.eqb_neq).
  replace (now e - 1000 * t <? 3600 * 1000)%Z with true
    by (symmetry; apply Z.ltb_lt; lia).
  done.
Qed.

(** C4. In append mode on an existing project, [handleIndex] keeps of the
    eligible files exactly those whose path is not among the stored
    relative paths of the project; the content plays no part. When the
    request completes, the report counts these files and the table of
    files has gained one row for each of them, with the digest of the
    content sent, while the rows already stored (those of the skipped
    paths among them) are as they were. *)
Theorem handleIndex_append_by_path (body : IndexRequest) e p
  (progress : IndexProgress) msg ins errs e' :
  project_path body <> [] -> files body <> [] -> append body = true ->
  projectByPath e (project_path body) = Some p ->
  handleIndex P body e
  = (Returned (jsonResponse (IndexBody progress msg ins errs)), e') ->
  filesToProcess body true (storedPaths e (p_id p))
  = List.filter (fun f => shouldIndexFile (fst f)
                          && negb (bool_decide (fst f ∈ storedPaths e (p_id p))))
      (files body) /\
  ip_total_files progress
  = Z.of_nat (length (filesToProcess body true (storedPaths e (p_id p)))) /\
  exists rows,
    DB_files e' = DB_files e ++ rows /\
    List.map f_relative_path rows
    = List.map fst (filesToProcess body true (storedPaths e (p_id p))) /\
    List.map f_content_hash rows
    = List.map (fun f => SHA256_hex P (snd f))
        (filesToProcess body true (storedPaths e (p_id p))).
Proof.
  intros Hpath Hfiles Happend Hproj Hrun.
  split; [apply filesToProcess_append|].
  apply handleIndex_returned in Hrun.
  rewrite (handleIndex_try_append P body e p) in Hrun by done.
  apply indexFiles_spec in Hrun as (_ & Htotal & (rows & Hrows & Hp & Hh & _) & _).
  split; [done|]. exists rows. by repeat split.
Qed.



(** C7 (as amended). When the chunks of a file, as stored, are those of
    [chunkFile] and cut the file into consecutive non-empty ranges from
    its first to its last line (no overlap, and no range left out
    because it was blank), [readFileTool] gives back the content of the
    file and the number of its lines. *)
Theorem readFileTool_roundtrip (content : jsstring) (options : ChunkOptions)
  e (projectId path : jsstring) :
  List.map chunk (chunks_of_file e projectId path) = chunkFile content options ->
  chunkFile content options <> [] ->
  tiles 1 (chunkFile content options) (Z.of_nat (length (split NL content))) ->
  readFileTool projectId path e
  = (Returned (Some (content, Z.of_nat (length (split NL content)))), e).
Proof.
  intros Hrows Hne Htiles. unfold readFileTool. cbv [bind gets].
  set (rows := chunks_of_file e projectId path) in *.
  rewrite <- Hrows in Htiles, Hne.
  rewrite (ChunkerTheorems.tiles_order_by chunk rows _ _ Htiles).
  assert (Hlen : (length rows =? 0) = false).
  { apply Nat.eqb_neq. destruct rows; [done|simpl; lia]. }
  rewrite Hlen.
  destruct (last rows) as [lastChunk|] eqn:Hlast.
  - assert (Hend : end_line (chunk lastChunk) = Z.of_nat (length (split NL content))).
    { apply (ChunkerTheorems.tiles_last _ _ _ _ Htiles).
      change (List.map chunk rows) with (chunk <$> rows).
      by rewrite fmap_last, Hlast. }
    rewrite Hend.
    replace (List.map (fun c => Chunker.content (chunk c)) rows)
      with (List.map Chunker.content (List.map chunk rows))
      by (by rewrite List.map_map).
    rewrite (ChunkerTheorems.tiles_join (split NL content) _ 1); try done.
    + change (Z.to_nat (1 - 1)) with 0. by rewrite slice_full, join_split.
    + rewrite Hrows. apply ChunkerFacts.chunkFile_covers.
  - apply last_None in Hlast. by rewrite Hlast in Hne.
Qed.

End WithPlatform.

(** *** The properties on concrete runs *)

(** C5 (the code falls short of it). Claimed: the history given to the
    model consists of the last 10 messages of the conversation. For a
    conversation of twelve messages [m1 .. m12], the history that
    [handleQuery] loads is [m1 .. m10], the 10 oldest, and the messages
    sent to the model are [m5 .. m10]; [m11] and [m12] are never read. *)
Theorem handleQuery_history_is_oldest :
  conversationHistory chat_env (str "conv-1")
  = List.map (fun k => (fst (plain k), str "m" ++ str (pretty k))) (seq 1 10) /\
  last (AI_calls (run (handleQuery one_match chat_request) chat_env))
  = Some (ChatCall LLM_MODEL
            ([(system, RagSystemPrompt)] ++ List.map plain (seq 5 6)
             ++ [(user,
                  Question [mkContext (str "export const a = 1") (str "a.ts")
                              (str "proj") 1 1] (str "what is a"))])
            1024).
Proof. split; vm_compute; reflexivity. Qed.



(** C3 (as stated, refuted). With the counter at 7001 the sum exceeds
    the limit for the empty batch too, and [generateEmbeddings] returns
    the empty list instead of failing. *)
Lemma generateEmbeddings_empty_batch_returns :
  (DAILY_EMBEDDING_LIMIT
   < embeddingCount healthy (env_with_count 7001) + Z.of_nat (length (@nil jsstring)))%Z /\
  generateEmbeddings healthy [] (env_with_count 7001)
  = (Returned [], env_with_count 7001).
Proof. split; [vm_compute; reflexivity|reflexivity]. Qed.

Lemma generateEmbeddings_over_quota_witness :
  (DAILY_EMBEDDING_LIMIT
   < embeddingCount healthy (env_with_count (DAILY_EMBEDDING_LIMIT - 2))
     + Z.of_nat (length five_texts))%Z /\
  generateEmbeddings healthy five_texts (env_with_count (DAILY_EMBEDDING_LIMIT - 2))
  = (Thrown "Daily embedding limit reached (7000). Try again tomorrow.",
     env_with_count (DAILY_EMBEDDING_LIMIT - 2)).
Proof.
  assert (H : (DAILY_EMBEDDING_LIMIT
               < embeddingCount healthy (env_with_count (DAILY_EMBEDDING_LIMIT - 2))
                 + Z.of_nat (length five_texts))%Z) by (vm_compute; reflexivity).
  split; [exact H|].
  apply (generateEmbeddings_over_quota healthy five_texts _ H). discriminate.
Defined.

Lemma handleIndex_recently_indexed_witness :
  projectByPath indexed_env (project_path first_request) = Some indexed_project /\
  (now indexed_env - 1000 * 1700000000 < 3600 * 1000)%Z /\
  handleIndex healthy first_request indexed_env
  = (Returned (jsonResponse
                 (RecentlyIndexedBody recentMessage (str "id-0") 1700000000)),
     indexed_env).
Proof.
  assert (Hp : projectByPath indexed_env (project_path first_request)
               = Some indexed_project) by (vm_compute; reflexivity).
  assert (Hn : (now indexed_env - 1000 * 1700000000 < 3600 * 1000)%Z)
    by (vm_compute; reflexivity).
  split; [exact Hp|]. split; [exact Hn|].
  destruct (handleIndex_recently_indexed healthy first_request indexed_env
              indexed_project 1700000000 eq_refl eq_refl Hp eq_refl
              ltac:(discriminate) Hn) as [Henv Hresp].
  rewrite (surjective_pairing (handleIndex healthy first_request indexed_env)).
  rewrite Henv, (Hresp ltac:(discriminate) ltac:(discriminate)). reflexivity.
Defined.

Lemma handleIndex_append_by_path_witness :
  projectByPath indexed_env (project_path append_request) = Some indexed_project /\
  handleIndex healthy append_request indexed_env
  = (Returned (jsonResponse (IndexBody append_progress None 1 0)),
     run (handleIndex healthy append_request) indexed_env) /\
  filesToProcess append_request true (storedPaths indexed_env (str "id-0"))
  = [(str "c.ts", str "export const c = 4")] /\
  exists rows,
    DB_files (run (handleIndex healthy append_request) indexed_env)
    = DB_files indexed_env ++ rows /\
    List.map f_relative_path rows = [str "c.ts"].
Proof.
  assert (Hp : projectByPath indexed_env (project_path append_request)
               = Some indexed_project) by (vm_compute; reflexivity).
  assert (Hr : handleIndex healthy append_request indexed_env
               = (Returned (jsonResponse (IndexBody append_progress None 1 0)),
                  run (handleIndex healthy append_request) indexed_env))
    by (vm_compute; reflexivity).
  assert (Hf : filesToProcess append_request true (storedPaths indexed_env (str "id-0"))
               = [(str "c.ts", str "export const c = 4")]) by (vm_compute; reflexivity).
  split; [exact Hp|]. split; [exact Hr|]. split; [exact Hf|].
  destruct (handleIndex_append_by_path healthy append_request indexed_env
              indexed_project append_progress None 1 0 _
              ltac:(discriminate) ltac:(discriminate) eq_refl Hp Hr)
    as (_ & _ & rows & Hrows & Hpaths & _).
  exists rows. split; [exact Hrows|].
  change (p_id indexed_project) with (str "id-0") in Hpaths.
  rewrite Hf in Hpaths. exact Hpaths.
Defined.

(** C7 (as stated, refuted). A Markdown file that starts with an empty
    line: its only chunk is the section on line 2, so no two chunks
    overlap, and reading the file back yields the section without the
    empty line before it. *)
Lemma readFileTool_drops_blank_span :
  List.map chunk (chunks_of_file (doc_env blank_then_section) (str "id-0") (str "doc.md"))
  = chunkFile blank_then_section doc_options /\
  no_overlap (chunkFile blank_then_section doc_options) /\
  fst (readFileTool (str "id-0") (str "doc.md") (doc_env blank_then_section))
  = Returned (Some (str "# A", 2%Z)) /\
  str "# A" <> blank_then_section.
Proof.
  split; [vm_compute; reflexivity|]. split; [|split; [vm_compute; reflexivity|discriminate]].
  assert (E : chunkFile blank_then_section doc_options
              = [mkChunk (str "id-1") (str "id-0") (str "# A") 2 2 markdown])
    by (vm_compute; reflexivity).
  rewrite E. intros [|i] [|j] c d Hij Hi Hj; try done;
    try (by rewrite lookup_nil in Hi); by rewrite lookup_nil in Hj.
Qed.

Lemma readFileTool_roundtrip_witness :
  List.map chunk (chunks_of_file (doc_env two_sections) (str "id-0") (str "doc.md"))
  = chunkFile two_sections doc_options /\
  tiles 1 (chunkFile two_sections doc_options)
    (Z.of_nat (length (split NL two_sections))) /\
  readFileTool (str "id-0") (str "doc.md") (doc_env two_sections)
  = (Returned (Some (two_sections, Z.of_nat (length (split NL two_sections)))),
     doc_env two_sections).
Proof.
  assert (Hrows : List.map chunk
                    (chunks_of_file (doc_env two_sections) (str "id-0") (str "doc.md"))
                  = chunkFile two_sections doc_options) by (vm_compute; reflexivity).
  assert (E : chunkFile two_sections doc_options
              = [mkChunk (str "id-1") (str "id-0") (str "# A" ++ NL :: str "x") 1 2 markdown;
                 mkChunk (str "id-1") (str "id-0") (str "# B" ++ NL :: str "y") 3 4 markdown])
    by (vm_compute; reflexivity).
  assert (Htiles : tiles 1 (chunkFile two_sections doc_options)
                     (Z.of_nat (length (split NL two_sections)))).
  { rewrite E. change (Z.of_nat (length (split NL two_sections))) with 4%Z.
    simpl. repeat split; lia. }
  split; [exact Hrows|]. split; [exact Htiles|].
  apply (readFileTool_roundtrip two_sections doc_options _ _ _ Hrows); [|exact Htiles].
  rewrite E. discriminate.
Defined.

End PipelineTheorems.

(* ================================================================== *)
(** * Paths: extensions, project names, what is indexed *)
(* ================================================================== *)

Module UtilsTheorems.

Import Scenario.

(** *** [split] *)

Lemma split_app_sep sep a b :
  split sep (a ++ sep :: b) = split sep a ++ split sep b.
Proof.
  induction a as [|c a IH]; simpl.
  - by rewrite N.eqb_refl.
  - destruct (N.eqb c sep); [by rewrite IH|].
    rewrite IH. pose proof (split_not_nil sep a) as Hne.
    by destruct (split sep a).
Qed.

Lemma split_no_sep sep s : sep ∉ s -> split sep s = [s].
Proof.
  induction s as [|c s IH]; [done|]. intros Hs.
  rewrite not_elem_of_cons in Hs. destruct Hs as [Hc Hs]. simpl.
  destruct (N.eqb_spec c sep) as [->|_]; [done|]. by rewrite IH.
Qed.


Lemma last_snoc_default {A} (l : list A) (x d : A) : List.last (l ++ [x]) d = x.
Proof. induction l as [|a l IH]; [done|]. simpl. destruct (l ++ [x]) eqn:E; [by destruct l|done]. Qed.


(** *** [extractProjectName] *)

Lemma dropTrailingSlash_snoc path : dropTrailingSlash (path ++ [SLASH]) = path.
Proof.
  unfold dropTrailingSlash. rewrite rev_app_distr. simpl.
  by rewrite ?N.eqb_refl, rev_involutive.
Qed.

Lemma dropTrailingSlash_other path c :
  c <> SLASH -> dropTrailingSlash (path ++ [c]) = path ++ [c].
Proof.
  intros Hc. unfold dropTrailingSlash. rewrite rev_app_distr. simpl.
  by destruct (N.eqb_spec c SLASH).
Qed.


(** X2. The name of a project is the last segment of its path, one trailing
    slash being ignored. *)
Theorem extractProjectName_basename (dir name : jsstring) :
  name <> [] -> SLASH ∉ name ->
  extractProjectName (dir ++ SLASH :: name) = name /\
  extractProjectName (dir ++ SLASH :: name ++ [SLASH]) = name /\
  extractProjectName name = name.
Proof.
  intros Hne Hname.
  assert (Hkeep : forall pre, dropTrailingSlash (pre ++ name) = pre ++ name).
  { intros pre. destruct (exists_last Hne) as (init & c & ->).
    rewrite app_assoc. apply dropTrailingSlash_other. intros ->.
    apply Hname, elem_of_app. right. apply list_elem_of_here. }
  assert (Hrun : forall pre,
            match List.last (split SLASH pre ++ [name]) [] with
            | [] => str "unknown"
            | n => n
            end = name).
  { intros pre. rewrite last_snoc_default. by destruct name. }
  unfold extractProjectName. split; [|split].
  - change (dir ++ SLASH :: name) with (dir ++ [SLASH] ++ name).
    rewrite app_assoc, Hkeep, <- app_assoc. simpl.
    rewrite split_app_sep, (split_no_sep _ name Hname). apply Hrun.
  - replace (dir ++ SLASH :: name ++ [SLASH]) with ((dir ++ SLASH :: name) ++ [SLASH])
      by (by rewrite <- app_assoc).
    rewrite dropTrailingSlash_snoc, split_app_sep, (split_no_sep _ name Hname).
    apply Hrun.
  - rewrite <- (app_nil_l name) at 1. rewrite Hkeep. simpl.
    rewrite (split_no_sep _ name Hname). by destruct name.
Qed.

Lemma extractProjectName_basename_witness :
  extractProjectName (str "/home/u" ++ SLASH :: str "proj") = str "proj" /\
  extractProjectName (str "/home/u" ++ SLASH :: str "proj" ++ [SLASH]) = str "proj" /\
  extractProjectName (str "proj") = str "proj".
Proof.
  apply (extractProjectName_basename (str "/home/u") (str "proj")).
  - discriminate.
  - vm_compute. intros H.
    repeat (apply elem_of_cons in H as [H|H]; [discriminate H|]).
    by apply elem_of_nil in H.
Defined.

(** *** [getFileExtension] *)



(** *** [shouldIndexFile] *)

Lemma is_prefix_app p s : is_prefix p (p ++ s) = true.
Proof. induction p as [|c p IH]; [by destruct s|]. simpl. by rewrite N.eqb_refl. Qed.

Lemma includes_prefix s p : is_prefix p s = true -> includes s p = true.
Proof. intros H. destruct s; simpl; by rewrite H. Qed.

Lemma includes_app a p b : includes (a ++ p ++ b) p = true.
Proof.
  induction a as [|c a IH].
  - change (includes (p ++ b) p = true). apply includes_prefix, is_prefix_app.
  - simpl. rewrite IH. apply orb_true_r.
Qed.

(** X4. A path is excluded as soon as one of the skip words occurs anywhere
    in it, be it inside a file or directory name: the test is on
    substrings, not on path segments. *)
Theorem shouldIndexFile_substring (a pat b : jsstring) :
  pat ∈ excluded -> shouldIndexFile (a ++ pat ++ b) = false.
Proof.
  intros Hin. unfold excluded in Hin. apply elem_of_app in Hin as [Hin|Hin].
  - unfold shouldIndexFile.
    assert (H : existsb (fun p => includes (a ++ pat ++ b) p) skipPatterns = true).
    { apply existsb_exists. exists pat. split; [by apply list_elem_of_In|].
      apply includes_app. }
    by rewrite H.
  - unfold shouldIndexFile.
    destruct (existsb _ skipPatterns); [done|].
    assert (H : includes (a ++ pat ++ b) (str "package-lock.json")
                || includes (a ++ pat ++ b) (str "yarn.lock")
                || includes (a ++ pat ++ b) (str "pnpm-lock.yaml") = true).
    { simpl in Hin.
      repeat (apply elem_of_cons in Hin as [->|Hin];
              [rewrite includes_app; by rewrite ?orb_true_r|]).
      by apply elem_of_nil in Hin. }
    by rewrite H.
Qed.

Lemma shouldIndexFile_substring_witness :
  shouldIndexFile (str "src/" ++ str "dist" ++ str "ance.ts") = false.
Proof.
  apply (shouldIndexFile_substring (str "src/") (str "dist") (str "ance.ts")).
  unfold excluded. apply elem_of_app. left.
  apply list_elem_of_In. vm_compute. tauto.
Defined.

(** X5. Of the files that are indexed, those chunked as plain text are the
    [.txt] files and those chunked as configuration are the [.json],
    [.yaml], [.yml] and [.toml] files: the other configuration
    extensions that [getFileType] knows are never indexed. *)
Theorem shouldIndexFile_type (path : jsstring) :
  shouldIndexFile path = true ->
  match getFileType path with
  | text => getFileExtension path = str "txt"
  | config => getFileExtension path ∈ List.map str ["json"; "yaml"; "yml"; "toml"]%string
  | _ => True
  end.
Proof.
  unfold shouldIndexFile, getFileType.
  destruct (existsb _ skipPatterns); [done|]. destruct (_ || _); [done|].
  intros H. apply existsb_exists in H as (x & Hin & Heq).
  unfold JsString.eqb in Heq. apply bool_decide_eq_true_1 in Heq. rewrite Heq.
  unfold indexableExtensions in Hin. simpl in Hin.
  repeat (destruct Hin as [<-|Hin];
          [vm_compute; first [done|repeat constructor]|]).
  destruct Hin.
Qed.

Lemma shouldIndexFile_type_witness :
  getFileExtension (str "notes.txt") = str "txt".
Proof.
  exact (shouldIndexFile_type (str "notes.txt") eq_refl).
Defined.

(** *** [truncate] *)

(** X6. [truncate] keeps its bound exactly when the text fits or the bound is
    at least 3: a longer text is cut to [maxLength - 3] characters
    followed by three dots, and for a bound below 3 the result is longer
    than the bound. *)
Theorem truncate_bound (text : jsstring) (maxLength : Z) :
  ((Z.of_nat (length (truncate text maxLength)) <= maxLength)%Z
   <-> (Z.of_nat (length text) <= maxLength)%Z \/ (3 <= maxLength)%Z) /\
  ((3 <= maxLength < Z.of_nat (length text))%Z ->
   truncate text maxLength = take (Z.to_nat (maxLength - 3)) text ++ str "..." /\
   Z.of_nat (length (truncate text maxLength)) = maxLength).
Proof.
  unfold truncate, slice_to.
  destruct (Z.of_nat (length text) <=? maxLength)%Z eqn:Hfit.
  - apply Z.leb_le in Hfit. split; [|lia]. split; [by left|lia].
  - apply Z.leb_gt in Hfit. rewrite length_app, length_take.
    change (length (str "...")) with 3.
    destruct (maxLength - 3 <? 0)%Z eqn:Hneg.
    + apply Z.ltb_lt in Hneg. split; [|lia]. split; lia.
    + apply Z.ltb_ge in Hneg. split; [split; lia|]. intros _.
      rewrite Z.min_l by lia. split; [done|]. lia.
Qed.

End UtilsTheorems.

(* ================================================================== *)
(** * The chunker: what the chunks of a file cover *)
(* ================================================================== *)

Module ChunkerCoverage.

Import ChunkerFacts Scenario.

Local Arguments covers_line : simpl never.
Local Arguments one_section : simpl never.

(** *** Lines in chunks *)

Lemma covers_line_app_l cs cs' n : covers_line cs n -> covers_line (cs ++ cs') n.
Proof. intros (c & Hc & Hn). exists c. split; [|done]. apply elem_of_app. by left. Qed.

Lemma covers_line_app_r cs cs' n : covers_line cs' n -> covers_line (cs ++ cs') n.
Proof. intros (c & Hc & Hn). exists c. split; [|done]. apply elem_of_app. by right. Qed.

Lemma covers_line_snoc cs c n :
  (start_line c <= n <= end_line c)%Z -> covers_line (cs ++ [c]) n.
Proof. intros Hn. apply covers_line_app_r. exists c. split; [apply list_elem_of_here|done]. Qed.

Lemma elem_of_slice {A} (l : list A) s e k x :
  l !! k = Some x -> s <= k -> k < e -> x ∈ slice l s e.
Proof.
  intros Hx Hs He. apply (list_elem_of_lookup_2 _ (k - s)). unfold slice.
  rewrite lookup_take_lt by lia. rewrite lookup_drop.
  by replace (s + (k - s)) with k by lia.
Qed.

Lemma lookup_slice {A} (l : list A) s e k x :
  l !! k = Some x -> s <= k -> k < e -> slice l s e !! (k - s) = Some x.
Proof.
  intros Hx Hs He. unfold slice.
  rewrite lookup_take_lt by lia. rewrite lookup_drop.
  by replace (s + (k - s)) with k by lia.
Qed.

(** *** Blank text *)

Lemma trimStart_spaces s : forallb is_space s = true -> trimStart s = [].
Proof.
  induction s as [|c s IH]; [done|]. simpl.
  intros H. apply andb_prop in H as [-> H]. by apply IH.
Qed.

Lemma trimStart_head s c r : trimStart s = c :: r -> is_space c = false.
Proof.
  induction s as [|a s IH]; [done|]. simpl.
  destruct (is_space a) eqn:Ha; [done|]. by intros [= <- _].
Qed.

Lemma trimStart_nil s : trimStart s = [] -> forallb is_space s = true.
Proof.
  induction s as [|a s IH]; [done|]. simpl.
  destruct (is_space a); [done|discriminate].
Qed.

Lemma forallb_rev {A} (f : A -> bool) (l : list A) :
  forallb f (List.rev l) = true -> forallb f l = true.
Proof.
  rewrite !forallb_forall. intros H x Hx. apply H. by apply in_rev in Hx.
Qed.

Lemma blank_spec s : nonblank s = false <-> forallb is_space s = true.
Proof.
  unfold nonblank, trim, trimEnd. rewrite Nat.ltb_ge. split.
  - intros H.
    assert (Hnil : trimStart (rev (trimStart s)) = []).
    { destruct (trimStart (rev (trimStart s))) as [|c r] eqn:E; [done|].
      rewrite length_rev in H. simpl in H. lia. }
    apply trimStart_nil, forallb_rev in Hnil.
    destruct (trimStart s) as [|c r] eqn:E; [by apply trimStart_nil|].
    apply trimStart_head in E. simpl in Hnil. by rewrite E in Hnil.
  - intros H. by rewrite (trimStart_spaces _ H).
Qed.

Lemma spaces_join ls l :
  forallb is_space (join NL ls) = true -> l ∈ ls -> forallb is_space l = true.
Proof.
  induction ls as [|x ls IH]; intros Hall Hin; [by apply elem_of_nil in Hin|].
  destruct ls as [|y ls].
  - apply list_elem_of_singleton in Hin as ->. exact Hall.
  - rewrite join_cons in Hall by done. rewrite forallb_app in Hall.
    apply andb_prop in Hall as [Hx Hrest]. simpl in Hrest.
    apply elem_of_cons in Hin as [->|Hin]; [done|]. by apply IH.
Qed.

Lemma nonblank_join ls l :
  l ∈ ls -> nonblank l = true -> nonblank (join NL ls) = true.
Proof.
  intros Hin Hl. destruct (nonblank (join NL ls)) eqn:E; [done|].
  apply blank_spec in E. apply (spaces_join _ _ E) in Hin.
  apply blank_spec in Hin. congruence.
Qed.

(** *** The windowing loops keep every line that is not blank *)

Lemma chunkByLines_step_pending lines options ty i x st :
  lines !! i = Some x -> pending lines 0 true i st ->
  pending lines 0 true (S i) (chunkByLines_step (length lines) options ty i x st).
Proof.
  intros Hx (s & Hs & Hsi & Hcur & Hcov).
  pose proof (lookup_lt_Some _ _ _ Hx) as Hi.
  unfold chunkByLines_step. rewrite Hcur, (slice_snoc lines s i x) by done.
  destruct (window_next lines 0 s i Hsi Hi) as (Hcur' & Hle & Hstart & _).
  destruct (_ || _) eqn:Hcond.
  - exists (s + overlapStart (slice lines s (S i))). simpl.
    split; [lia|]. split; [done|]. split; [done|].
    intros k line Hk Hline Hnb. left.
    assert (Hcase : covers_line (ls_chunks st) (0 + Z.of_nat k + 1) \/ s <= k).
    { destruct (decide (k < i)) as [Hlt|Hge]; [|right; lia].
      destruct (Hcov k line Hlt Hline Hnb) as [?|[? _]]; [by left|by right]. }
    destruct Hcase as [Hc|Hsk].
    + destruct (nonblank (join NL _)); [by apply covers_line_app_l|done].
    + rewrite (nonblank_join (slice lines s (S i)) line); [|apply (elem_of_slice _ _ _ k); [done|lia|lia]|done].
      apply covers_line_snoc. simpl. lia.
  - apply orb_false_elim in Hcond as [_ Hlast]. apply Z.eqb_neq in Hlast.
    exists s. simpl. split; [done|]. split; [lia|]. split; [done|].
    intros k line Hk Hline Hnb.
    destruct (decide (k < i)) as [Hlt|Hge].
    + destruct (Hcov k line Hlt Hline Hnb) as [?|[? _]]; [by left|right]. split; [done|lia].
    + right. split; lia.
Qed.

Lemma chunkByLines_keeps lines options ty :
  keeps_nonblank lines (chunkByLines lines options ty).
Proof.
  unfold chunkByLines.
  pose proof (for_each_inv (chunkByLines_step (length lines) options ty) lines
                (pending lines 0 true)) as H.
  destruct (H (fun i x st => chunkByLines_step_pending lines options ty i x st)
              (mkLineState [] [] 0%Z)) as (s & _ & _ & _ & Hcov).
  { exists 0. simpl. repeat split; try done. intros k line Hk. lia. }
  intros k line Hline Hnb.
  destruct (Hcov k line (lookup_lt_Some _ _ _ Hline) Hline Hnb) as [Hc|[_ Hn]].
  - by replace (0 + Z.of_nat k + 1)%Z with (Z.of_nat k + 1)%Z in Hc by lia.
  - specialize (Hn eq_refl). lia.
Qed.

Lemma splitLargeChunk_step_pending lines off options i x st :
  lines !! i = Some x -> pending lines off false i st ->
  pending lines off false (S i) (splitLargeChunk_step off options i x st).
Proof.
  intros Hx (s & Hs & Hsi & Hcur & Hcov).
  pose proof (lookup_lt_Some _ _ _ Hx) as Hi.
  unfold splitLargeChunk_step. rewrite Hcur, (slice_snoc lines s i x) by done.
  destruct (window_next lines off s i Hsi Hi) as (Hcur' & Hle & Hstart & _).
  destruct (MAX_CHUNK_CHARS <=? _).
  - exists (s + overlapStart (slice lines s (S i))). simpl.
    split; [lia|]. split; [done|]. split; [done|].
    intros k line Hk Hline Hnb. left.
    destruct (decide (k < i)) as [Hlt|Hge].
    + destruct (Hcov k line Hlt Hline Hnb) as [?|[? _]]; [by apply covers_line_app_l|].
      apply covers_line_snoc. simpl. lia.
    + apply covers_line_snoc. simpl. lia.
  - exists s. simpl. split; [done|]. split; [lia|]. split; [done|].
    intros k line Hk Hline Hnb.
    destruct (decide (k < i)) as [Hlt|Hge].
    + destruct (Hcov k line Hlt Hline Hnb) as [?|[? _]]; [by left|by right].
    + right. split; [lia|done].
Qed.

Lemma splitLargeChunk_keeps lines off options k line :
  lines !! k = Some line -> nonblank line = true ->
  covers_line (splitLargeChunk lines off options) (off + Z.of_nat k + 1).
Proof.
  intros Hline Hnb. pose proof (lookup_lt_Some _ _ _ Hline) as Hk.
  pose proof (for_each_inv (splitLargeChunk_step off options) lines
                (pending lines off false)) as H.
  destruct (H (fun i x st => splitLargeChunk_step_pending lines off options i x st)
              (mkLineState [] [] off)) as (s & Hs & Hsn & Hcur & Hcov).
  { exists 0. simpl. repeat split; try done; try lia; intros; lia. }
  unfold splitLargeChunk. set (st := for_each _ _ _ _) in *.
  destruct (Hcov k line Hk Hline Hnb) as [Hc|[Hsk _]].
  - destruct (_ && _); [by apply covers_line_app_l|done].
  - assert (Hin : line ∈ ls_currentChunk st).
    { rewrite Hcur. by apply (elem_of_slice _ _ _ k). }
    rewrite (nonblank_join _ _ Hin Hnb), andb_true_r.
    assert (Hlen : 0 < length (ls_currentChunk st)).
    { rewrite Hcur, length_slice. lia. }
    apply Nat.ltb_lt in Hlen. rewrite Hlen.
    apply covers_line_snoc. simpl. lia.
Qed.

(** *** [chunkCode] *)

Lemma chunkCode_step_keeps lines options start next chunks (stop : nat) :
  stop = match next with Some e => e | None => length lines end ->
  stop <= length lines ->
  (forall k line, k < start -> lines !! k = Some line -> nonblank line = true ->
                  covers_line chunks (Z.of_nat k + 1)) ->
  forall k line, k < stop -> lines !! k = Some line -> nonblank line = true ->
                 covers_line (chunkCode_step lines options start next chunks)
                   (Z.of_nat k + 1).
Proof.
  intros Hstop Hle Hbefore k line Hk Hline Hnb. unfold chunkCode_step.
  rewrite <- Hstop.
  destruct (decide (k < start)) as [Hlt|Hge].
  - specialize (Hbefore k line Hlt Hline Hnb).
    destruct (MAX_CHUNK_CHARS <? _); [by apply covers_line_app_l|].
    destruct (nonblank (join NL _)); [by apply covers_line_app_l|done].
  - destruct (MAX_CHUNK_CHARS <? _).
    + apply covers_line_app_r.
      replace (Z.of_nat k + 1)%Z with (Z.of_nat start + Z.of_nat (k - start) + 1)%Z by lia.
      apply (splitLargeChunk_keeps _ _ _ _ line); [|done].
      apply lookup_slice; [done|lia|done].
    + rewrite (nonblank_join (slice lines start stop) line);
        [|apply (elem_of_slice _ _ _ k); [done|lia|done]|done].
      apply covers_line_snoc. simpl. lia.
Qed.

Lemma chunkCode_keeps content options :
  keeps_nonblank (split NL content) (chunkCode content options).
Proof.
  unfold chunkCode. set (lines := split NL content).
  set (bs := detectCodeBoundaries lines (filePath options)).
  destruct (0 <? length bs); [|apply chunkByLines_keeps].
  destruct (detectCodeBoundaries_detected lines (filePath options)) as (Hhd & Hlt & _).
  fold bs in Hhd, Hlt.
  pose proof (for_each_inv
                (fun i start chunks =>
                   chunkCode_step lines options start (bs !! S i) chunks) bs
                (fun j chunks =>
                   forall k line, k < default (length lines) (bs !! j) ->
                     lines !! k = Some line -> nonblank line = true ->
                     covers_line chunks (Z.of_nat k + 1))) as H.
  intros k line Hline Hnb.
  assert (Hend : default (length lines) (bs !! length bs) = length lines).
  { by rewrite lookup_ge_None_2. }
  pose proof (lookup_lt_Some _ _ _ Hline) as Hk. rewrite <- Hend in Hk.
  revert k line Hk Hline Hnb. apply H.
  - intros j start chunks Hj Hinv k line Hk.
    apply (chunkCode_step_keeps lines options start (bs !! S j) chunks
             (default (length lines) (bs !! S j))).
    + by destruct (bs !! S j).
    + destruct (bs !! S j) as [e|] eqn:He; [|done]. simpl.
      rewrite Forall_forall in Hlt.
      specialize (Hlt e (list_elem_of_lookup_2 _ _ _ He)). lia.
    + intros k' line' Hk'. apply Hinv. by rewrite Hj.
    + done.
  - intros k line Hk. destruct bs as [|b bs']; [done|].
    simpl in Hhd. injection Hhd as ->. simpl in Hk. lia.
Qed.

(** *** [chunkMarkdown] *)

Lemma chunkMarkdown_step_pending lines options i x st :
  lines !! i = Some x -> md_pending lines i st ->
  md_pending lines (S i) (chunkMarkdown_step options i x st).
Proof.
  intros Hx (Hsi & Hcur & Hpos & Hcov & Hhd & Hsec).
  pose proof (lookup_lt_Some _ _ _ Hx) as Hi.
  set (cs := md_currentChunkStart st) in *.
  assert (Hlen : length (md_currentChunkLines st) = i - cs)
    by (rewrite Hcur, length_slice; lia).
  unfold chunkMarkdown_step. fold cs.
  destruct (test headerPattern x && _) eqn:Hhdr.
  - apply andb_prop in Hhdr as [_ Hne]. apply Nat.ltb_lt in Hne.
    split; [simpl; lia|]. split; [simpl; by rewrite (slice_single lines i x)|].
    split; [simpl; lia|]. simpl. split; [|split].
    + intros k line Hk Hline Hnb.
      destruct (decide (k < cs)) as [Hlt|Hge].
      * specialize (Hcov k line Hlt Hline Hnb).
        destruct (nonblank (join NL _)); [by apply covers_line_app_l|done].
      * rewrite (nonblank_join (md_currentChunkLines st) line);
          [|rewrite Hcur; apply (elem_of_slice _ _ _ k); [done|lia|done]|done].
        apply covers_line_snoc. simpl. lia.
    + intros k line Hk1 Hk2. lia.
    + destruct (nonblank (join NL _)); [|done].
      apply Forall_app. split; [done|]. apply Forall_singleton.
      intros k line Hk Hline. simpl in Hk. apply (Hhd k line); [lia|lia|done].
  - assert (Hx' : forall k line, cs < k -> k < S i -> lines !! k = Some line ->
                    test headerPattern line = false).
    { intros k line Hk1 Hk2 Hline.
      destruct (decide (k < i)) as [Hlt|Hge]; [by apply (Hhd k line)|].
      assert (k = i) as -> by lia. rewrite Hx in Hline. injection Hline as <-.
      apply andb_false_iff in Hhdr as [?|Hempty]; [done|].
      apply Nat.ltb_ge in Hempty. lia. }
    rewrite Hcur, (slice_snoc lines _ i x) by done.
    assert (Hlen' : length (slice lines cs (S i)) = S i - cs)
      by (rewrite length_slice; lia).
    destruct (MAX_CHUNK_CHARS <? _).
    + rewrite Hlen'. set (sp := (S i - cs) / 2).
      assert (Hsp : sp < S i - cs) by (apply Nat.div_lt; lia).
      split; [simpl; lia|]. split; [simpl; unfold slice_from; by rewrite drop_slice|].
      split; [simpl; lia|]. simpl. split; [|split].
      * intros k line Hk Hline Hnb.
        destruct (decide (k < cs)) as [Hlt|Hge].
        -- apply covers_line_app_l. by apply (Hcov k line).
        -- apply covers_line_snoc. simpl. lia.
      * intros k line Hk1 Hk2. apply Hx'; lia.
      * apply Forall_app. split; [done|]. apply Forall_singleton.
        intros k line Hk. simpl in Hk. apply Hx'; lia.
    + split; [simpl; lia|]. split; [done|]. split; [simpl; lia|]. by simpl.
Qed.

Lemma chunkMarkdown_pending content options :
  md_pending (split NL content) (length (split NL content))
    (for_each (chunkMarkdown_step options) 0 (split NL content) (mkMdState [] 0 [])).
Proof.
  apply (for_each_inv (chunkMarkdown_step options) (split NL content)
           (md_pending (split NL content))).
  - intros i x st. apply chunkMarkdown_step_pending.
  - split; [simpl; lia|]. split; [done|]. split; [lia|]. simpl.
    split; [intros k line Hk; lia|]. split; [intros k line Hk1 Hk2; lia|done].
Qed.

Lemma chunkMarkdown_keeps content options :
  keeps_nonblank (split NL content) (chunkMarkdown content options).
Proof.
  destruct (chunkMarkdown_pending content options) as (Hsi & Hcur & _ & Hcov & _).
  unfold chunkMarkdown. set (lines := split NL content) in *.
  set (st := for_each _ _ _ _) in *.
  intros k line Hline Hnb. pose proof (lookup_lt_Some _ _ _ Hline) as Hk.
  destruct (decide (k < md_currentChunkStart st)) as [Hlt|Hge].
  - specialize (Hcov k line Hlt Hline Hnb).
    destruct (0 <? _); [|done]. destruct (nonblank (join NL _)); [by apply covers_line_app_l|done].
  - assert (Hin : line ∈ md_currentChunkLines st).
    { rewrite Hcur. apply (elem_of_slice _ _ _ k); [done|lia|done]. }
    assert (Hlen : 0 < length (md_currentChunkLines st)).
    { rewrite Hcur, length_slice. lia. }
    apply Nat.ltb_lt in Hlen. rewrite Hlen, (nonblank_join _ _ Hin Hnb).
    apply covers_line_snoc. simpl. lia.
Qed.

(** *** What the claims leave open about [chunkFile] *)

(** X7. Every chunk of [chunkFile], for every content and every kind of
    file, holds exactly the text of the lines it names: its range lies
    within the file, and its content is these lines joined by newlines.
    (The range may be empty, with the empty text.) *)
Theorem chunkFile_content_is_its_lines (content : jsstring) (options : ChunkOptions) :
  Forall (fun c =>
            (1 <= start_line c)%Z /\ (start_line c <= end_line c + 1)%Z /\
            (end_line c <= Z.of_nat (length (split NL content)))%Z /\
            Chunker.content c
            = join NL (lines_of_range (split NL content) (start_line c) (end_line c)))
    (chunkFile content options).
Proof. apply chunkFile_covers. Qed.

(** X8. For a file that is not Markdown, the range of every chunk holds at
    least one line: [start_line <= end_line]. *)
Theorem chunkFile_range_not_empty (content : jsstring) (options : ChunkOptions) :
  getFileType (filePath options) <> markdown ->
  Forall (fun c => (1 <= start_line c <= end_line c)%Z /\
                   (end_line c <= Z.of_nat (length (split NL content)))%Z)
    (chunkFile content options).
Proof.
  intros Hty. eapply Forall_impl; [by apply chunkFile_spans|].
  intros c ((H1 & _ & H3 & _) & H2). lia.
Qed.

Lemma chunkFile_range_not_empty_witness :
  Forall (fun c => (1 <= start_line c <= end_line c)%Z /\
                   (end_line c <= Z.of_nat (length (split NL long_first_line)))%Z)
    (chunkFile long_first_line (options_of "a.ts")).
Proof.
  apply (chunkFile_range_not_empty long_first_line (options_of "a.ts")). discriminate.
Defined.

(** X9. No text is lost: every line of the file that is not blank lies in
    the range of at least one chunk, for every kind of file. Only
    stretches of blank lines can be left out. *)
Theorem chunkFile_keeps_nonblank_lines (content : jsstring) (options : ChunkOptions) :
  keeps_nonblank (split NL content) (chunkFile content options).
Proof.
  unfold chunkFile. destruct (getFileType _).
  - apply chunkCode_keeps.
  - apply chunkMarkdown_keeps.
  - unfold chunkConfig. destruct (_ <=? _); [|apply chunkByLines_keeps].
    intros k line Hline _. pose proof (lookup_lt_Some _ _ _ Hline) as Hk.
    eexists. split; [apply list_elem_of_here|]. simpl. lia.
  - apply chunkByLines_keeps.
Qed.

(** X10. A Markdown chunk never runs into the next section: a heading of
    level 1 to 3 can only be the first line of a chunk. *)
Theorem chunkMarkdown_one_section (content : jsstring) (options : ChunkOptions) :
  Forall (one_section (split NL content)) (chunkMarkdown content options).
Proof.
  destruct (chunkMarkdown_pending content options) as (Hsi & Hcur & _ & _ & Hhd & Hsec).
  unfold chunkMarkdown. set (lines := split NL content) in *.
  set (st := for_each _ _ _ _) in *.
  destruct (0 <? _); [|done]. destruct (nonblank (join NL _)); [|done].
  apply Forall_app. split; [done|]. apply Forall_singleton.
  intros k line Hk Hline. simpl in Hk. apply (Hhd k line); [lia|lia|done].
Qed.

(** *** The stamp of a chunk *)

Lemma chunkByLines_stamped lines options ty :
  Forall (stamped options ty) (chunkByLines lines options ty).
Proof.
  unfold chunkByLines.
  apply (for_each_inv (chunkByLines_step (length lines) options ty) lines
           (fun _ st => Forall (stamped options ty) (ls_chunks st))); [|done].
  intros i x st _ Hall. unfold chunkByLines_step.
  destruct (_ || _); [|done]. simpl. destruct (nonblank (join NL _)); [|done].
  apply Forall_app. split; [done|]. by apply Forall_singleton.
Qed.

Lemma splitLargeChunk_stamped lines off options :
  Forall (stamped options code) (splitLargeChunk lines off options).
Proof.
  unfold splitLargeChunk.
  assert (H : Forall (stamped options code)
                (ls_chunks (for_each (splitLargeChunk_step off options) 0 lines
                              (mkLineState [] [] off)))).
  { apply (for_each_inv (splitLargeChunk_step off options) lines
             (fun _ st => Forall (stamped options code) (ls_chunks st))); [|done].
    intros i x st _ Hall. unfold splitLargeChunk_step.
    destruct (_ <=? _); [|done]. simpl.
    apply Forall_app. split; [done|]. by apply Forall_singleton. }
  destruct (_ && _); [|done].
  apply Forall_app. split; [done|]. by apply Forall_singleton.
Qed.

Lemma chunkFile_stamp (content : jsstring) (options : ChunkOptions) :
  Forall (stamped options (getFileType (filePath options))) (chunkFile content options).
Proof.
  unfold chunkFile. destruct (getFileType _).
  - unfold chunkCode. destruct (0 <? _); [|apply chunkByLines_stamped].
    apply (for_each_inv _ _ (fun _ chunks => Forall (stamped options code) chunks)); [|done].
    intros i x st _ Hall. unfold chunkCode_step.
    destruct (_ <? _).
    + apply Forall_app. split; [done|]. apply splitLargeChunk_stamped.
    + destruct (nonblank (join NL _)); [|done].
      apply Forall_app. split; [done|]. by apply Forall_singleton.
  - unfold chunkMarkdown.
    assert (H : Forall (stamped options markdown)
                  (md_chunks (for_each (chunkMarkdown_step options) 0 (split NL content)
                                (mkMdState [] 0 [])))).
    { apply (for_each_inv (chunkMarkdown_step options) (split NL content)
               (fun _ st => Forall (stamped options markdown) (md_chunks st))); [|done].
      intros i x st _ Hall. unfold chunkMarkdown_step.
      destruct (_ && _).
      - simpl. destruct (nonblank (join NL _)); [|done].
        apply Forall_app. split; [done|]. by apply Forall_singleton.
      - destruct (_ <? _); [|done]. simpl.
        apply Forall_app. split; [done|]. by apply Forall_singleton. }
    destruct (0 <? _); [|done]. destruct (nonblank (join NL _)); [|done].
    apply Forall_app. split; [done|]. by apply Forall_singleton.
  - unfold chunkConfig. destruct (_ <=? _); [|apply chunkByLines_stamped].
    by apply Forall_singleton.
  - apply chunkByLines_stamped.
Qed.

(** X11. Every chunk carries the file and project identifiers it was cut
    for, and its type is the type of the file: [code], [markdown],
    [config] or [text]. *)
Theorem chunkFile_stamped (content : jsstring) (options : ChunkOptions) :
  Forall (stamped options (getFileType (filePath options))) (chunkFile content options).
Proof. apply chunkFile_stamp. Qed.

(** *** Boundaries *)

(** X12. Every boundary is line 0 or a line of the file that matches a
    pattern of the language of the file; in particular a file in a
    language without patterns has the single boundary 0. *)
Theorem detectCodeBoundaries_sound (lines : list jsstring) (filePath : jsstring) :
  Forall (fun b => b = 0 \/ candidate filePath lines b)
    (detectCodeBoundaries lines filePath) /\
  (langPatterns filePath = [] -> detectCodeBoundaries lines filePath = [0]).
Proof.
  split.
  - unfold detectCodeBoundaries.
    apply (for_each_inv (detect_step (langPatterns filePath)) lines
             (fun _ bs => Forall (fun b => b = 0 \/ candidate filePath lines b) bs)).
    + intros i x bs Hx Hall.
      destruct (detect_step_cases (langPatterns filePath) i x bs) as [->|(Hp & _ & ->)];
        [done|].
      apply Forall_app. split; [done|]. apply Forall_singleton. right. by exists x.
    + apply Forall_singleton. by left.
  - intros Hnone. apply ChunkerTheorems.detect_no_pattern.
    unfold no_boundary_pattern. rewrite Hnone. by apply Forall_forall.
Qed.

(** *** Small files *)

(** X13. A plain text file of at most [MAX_CHUNK_CHARS] characters is one
    chunk that holds the whole file, from line 1 to its last line; a
    blank one gives no chunk at all. *)
Theorem chunkFile_small_text (content : jsstring) (options : ChunkOptions) :
  getFileType (filePath options) = text ->
  length content <= MAX_CHUNK_CHARS ->
  chunkFile content options
  = if nonblank content
    then [mkChunk (fileId options) (projectId options) content 1
            (Z.of_nat (length (split NL content))) text]
    else [].
Proof.
  intros Hty Hlen. unfold chunkFile, chunkText. rewrite Hty.
  rewrite chunkByLines_small; rewrite ?join_split; try done.
  apply split_not_nil.
Qed.

Lemma chunkFile_small_text_witness :
  chunkFile (str "hello" ++ NL :: str "world") (options_of "notes.txt")
  = [mkChunk (str "F") (str "P") (str "hello" ++ NL :: str "world") 1 2 text].
Proof.
  assert (Hlen : length (str "hello" ++ NL :: str "world") <= MAX_CHUNK_CHARS)
    by (vm_compute; lia).
  exact (chunkFile_small_text (str "hello" ++ NL :: str "world") (options_of "notes.txt")
           eq_refl Hlen).
Defined.

End ChunkerCoverage.

(* ================================================================== *)
(** * The embedding quota *)
(* ================================================================== *)

Module QuotaTheorems.

Import PipelineFacts Scenario.

Section WithPlatform.

Context {number : Type}.
Variable P : Platform number.
Implicit Types e : Env number.

Lemma embeddingCount_put e (t v : Z) (m : gmap jsstring Z) :
  now e = t -> embeddingCount P (set_KV (<[rateKey P "embedding" t := v]> m) e) = v.
Proof.
  intros <-. unfold embeddingCount. cbn [KV now set_KV]. by rewrite lookup_insert_eq.
Qed.

(** X14. The embedding counter moves only when the embedding service has
    answered, and then by exactly the number of texts: a call that fails,
    for lack of quota or because the service fails, leaves the cache as
    it was. The counter never passes the daily limit through
    [generateEmbeddings]. Nothing but the cache and the log of inference
    calls is touched. *)
Theorem generateEmbeddings_accounting (texts : list jsstring) e :
  match generateEmbeddings P texts e with
  | (Returned _, e') =>
      embeddingCount P e' = (embeddingCount P e + Z.of_nat (length texts))%Z /\
      AI_calls e' = AI_calls e ++ (if length texts =? 0 then [] else [EmbedCall texts])
  | (Thrown _, e') => KV e' = KV e
  end /\
  ((embeddingCount P e <= DAILY_EMBEDDING_LIMIT)%Z ->
   (embeddingCount P (snd (generateEmbeddings P texts e)) <= DAILY_EMBEDDING_LIMIT)%Z) /\
  embedding_frame e (snd (generateEmbeddings P texts e)).
Proof.
  cbv [generateEmbeddings bind getRateLimitKey gets ret throw modify AI_run_embedding].
  destruct (length texts =? 0) eqn:Hlen.
  { apply Nat.eqb_eq in Hlen. cbv beta iota. rewrite Hlen, app_nil_r.
    split; [split; [by rewrite Z.add_0_r|done]|]. split; [done|apply embedding_frame_refl]. }
  destruct (_ <? _)%Z eqn:Hq.
  { cbv beta iota. split; [done|]. split; [done|apply embedding_frame_refl]. }
  apply Z.ltb_ge in Hq. fold (embeddingCount P e) in Hq.
  destruct (AI_embedding P _ texts); cbv beta iota; cbn [fst snd].
  - split; [split; [by apply embeddingCount_put|done]|].
    split; [intros _; eapply Z.le_trans; [by apply Z.eq_le_incl, embeddingCount_put|exact Hq]|].
    unfold embedding_frame. by destruct e.
  - split; [done|]. split; [done|]. unfold embedding_frame. by destruct e.
Qed.

(** X15. The report on the embedding quota reads the same counter as the
    check of [generateEmbeddings]: a batch that is not empty is turned
    down for lack of quota, before any call and without any change,
    exactly when it holds more texts than the report gives as
    remaining. *)
Theorem getEmbeddingRateLimit_remaining (texts : list jsstring) e :
  texts <> [] ->
  exists rl,
    getEmbeddingRateLimit P e = (Returned rl, e) /\
    rl_used rl = embeddingCount P e /\ rl_limit rl = DAILY_EMBEDDING_LIMIT /\
    rl_remaining rl = Z.max 0 (DAILY_EMBEDDING_LIMIT - rl_used rl) /\
    ((rl_remaining rl < Z.of_nat (length texts))%Z <->
     exists msg, generateEmbeddings P texts e = (Thrown msg, e)).
Proof.
  intros Hne. eexists. split; [reflexivity|]. cbn [rl_used rl_limit rl_remaining].
  fold (embeddingCount P e). split; [done|]. split; [done|]. split; [done|].
  assert (Hpos : 0 < length texts) by (destruct texts; [done|simpl; lia]).
  split.
  - intros Hrem. eexists. apply generateEmbeddings_quota; [done|].
    generalize dependent (embeddingCount P e). intros. lia.
  - intros (msg & Hrun). revert Hrun.
    cbv [generateEmbeddings bind getRateLimitKey gets ret throw modify AI_run_embedding].
    rewrite (length_eqb_0 _ Hne).
    destruct (_ <? _)%Z eqn:Hq.
    + apply Z.ltb_lt in Hq. fold (embeddingCount P e) in Hq. intros _.
      generalize dependent (embeddingCount P e). intros. lia.
    + destruct (AI_embedding P _ texts); [discriminate|].
      intros H. injection H as _ H. apply (f_equal AI_calls) in H.
      cbn [AI_calls set_AI_calls] in H. apply (f_equal length) in H.
      rewrite length_app in H. simpl in H. lia.
Qed.

End WithPlatform.

(** *** On a concrete store *)

Lemma getEmbeddingRateLimit_remaining_witness :
  five_texts <> [] /\
  exists rl,
    getEmbeddingRateLimit healthy (env_with_count 6998) = (Returned rl, env_with_count 6998) /\
    rl_remaining rl = 2%Z /\
    exists msg, generateEmbeddings healthy five_texts (env_with_count 6998)
                = (Thrown msg, env_with_count 6998).
Proof.
  split; [discriminate|].
  destruct (getEmbeddingRateLimit_remaining healthy five_texts (env_with_count 6998)
              ltac:(discriminate))
    as (rl & Hrl & Hused & _ & Hrem & Hiff).
  assert (Hcount : embeddingCount healthy (env_with_count 6998) = 6998%Z)
    by (vm_compute; reflexivity).
  rewrite Hused, Hcount in Hrem.
  exists rl. split; [exact Hrl|]. split; [exact Hrem|].
  apply Hiff. rewrite Hrem. reflexivity.
Defined.

End QuotaTheorems.

(* ================================================================== *)
(** * Chat completions, vector deletion, deleting a project *)
(* ================================================================== *)

Module ServiceTheorems.

Import PipelineFacts Scenario.

Section WithPlatform.

Context {number : Type}.
Variable P : Platform number.
Implicit Types e : Env number.

Lemma llmCount_put e (t v : Z) (m : gmap jsstring Z) :
  now e = t -> llmCount P (set_KV (<[rateKey P "query" t := v]> m) e) = v.
Proof.
  intros <-. unfold llmCount. cbn [KV now set_KV]. by rewrite lookup_insert_eq.
Qed.

Lemma length_slice_last {A} (l : list A) n : length (slice_last l n) <= n.
Proof. unfold slice_last. rewrite length_drop. lia. Qed.

(** X16. The quota of chat completions: at the limit [generateRAGResponse]
    throws before any call and changes nothing. Below it exactly one
    completion is requested, with the system prompt, at most the last 6
    messages of the history and the question, 8 messages at most; the
    counter moves by one when the service has answered and not at all
    when it fails, and the answer is never empty. *)
Theorem generateRAGResponse_accounting (query : jsstring) (context : list ContextItem)
  (history : list (Role * jsstring)) e :
  ((DAILY_LLM_LIMIT <= llmCount P e)%Z ->
   generateRAGResponse P query context history e
   = (Thrown "Daily LLM query limit reached (3000). Try again tomorrow.", e)) /\
  ((llmCount P e < DAILY_LLM_LIMIT)%Z ->
   AI_calls (snd (generateRAGResponse P query context history e))
   = AI_calls e ++ [ChatCall LLM_MODEL (ragMessages query context history) 1024] /\
   match generateRAGResponse P query context history e with
   | (Returned answer, e') =>
       llmCount P e' = (llmCount P e + 1)%Z /\ answer <> []
   | (Thrown _, e') => KV e' = KV e
   end) /\
  length (ragMessages query context history) <= 8.
Proof.
  split; [|split].
  - intros Hq.
    cbv [generateRAGResponse bind getRateLimitKey gets ret throw modify AI_run_chat].
    fold (llmCount P e). destruct (_ <=? _)%Z eqn:Hc; [done|].
    apply Z.leb_gt in Hc. generalize dependent (llmCount P e). intros. lia.
  - intros Hq.
    cbv [generateRAGResponse bind getRateLimitKey gets ret throw modify AI_run_chat].
    fold (llmCount P e). destruct (_ <=? _)%Z eqn:Hc.
    { apply Z.leb_le in Hc. generalize dependent (llmCount P e). intros. lia. }
    fold (ragMessages query context history).
    destruct (AI_chat P _ _ _) as [response|]; cbv beta iota; cbn [fst snd].
    + split; [done|]. split; [by apply llmCount_put|].
      destruct response as [[|c a]|]; done.
    + done.
  - unfold ragMessages. rewrite !length_app, length_map. simpl.
    pose proof (length_slice_last history 6). lia.
Qed.

(** X17. The report on the quota of chat completions reads the counter that
    [generateRAGResponse] checks: the call is turned down, before any
    request to the model and without any change, exactly when the report
    gives nothing as remaining. *)
Theorem getLLMRateLimit_remaining (query : jsstring) (context : list ContextItem)
  (history : list (Role * jsstring)) e :
  exists rl,
    getLLMRateLimit P e = (Returned rl, e) /\
    rl_used rl = llmCount P e /\ rl_limit rl = DAILY_LLM_LIMIT /\
    rl_remaining rl = Z.max 0 (DAILY_LLM_LIMIT - rl_used rl) /\
    (rl_remaining rl = 0%Z <->
     exists msg, generateRAGResponse P query context history e = (Thrown msg, e)).
Proof.
  eexists. split; [reflexivity|]. cbn [rl_used rl_limit rl_remaining].
  fold (llmCount P e). split; [done|]. split; [done|]. split; [done|].
  cbv [generateRAGResponse bind getRateLimitKey gets ret throw modify AI_run_chat].
  fold (llmCount P e). destruct (_ <=? _)%Z eqn:Hc.
  - apply Z.leb_le in Hc. split; [intros _; by eexists|intros _].
    generalize dependent (llmCount P e). intros. lia.
  - apply Z.leb_gt in Hc. split.
    + generalize dependent (llmCount P e). intros. lia.
    + intros (msg & Hrun).
      destruct (AI_chat P _ _ _); [discriminate|].
      injection Hrun as _ H. apply (f_equal AI_calls) in H.
      cbn [AI_calls set_AI_calls] in H. apply (f_equal length) in H.
      rewrite length_app in H. simpl in H. lia.
Qed.

(** X18. The title of a conversation has between 1 and 50 characters: the
    answer of the model is trimmed and cut at 50, and replaced by
    [New Conversation] when nothing is left. Making a title requests one
    completion from the fast model and does not count against the quota
    of chat completions. *)
Theorem generateConversationTitle_bound (firstMessage : jsstring) e :
  AI_calls (snd (generateConversationTitle P firstMessage e))
  = AI_calls e ++ [ChatCall FAST_MODEL
                     [(system, TitleSystemPrompt); (user, Plain firstMessage)] 20] /\
  KV (snd (generateConversationTitle P firstMessage e)) = KV e /\
  match fst (generateConversationTitle P firstMessage e) with
  | Returned title => 1 <= length title <= 50
  | Thrown _ =>
      AI_chat P (length (AI_calls e)) FAST_MODEL
        [(system, TitleSystemPrompt); (user, Plain firstMessage)] = None
  end.
Proof.
  cbv [generateConversationTitle bind gets ret throw modify AI_run_chat].
  destruct (AI_chat P _ _ _) as [response|] eqn:Hchat; cbv beta iota; cbn [fst snd];
    [|done].
  split; [done|]. split; [done|].
  assert (Hdefault : length (str "New Conversation") = 16) by (vm_compute; reflexivity).
  destruct response as [r|]; [|lia].
  destruct (slice (trim r) 0 50) as [|c t] eqn:Hs; [clear Hs; lia|].
  rewrite <- Hs, length_slice. apply (f_equal length) in Hs.
  rewrite length_slice in Hs. cbn [length] in Hs. lia.
Qed.

(** *** [deleteProjectVectors] *)

Lemma delete_loop_calls fuel i (ids : list jsstring) e :
  exists e',
    for_batches 100 (deleteProjectVectors_step P) fuel i ids tt e = (Returned tt, e') /\
    vectorize_frame e e' /\
    VECTORIZE_calls e'
    = VECTORIZE_calls e ++ List.map DeleteCall (batches_from 100 fuel i ids).
Proof.
  revert i e. induction fuel as [|fuel IH]; intros i e; simpl.
  - exists e. destruct (i <? length ids); simpl; rewrite app_nil_r;
      (split; [done|]); (split; [apply vectorize_frame_refl|done]).
  - destruct (i <? length ids).
    + assert (Hstep : exists e1,
                deleteProjectVectors_step P i (slice ids i (i + 100)) tt e
                = (Returned tt, e1) /\
                vectorize_frame e e1 /\
                VECTORIZE_calls e1
                = VECTORIZE_calls e ++ [DeleteCall (slice ids i (i + 100))]).
      { cbv [deleteProjectVectors_step try_catch bind VECTORIZE_do_deleteByIds gets
             modify ret throw console_error].
        destruct (VECTORIZE_deleteByIds P _ _); eexists;
          (split; [reflexivity|]); (split; [unfold vectorize_frame; by destruct e|]);
          reflexivity. }
      destruct Hstep as (e1 & Hstep & Hframe & Hcalls).
      rewrite (bind_returned _ _ _ _ _ Hstep).
      destruct (IH (i + 100) e1) as (e' & Hrun & Hframe' & Hcalls').
      exists e'. split; [done|]. split; [by eapply vectorize_frame_trans|].
      rewrite Hcalls', Hcalls, <- app_assoc. done.
    + exists e. simpl. rewrite app_nil_r.
      split; [done|]. split; [apply vectorize_frame_refl|done].
Qed.

Lemma deleteProjectVectors_run projectId e :
  exists e',
    deleteProjectVectors P projectId e = (Returned tt, e') /\
    vectorize_frame e e' /\
    VECTORIZE_calls e'
    = VECTORIZE_calls e
      ++ List.map DeleteCall
           (batches 100
              (List.map id (filter (fun c => project_id (chunk c) = projectId)
                              (DB_chunks e)))).
Proof.
  unfold deleteProjectVectors. cbv [bind gets].
  set (chunks := filter _ (DB_chunks e)).
  destruct (length chunks =? 0) eqn:Hlen.
  - apply length_zero_nil in Hlen. rewrite Hlen. exists e. simpl. rewrite app_nil_r.
    split; [done|]. split; [apply vectorize_frame_refl|done].
  - apply delete_loop_calls.
Qed.

(** X19. [deleteProjectVectors] never throws: it asks the vector index to
    delete the identifiers of all chunk rows of the project, in batches
    of at most 100 that are all attempted whether or not earlier ones
    failed, and makes no call at all for a project without chunks. It
    touches nothing but the vector index, the log of its calls and the
    console. *)
Theorem deleteProjectVectors_calls (projectId : jsstring) e :
  let ids := List.map id (filter (fun c => project_id (chunk c) = projectId)
                            (DB_chunks e)) in
  exists e',
    deleteProjectVectors P projectId e = (Returned tt, e') /\
    VECTORIZE_calls e' = VECTORIZE_calls e ++ List.map DeleteCall (batches 100 ids) /\
    concat (batches 100 ids) = ids /\
    Forall (fun b => length b <= 100) (batches 100 ids) /\
    vectorize_frame e e'.
Proof.
  intros ids. destruct (deleteProjectVectors_run projectId e) as (e' & Hrun & Hframe & Hcalls).
  exists e'. split; [done|]. split; [done|].
  split; [apply batches_concat; lia|]. split; [apply batches_from_bounded|done].
Qed.

(** *** [handleDeleteProject] *)

Lemma filter_filter_neg {A} (Q : A -> Prop) `{!forall x, Decision (Q x)} (l : list A) :
  filter Q (filter (fun x => ~ Q x) l) = [].
Proof.
  induction l as [|x l IH]; [done|].
  rewrite (filter_cons (fun x => ~ Q x)). destruct (decide (~ Q x)) as [Hx|Hx]; [|done].
  rewrite filter_cons. by destruct (decide (Q x)).
Qed.

Lemma filter_idemp {A} (Q : A -> Prop) `{!forall x, Decision (Q x)} (l : list A) :
  filter Q (filter Q l) = filter Q l.
Proof.
  induction l as [|x l IH]; [done|].
  rewrite filter_cons. destruct (decide (Q x)) as [Hx|Hx]; [|done].
  rewrite filter_cons. destruct (decide (Q x)); [by rewrite IH|done].
Qed.

Lemma filter_all {A} (Q : A -> Prop) `{!forall x, Decision (Q x)} (l : list A) :
  (forall x, Q x) -> filter Q l = l.
Proof.
  intros HQ. induction l as [|x l IH]; [done|].
  rewrite filter_cons. destruct (decide (Q x)) as [Hx|Hx]; [by rewrite IH|].
  destruct (Hx (HQ x)).
Qed.

Lemma map_detach (projectId : jsstring) (l : list Conversation) :
  List.map (fun c =>
    if bool_decide (c_project_id c = Some projectId)
    then mkConversation (c_id c) None (c_title c) (c_message_count c) (c_created_at c)
    else c) (filter (fun c => c_project_id c <> Some projectId) l)
  = filter (fun c => c_project_id c <> Some projectId) l.
Proof.
  induction l as [|c l IH]; [done|].
  rewrite filter_cons. destruct (decide (c_project_id c <> Some projectId)) as [Hc|Hc]; [|done].
  simpl. rewrite IH. by rewrite bool_decide_eq_false_2.
Qed.

(** X20. [handleDeleteProject] answers 404 for an unknown identifier and
    changes nothing. For a project that exists it answers with success
    whether or not the vector index accepted the deletions, and removes
    from the tables exactly the rows of the project. *)
Theorem handleDeleteProject_removes (projectId : jsstring) e :
  match projectById e projectId with
  | None => handleDeleteProject P projectId e = (Returned (Err 404 "Project not found"), e)
  | Some _ =>
      exists e', handleDeleteProject P projectId e = (Returned (Ok projectId), e') /\
                 deleted projectId e e'
  end.
Proof.
  unfold handleDeleteProject. cbv [bind gets].
  destruct (projectById e projectId) as [p|]; [|done].
  destruct (deleteProjectVectors_run projectId e) as (e1 & Hdel & Hframe & _).
  rewrite Hdel. unfold vectorize_frame in Hframe.
  eexists. split; [reflexivity|].
  cbv [DB_delete_chunks_of DB_delete_files_of DB_delete_conversations_of DB_delete_project
       bind modify].
  cbn [fst snd]. rewrite Hframe. unfold deleted.
  cbn [DB_projects DB_files DB_chunks DB_conversations DB_messages KV AI_calls
       set_projects set_files set_chunks set_conversations set_messages set_console
       set_VECTORIZE set_VECTORIZE_calls].
  rewrite (filter_filter_neg (fun f => f_project_id f = projectId)).
  rewrite (filter_idemp (fun f => f_project_id f <> projectId)).
  rewrite map_detach. simpl List.map at 1.
  rewrite (filter_all (fun c => arr_includes [] (file_id (chunk c)) = false)) by done.
  done.
Qed.

End WithPlatform.

End ServiceTheorems.

(* ================================================================== *)
(** * The index handler: what it writes *)
(* ================================================================== *)

Module IndexFacts.

Import PipelineFacts.

Section WithPlatform.

Context {number : Type}.
Variable P : Platform number.
Implicit Types e : Env number.

(** *** The rows built for the files *)

Lemma processFiles_processed projectId (todo : list (jsstring * jsstring)) a0 f0 p0 e :
  exists n fileRecords parts,
    processFiles P projectId todo (a0, f0, p0) e
    = (Returned (a0 ++ concat parts, f0 ++ fileRecords, (p0 + Z.of_nat (length todo))%Z),
       set_uuids n e) /\
    processed P projectId todo fileRecords parts.
Proof.
  revert a0 f0 p0 e. induction todo as [|[path content] todo IH]; intros a0 f0 p0 e.
  - exists (uuids e), [], []. simpl. rewrite !app_nil_r, Z.add_0_r.
    split; [|constructor]. cbv [ret]. by destruct e.
  - cbn [processFiles]. rewrite (bind_returned _ _ _ _ _ (generateId_spec P e)).
    destruct (assignChunkIds_spec P
                (chunkFile content (mkOptions (randomUUID P (uuids e)) projectId path))
                (set_uuids (S (uuids e)) e)) as (n1 & rows & Hrun & Hrows).
    rewrite (bind_returned _ _ _ _ _ Hrun).
    unfold unixNow at 1. cbv [bind gets ret].
    match goal with |- context [processFiles P projectId todo (?a, ?f, ?p) ?e1] =>
      destruct (IH a f p e1) as (n & fileRecords & parts & Hrest & Hproc)
    end.
    rewrite Hrest. eexists n, (_ :: fileRecords), (rows :: parts).
    split.
    + simpl. rewrite <- !app_assoc. simpl. do 3 f_equal. lia.
    + by constructor.
Qed.

Lemma processed_length projectId todo rows parts :
  processed P projectId todo rows parts ->
  length rows = length todo /\ length parts = length todo.
Proof. induction 1; simpl; [done|lia]. Qed.

Lemma processed_paths projectId todo rows parts :
  processed P projectId todo rows parts ->
  List.map f_relative_path rows = List.map fst todo /\
  Forall (fun f => f_project_id f = projectId) rows.
Proof.
  induction 1 as [|path content todo f fs cs css H1 H2 H3 H4 H5 _ [IH1 IH2]]; [done|].
  simpl. rewrite H2, IH1. split; [done|]. by constructor.
Qed.

Lemma processed_chunks projectId todo rows parts :
  processed P projectId todo rows parts ->
  Forall (fun c => project_id (chunk c) = projectId /\
                   file_id (chunk c) ∈ List.map f_id rows) (concat parts) /\
  fold_right Z.add 0%Z (List.map f_chunk_count rows) = Z.of_nat (length (concat parts)).
Proof.
  induction 1 as [|path content todo f fs cs css H1 H2 H3 H4 H5 _ [IH1 IH2]]; [done|].
  simpl. split.
  - apply Forall_app. split.
    + pose proof (ChunkerCoverage.chunkFile_stamp content
                    (mkOptions (f_id f) projectId path)) as Hst.
      rewrite <- H5 in Hst. apply (proj1 (List.Forall_map chunk _ cs)) in Hst.
      eapply Forall_impl; [exact Hst|]. intros c (Hf & Hp & _). simpl in *.
      split; [done|]. rewrite Hf. apply list_elem_of_here.
    + eapply Forall_impl; [exact IH1|]. intros c [? ?]. split; [done|].
      by apply list_elem_of_further.
  - rewrite length_app, IH2, H4. lia.
Qed.

(** *** Inserting rows leaves the other tables alone *)

Lemma insert_files_loop_frame fuel i (rows : list File) e r e' :
  for_batches 100 DB_insert_files fuel i rows tt e = (r, e') ->
  e' = set_files (DB_files e') e.
Proof.
  revert i e. induction fuel as [|fuel IH]; intros i e; simpl.
  - destruct (i <? length rows); intros [= _ <-]; by destruct e.
  - destruct (i <? length rows); [|intros [= _ <-]; by destruct e].
    unfold bind at 1. unfold DB_insert_files at 1. cbv [bind gets modify throw].
    destruct (insert_files _ _) as [table'|]; [|intros [= _ <-]; by destruct e].
    intros H. apply IH in H. rewrite H. by destruct e.
Qed.

Lemma insert_chunks_loop_frame fuel i (rows : list Chunk) e r e' :
  for_batches 100 DB_insert_chunks fuel i rows tt e = (r, e') ->
  e' = set_chunks (DB_chunks e') e.
Proof.
  revert i e. induction fuel as [|fuel IH]; intros i e; simpl.
  - destruct (i <? length rows); intros [= _ <-]; by destruct e.
  - destruct (i <? length rows); [|intros [= _ <-]; by destruct e].
    unfold bind at 1. unfold DB_insert_chunks at 1. cbv [bind gets modify throw].
    destruct (insert_chunks _ _) as [table'|]; [|intros [= _ <-]; by destruct e].
    intros H. apply IH in H. rewrite H. by destruct e.
Qed.

Lemma insert_files_any (rows : list File) e r e' :
  (if 0 <? length rows then for_batches 100 DB_insert_files (length rows) 0 rows tt
   else ret tt) e = (r, e') ->
  e' = set_files (DB_files e') e.
Proof.
  destruct (0 <? length rows); [apply insert_files_loop_frame|].
  intros [= _ <-]. by destruct e.
Qed.

Lemma insert_chunks_any (rows : list Chunk) e r e' :
  (if 0 <? length rows then for_batches 100 DB_insert_chunks (length rows) 0 rows tt
   else ret tt) e = (r, e') ->
  e' = set_chunks (DB_chunks e') e.
Proof.
  destruct (0 <? length rows); [apply insert_chunks_loop_frame|].
  intros [= _ <-]. by destruct e.
Qed.

(** *** Frames *)

Lemma embedding_frame_same e e' :
  embedding_frame e e' ->
  same_tables e e' /\ now e' = now e /\ VECTORIZE_calls e' = VECTORIZE_calls e /\
  VECTORIZE e' = VECTORIZE e /\ uuids e' = uuids e.
Proof. intros ->. done. Qed.

Lemma vectorize_frame_same e e' :
  vectorize_frame e e' ->
  same_tables e e' /\ now e' = now e /\ KV e' = KV e /\ AI_calls e' = AI_calls e /\
  uuids e' = uuids e.
Proof. intros ->. done. Qed.

(** *** [indexFiles] *)

Lemma indexFiles_complete (body : IndexRequest) (projectId : jsstring) (am : bool)
  (existing : gset jsstring) e (progress : IndexProgress) ins errs e' :
  indexFiles P body projectId am existing e
  = (Returned (jsonResponse (IndexBody progress None ins errs)), e') ->
  exists rows parts,
    processed P projectId (filesToProcess body am existing) rows parts /\
    DB_files e' = DB_files e ++ rows /\
    DB_chunks e' = DB_chunks e ++ concat parts /\
    DB_projects e'
    = List.map (fun p => if JsString.eqb (p_id p) projectId
                         then with_indexed (if (errs =? 0)%Z then Ready else Error)
                                (if am then (p_file_count p + Z.of_nat (length rows))%Z
                                 else Z.of_nat (length rows))
                                (now e / 1000)%Z p
                         else p) (DB_projects e) /\
    DB_conversations e' = DB_conversations e /\ DB_messages e' = DB_messages e /\
    now e' = now e /\
    progress
    = mkProgress projectId (if (errs =? 0)%Z then Complete else Failed)
        (Z.of_nat (length (filesToProcess body am existing)))
        (Z.of_nat (length (filesToProcess body am existing)))
        (Z.of_nat (length (concat parts)))
        (if (0 <? errs)%Z then Some errs else None).
Proof.
  intros H. unfold indexFiles in H.
  apply bind_inv in H as (u & e1 & Hskip & H).
  assert (He1 : e1 = set_console (console e1) e).
  { destruct (am && _).
    - cbv [console_error modify] in Hskip. injection Hskip as _ <-. by destruct e.
    - injection Hskip as _ <-. by destruct e. }
  clear Hskip.
  set (todo := filesToProcess body am existing) in *.
  destruct (length todo =? 0) eqn:Hlen.
  { apply bind_inv in H as (u2 & e2 & _ & H). cbv [ret] in H. discriminate H. }
  apply bind_inv in H as (a & e2 & Hproc & H).
  destruct (processFiles_processed projectId todo [] [] 0%Z e1)
    as (n & rows & parts & Hp & Hprocessed).
  rewrite Hp in Hproc. injection Hproc as <- <-. cbn [app] in H.
  apply bind_inv in H as (u3 & e3 & Hfiles & H). apply insert_files_all in Hfiles.
  apply bind_inv in H as (u4 & e4 & Hchunks & H). apply insert_chunks_all in Hchunks.
  apply bind_inv in H as (vr & e5 & Hembed & H).
  destruct (embed_loop P projectId rows (length (concat parts)) 0 (concat parts) [] e4)
    as (flags & vr' & e5' & Hrun & Hframe5 & _).
  rewrite Hrun in Hembed. injection Hembed as <- <-.
  apply bind_inv in H as (counts & e6 & Hupsert & H).
  destruct (upsertVectors_spec P vr' e5') as (e6' & Hrun6 & _ & Hframe6 & _).
  rewrite Hrun6 in Hupsert. injection Hupsert as <- <-.
  destruct (upsert_counts _ _ _) as [inserted errors]. cbn [fst snd] in *.
  apply bind_inv in H as (t & e7 & Hnow & H).
  cbv [unixNow bind gets ret] in Hnow. injection Hnow as <- <-.
  apply bind_inv in H as (u8 & e8 & Hfinal & H).
  cbv [ret] in H. injection H as <- <- <- <-.
  assert (Hproj8 : DB_projects e8
            = List.map (fun p => if JsString.eqb (p_id p) projectId
                                 then with_indexed (if (errors =? 0)%Z then Ready else Error)
                                        (if am then (p_file_count p + Z.of_nat (length rows))%Z
                                         else Z.of_nat (length rows))
                                        (now e6' / 1000)%Z p
                                 else p) (DB_projects e6') /\
          e8 = set_projects (DB_projects e8) e6').
  { destruct am; cbv [DB_update_project modify] in Hfinal;
      injection Hfinal as _ <-; split; try done; by destruct e6'. }
  clear Hfinal. destruct Hproj8 as [Hproj8 He8].
  destruct (embedding_frame_same _ _ Hframe5)
    as ((Hp5 & Hf5 & Hc5 & Hv5 & Hm5) & Hn5 & _).
  destruct (vectorize_frame_same _ _ Hframe6)
    as ((Hp6 & Hf6 & Hc6 & Hv6 & Hm6) & Hn6 & _).
  subst e3 e4.
  cbn [DB_projects DB_files DB_chunks DB_conversations DB_messages now
       set_chunks set_files set_uuids] in Hp5, Hf5, Hc5, Hv5, Hm5, Hn5.
  assert (Hfields : DB_projects e1 = DB_projects e /\ DB_files e1 = DB_files e /\
                    DB_chunks e1 = DB_chunks e /\
                    DB_conversations e1 = DB_conversations e /\
                    DB_messages e1 = DB_messages e /\ now e1 = now e)
    by (rewrite He1; done).
  destruct Hfields as (Hp1 & Hf1 & Hc1 & Hv1 & Hm1 & Hn1).
  assert (Hf8 : DB_files e8 = DB_files e6' /\ DB_chunks e8 = DB_chunks e6' /\
                DB_conversations e8 = DB_conversations e6' /\
                DB_messages e8 = DB_messages e6' /\ now e8 = now e6')
    by (rewrite He8; done).
  destruct Hf8 as (Hf8 & Hc8 & Hv8 & Hm8 & Hn8).
  exists rows, parts. split; [done|].
  split; [by rewrite Hf8, Hf6, Hf5, Hf1|].
  split; [by rewrite Hc8, Hc6, Hc5, Hc1|].
  split; [by rewrite Hproj8, Hp6, Hp5, Hp1, Hn6, Hn5, Hn1|].
  split; [by rewrite Hv8, Hv6, Hv5, Hv1|].
  split; [by rewrite Hm8, Hm6, Hm5, Hm1|].
  split; [by rewrite Hn8, Hn6, Hn5, Hn1|].
  done.
Qed.

Lemma bind_thrown_inv {A B} (m : @M number A) (k : A -> @M number B) e msg e2 :
  bind m k e = (Thrown msg, e2) ->
  m e = (Thrown msg, e2) \/
  exists a e1, m e = (Returned a, e1) /\ k a e1 = (Thrown msg, e2).
Proof.
  unfold bind. destruct (m e) as [[a|msg'] e1] eqn:Hm; intros H.
  - right. by exists a, e1.
  - left. by injection H as -> ->.
Qed.

(** A failure of [indexFiles] can only come from the insertion of the
    rows: the table of projects is as it was. *)
Lemma indexFiles_thrown (body : IndexRequest) (projectId : jsstring) (am : bool)
  (existing : gset jsstring) e msg e' :
  indexFiles P body projectId am existing e = (Thrown msg, e') ->
  DB_projects e' = DB_projects e.
Proof.
  intros H. unfold indexFiles in H.
  apply bind_thrown_inv in H as [H|(u & e1 & Hskip & H)].
  { destruct (am && _); discriminate H. }
  assert (He1 : DB_projects e1 = DB_projects e).
  { destruct (am && _).
    - cbv [console_error modify] in Hskip. by injection Hskip as _ <-.
    - by injection Hskip as _ <-. }
  clear Hskip.
  set (todo := filesToProcess body am existing) in *.
  destruct (length todo =? 0).
  { apply bind_thrown_inv in H as [H|(u2 & e2 & _ & H)]; discriminate H. }
  destruct (processFiles_processed projectId todo [] [] 0%Z e1)
    as (n & rows & parts & Hp & _).
  apply bind_thrown_inv in H as [H|(a & e2 & Hproc & H)].
  { rewrite Hp in H. discriminate H. }
  rewrite Hp in Hproc. injection Hproc as <- <-. cbn [app] in H.
  apply bind_thrown_inv in H as [H|(u3 & e3 & Hfiles & H)].
  { apply insert_files_any in H. rewrite H. cbn [DB_projects set_files set_uuids]. exact He1. }
  apply insert_files_any in Hfiles.
  apply bind_thrown_inv in H as [H|(u4 & e4 & Hchunks & H)].
  { apply insert_chunks_any in H. rewrite H, Hfiles.
    cbn [DB_projects set_files set_chunks set_uuids]. exact He1. }
  destruct (embed_loop P projectId rows (length (concat parts)) 0 (concat parts) [] e4)
    as (flags & vr' & e5' & Hrun & _).
  apply bind_thrown_inv in H as [H|(vr & e5 & Hembed & H)].
  { rewrite Hrun in H. discriminate H. }
  destruct (upsertVectors_spec P vr e5) as (e6' & Hrun6 & _).
  apply bind_thrown_inv in H as [H|(counts & e6 & Hupsert & H)].
  { rewrite Hrun6 in H. discriminate H. }
  destruct counts as [inserted errors].
  apply bind_thrown_inv in H as [H|(t & e7 & _ & H)]; [discriminate H|].
  apply bind_thrown_inv in H as [H|(u8 & e8 & _ & H)]; [|discriminate H].
  destruct am; discriminate H.
Qed.

Lemma indexFiles_status (body : IndexRequest) (projectId : jsstring) (am : bool)
  (existing : gset jsstring) e resp e' :
  indexFiles P body projectId am existing e = (Returned resp, e') ->
  r_status resp = 200%Z.
Proof.
  intros H. unfold indexFiles in H.
  apply bind_inv in H as (u & e1 & _ & H).
  destruct (length _ =? 0).
  { apply bind_inv in H as (u2 & e2 & _ & H). cbv [ret] in H. by injection H as <- _. }
  apply bind_inv in H as ([[allChunks fileRecords] processed] & e2 & _ & H).
  apply bind_inv in H as (u3 & e3 & _ & H).
  apply bind_inv in H as (u4 & e4 & _ & H).
  apply bind_inv in H as (vr & e5 & _ & H).
  apply bind_inv in H as ([inserted errors] & e6 & _ & H).
  apply bind_inv in H as (t & e7 & _ & H).
  apply bind_inv in H as (u8 & e8 & _ & H).
  cbv [ret] in H. by injection H as <- _.
Qed.

(** With nothing to process [indexFiles] only marks the project as
    ready. *)
Lemma indexFiles_nothing (body : IndexRequest) (projectId : jsstring) (am : bool)
  (existing : gset jsstring) e :
  filesToProcess body am existing = [] ->
  exists log,
    indexFiles P body projectId am existing e
    = (Returned (jsonResponse
                   (IndexBody (mkProgress projectId Complete 0 0 0 None)
                      (Some "No new files to index"%string) 0 0)),
       set_projects
         (List.map (fun p => if JsString.eqb (p_id p) projectId
                             then with_status Ready p else p) (DB_projects e))
         (set_console log e)).
Proof.
  intros Hnone. unfold indexFiles. rewrite Hnone.
  cbv [bind console_error modify ret DB_update_project].
  destruct (am && _); eexists; cbn [length Nat.eqb]; cbv beta iota.
  - reflexivity.
  - instantiate (1 := console e). by destruct e.
Qed.

(** *** The first part of [handleIndex] *)

Lemma find_update (path projectId : jsstring) (f : Project -> Project)
  (table : list Project) p :
  (forall q, p_path (f q) = p_path q) ->
  List.find (fun q => JsString.eqb (p_path q) path) table = Some p ->
  p_id p = projectId ->
  List.find (fun q => JsString.eqb (p_path q) path)
    (List.map (fun q => if JsString.eqb (p_id q) projectId then f q else q) table)
  = Some (f p).
Proof.
  intros Hf Hfind Hid. induction table as [|q table IH]; [done|].
  cbn [List.find List.map] in *.
  destruct (JsString.eqb (p_path q) path) eqn:Hq.
  - injection Hfind as ->.
    assert (Hb : JsString.eqb (p_id p) projectId = true)
      by (unfold JsString.eqb; by apply bool_decide_eq_true_2).
    assert (Hq' : JsString.eqb (p_path (f p)) path = true) by (by rewrite Hf).
    by rewrite Hb, Hq'.
  - destruct (JsString.eqb (p_id q) projectId).
    + assert (Hq' : JsString.eqb (p_path (f q)) path = false) by (by rewrite Hf).
      rewrite Hq'. by apply IH.
    + rewrite Hq. by apply IH.
Qed.

Lemma find_snoc {A} (f : A -> bool) (l : list A) (x : A) :
  List.find f l = None -> f x = true -> List.find f (l ++ [x]) = Some x.
Proof.
  intros Hnone Hx. induction l as [|a l IH]; simpl in *; [by rewrite Hx|].
  destruct (f a); [done|]. by apply IH.
Qed.

Lemma reindex_run (body : IndexRequest) (projectId : jsstring) e :
  exists e1,
    vectorize_frame e e1 /\
    bind (deleteProjectVectors P projectId)
      (fun _ => bind (DB_clear_project projectId)
         (fun _ => indexFiles P body projectId false ∅)) e
    = indexFiles P body projectId false ∅ (cleared projectId e1).
Proof.
  destruct (deleteProjectVectors_spec P projectId e) as (e1 & dels & Hdel & Hframe & _).
  exists e1. split; [done|]. rewrite (bind_returned _ _ _ _ _ Hdel). reflexivity.
Qed.

Lemma handleIndex_try_reindex (body : IndexRequest) e p :
  project_path body <> [] -> files body <> [] -> append body = false ->
  projectByPath e (project_path body) = Some p ->
  force body = true \/ indexedRecently (now e) (p_last_indexed_at p) = false ->
  exists e1,
    vectorize_frame e e1 /\
    handleIndex_try P body e
    = indexFiles P body (p_id p) false ∅ (cleared (p_id p) e1).
Proof.
  intros Hpath Hfiles Happend Hproj Hmode.
  destruct (reindex_run body (p_id p) e) as (e1 & Hframe & Hrun).
  exists e1. split; [done|]. rewrite <- Hrun. unfold handleIndex_try.
  rewrite (length_eqb_0 _ Hpath), (length_eqb_0 _ Hfiles), Happend.
  cbv [DB_project_by_path]. unfold bind at 1. cbv [gets]. rewrite Hproj.
  destruct (force body); [done|]. destruct Hmode as [?|Hnot]; [done|].
  cbn [negb]. unfold bind at 1. cbv [gets]. by rewrite Hnot.
Qed.

(** The three ways through the first part of [handleIndex] for a
    request with a path and files: the project was indexed recently; the
    row of a new project cannot be inserted; or the files are indexed,
    for a project whose row says [indexing]. *)
Lemma handleIndex_try_cases (body : IndexRequest) e :
  project_path body <> [] -> files body <> [] ->
  (exists p,
     handleIndex_try P body e
     = (Returned (jsonResponse
                    (RecentlyIndexedBody recentMessage (p_id p)
                       (default 0%Z (p_last_indexed_at p)))), e)) \/
  (exists msg e1,
     handleIndex_try P body e = (Thrown msg, e1) /\
     projectByPath e1 (project_path body) = None) \/
  (exists projectId existing e1 q,
     handleIndex_try P body e = indexFiles P body projectId (append body) existing e1 /\
     projectByPath e1 (project_path body) = Some q /\
     p_id q = projectId /\ p_status q = Indexing).
Proof.
  intros Hpath Hfiles.
  destruct (projectByPath e (project_path body)) as [p|] eqn:Hproj.
  - assert (Hre : forall e1, vectorize_frame e e1 ->
              exists q, projectByPath (cleared (p_id p) e1) (project_path body) = Some q /\
                        p_id q = p_id p /\ p_status q = Indexing).
    { intros e1 Hframe. destruct (vectorize_frame_same _ _ Hframe) as ((Hp1 & _) & _).
      eexists. split; [|split].
      - unfold projectByPath, cleared. cbn [DB_projects set_projects]. rewrite Hp1.
        apply (find_update _ _ (fun q => mkProject (p_id q) (p_name q) (p_path q) Indexing 0
                                           (p_last_indexed_at q) (p_created_at q)));
          [done|exact Hproj|done].
      - done.
      - done. }
    destruct (append body) eqn:Happend.
    + right. right. exists (p_id p), (storedPaths e (p_id p)).
      eexists _, (with_status Indexing p).
      split; [by apply handleIndex_try_append|]. split; [|done].
      unfold projectByPath. cbn [DB_projects set_projects].
      by apply (find_update _ _ (with_status Indexing)).
    + destruct (force body) eqn:Hforce.
      * destruct (handleIndex_try_reindex body e p Hpath Hfiles Happend Hproj)
          as (e1 & Hframe & Hrun); [by left|].
        right. right. destruct (Hre e1 Hframe) as (q & Hq).
        by exists (p_id p), ∅, (cleared (p_id p) e1), q.
      * destruct (indexedRecently (now e) (p_last_indexed_at p)) eqn:Hrecent.
        -- left. exists p. unfold handleIndex_try.
           rewrite (length_eqb_0 _ Hpath), (length_eqb_0 _ Hfiles), Happend, Hforce.
           cbv [DB_project_by_path bind gets ret negb]. by rewrite Hproj, Hrecent.
        -- destruct (handleIndex_try_reindex body e p Hpath Hfiles Happend Hproj)
             as (e1 & Hframe & Hrun); [by right|].
           right. right. destruct (Hre e1 Hframe) as (q & Hq).
           by exists (p_id p), ∅, (cleared (p_id p) e1), q.
  - unfold handleIndex_try.
    rewrite (length_eqb_0 _ Hpath), (length_eqb_0 _ Hfiles). cbv zeta.
    assert (Hfind : DB_project_by_path (project_path body) e = (Returned None, e))
      by (cbv [DB_project_by_path gets]; by rewrite Hproj).
    rewrite (bind_returned _ _ _ _ _ Hfind).
    rewrite (bind_returned _ _ _ _ _ (generateId_spec P e)).
    set (pid := randomUUID P (uuids e)). set (e0 := set_uuids (S (uuids e)) e).
    match goal with |- context [DB_insert_project pid ?n _] => set (name := n) end.
    destruct (existsb (fun p => JsString.eqb (p_id p) pid
                                || JsString.eqb (p_path p) (project_path body))
                (DB_projects e0)) eqn:Hex.
    + assert (Hins : DB_insert_project pid name (project_path body) e0
                     = (Thrown "D1_ERROR: UNIQUE constraint failed", e0))
        by (cbv [DB_insert_project bind gets unixNow ret]; by rewrite Hex).
      rewrite (bind_thrown _ _ _ _ _ Hins).
      right. left. eexists _, _. split; [reflexivity|]. exact Hproj.
    + assert (Hins : DB_insert_project pid name (project_path body) e0
                     = (Returned tt,
                        set_projects
                          (DB_projects e0
                           ++ [mkProject pid name (project_path body) Indexing 0 None
                                 (now e0 / 1000)%Z]) e0))
        by (cbv [DB_insert_project bind gets unixNow ret modify]; by rewrite Hex).
      rewrite (bind_returned _ _ _ _ _ Hins).
      right. right. eexists _, ∅, _, _. split; [reflexivity|].
      split.
      { unfold projectByPath. cbn [DB_projects set_projects].
        apply find_snoc; [exact Hproj|]. cbn [p_path]. unfold JsString.eqb.
        by apply bool_decide_eq_true_2. }
      done.
Qed.

End WithPlatform.

End IndexFacts.

(* ================================================================== *)
(** * The index handler: validation, re-indexing, failure *)
(* ================================================================== *)

Module IndexTheorems.

Import PipelineFacts IndexFacts Scenario Scenario2.

Section WithPlatform.

Context {number : Type}.
Variable P : Platform number.
Implicit Types e : Env number.

Lemma handleIndex_run (body : IndexRequest) e :
  handleIndex P body e
  = match handleIndex_try P body e with
    | (Returned resp, e1) => (Returned resp, e1)
    | (Thrown msg, e1) =>
        (Returned (errorResponse msg 500),
         set_console (console e1 ++ [LogHandlerError msg]) e1)
    end.
Proof.
  unfold handleIndex, try_catch. by destruct (handleIndex_try P body e) as [[resp|msg] e1].
Qed.


(** X22. An append that brings no new file, because every eligible path is
    already stored, makes no call to any service and writes no row: it
    marks the project as [ready], whatever its status was, without
    touching its file count or the time of its last indexing. *)
Theorem handleIndex_append_nothing_new (body : IndexRequest) e p :
  project_path body <> [] -> files body <> [] -> append body = true ->
  projectByPath e (project_path body) = Some p ->
  filesToProcess body true (storedPaths e (p_id p)) = [] ->
  exists log,
    handleIndex P body e
    = (Returned (jsonResponse
                   (IndexBody (mkProgress (p_id p) Complete 0 0 0 None)
                      (Some "No new files to index"%string) 0 0)),
       set_projects
         (List.map (fun q => if JsString.eqb (p_id q) (p_id p)
                             then with_status Ready q else q) (DB_projects e))
         (set_console log e)).
Proof.
  intros Hpath Hfiles Happend Hproj Hnone.
  rewrite handleIndex_run, (handleIndex_try_append P body e p) by done.
  match goal with |- context [indexFiles P body _ _ _ ?e1] =>
    destruct (indexFiles_nothing P body (p_id p) true (storedPaths e (p_id p)) e1 Hnone)
      as (log & ->)
  end.
  exists log. f_equal. cbn [DB_projects set_projects set_console].
  rewrite List.map_map.
  replace (List.map _ (DB_projects e))
    with (List.map (fun q => if JsString.eqb (p_id q) (p_id p)
                             then with_status Ready q else q) (DB_projects e)).
  - by destruct e.
  - apply List.map_ext. intros q.
    destruct (JsString.eqb (p_id q) (p_id p)) eqn:Hq; cbn [p_id with_status]; by rewrite Hq.
Qed.

(** *** Indexing a project anew *)

Lemma filter_none {A} (Q : A -> Prop) `{!forall x, Decision (Q x)} (l : list A) :
  Forall (fun x => ~ Q x) l -> filter Q l = [].
Proof.
  induction 1 as [|x l Hx _ IH]; [done|].
  rewrite filter_cons. by destruct (decide (Q x)).
Qed.

Lemma filter_every {A} (Q : A -> Prop) `{!forall x, Decision (Q x)} (l : list A) :
  Forall Q l -> filter Q l = l.
Proof.
  induction 1 as [|x l Hx _ IH]; [done|].
  rewrite filter_cons. destruct (decide (Q x)); [by rewrite IH|done].
Qed.

Lemma Forall_filter_in {A} (Q : A -> Prop) `{!forall x, Decision (Q x)} (l : list A) :
  Forall Q (filter Q l).
Proof. apply Forall_forall. intros x Hx. by apply list_elem_of_filter in Hx as [? _]. Qed.

Lemma find_id_update (projectId : jsstring) (f : Project -> Project)
  (table : list Project) :
  (forall q, p_id (f q) = p_id q) ->
  List.find (fun q => JsString.eqb (p_id q) projectId)
    (List.map (fun q => if JsString.eqb (p_id q) projectId then f q else q) table)
  = option_map f (List.find (fun q => JsString.eqb (p_id q) projectId) table).
Proof.
  intros Hf. induction table as [|q table IH]; [done|].
  cbn [List.find List.map]. destruct (JsString.eqb (p_id q) projectId) eqn:Hq.
  - by rewrite Hf, Hq.
  - by rewrite Hq.
Qed.

Lemma find_id_some (projectId : jsstring) (table : list Project) p :
  p ∈ table -> p_id p = projectId ->
  exists q, List.find (fun q => JsString.eqb (p_id q) projectId) table = Some q.
Proof.
  intros Hin Hid.
  destruct (List.find _ table) as [q|] eqn:Hfind; [by exists q|].
  apply list_elem_of_In in Hin. pose proof (List.find_none _ _ Hfind p Hin) as Hp.
  cbn in Hp. unfold JsString.eqb in Hp. by rewrite bool_decide_eq_true_2 in Hp.
Qed.

Lemma handleIndex_reindex_tables (body : IndexRequest) e p
  (progress : IndexProgress) ins errs e' :
  project_path body <> [] -> files body <> [] -> append body = false ->
  projectByPath e (project_path body) = Some p ->
  force body = true \/ indexedRecently (now e) (p_last_indexed_at p) = false ->
  handleIndex P body e
  = (Returned (jsonResponse (IndexBody progress None ins errs)), e') ->
  exists rows parts,
    processed P (p_id p) (List.filter (fun f => shouldIndexFile (fst f)) (files body))
      rows parts /\
    DB_files e' = filter (fun f => f_project_id f <> p_id p) (DB_files e) ++ rows /\
    DB_chunks e'
    = filter (fun c =>
                arr_includes
                  (List.map f_id (filter (fun f => f_project_id f = p_id p) (DB_files e)))
                  (file_id (chunk c)) = false)
        (filter (fun c => project_id (chunk c) <> p_id p) (DB_chunks e))
      ++ concat parts /\
    DB_projects e'
    = List.map (fun q => if JsString.eqb (p_id q) (p_id p)
                         then reindexed (if (errs =? 0)%Z then Ready else Error)
                                (Z.of_nat (length rows)) (now e / 1000)%Z q
                         else q) (DB_projects e) /\
    DB_conversations e' = DB_conversations e /\ DB_messages e' = DB_messages e /\
    ip_total_chunks progress = Z.of_nat (length (concat parts)).
Proof.
  intros Hpath Hfiles Happend Hproj Hmode Hrun.
  apply handleIndex_returned in Hrun.
  destruct (handleIndex_try_reindex P body e p Hpath Hfiles Happend Hproj Hmode)
    as (e1 & Hframe & Htry).
  rewrite Htry in Hrun. apply indexFiles_complete in Hrun
    as (rows & parts & Hproc & Hf & Hc & Hp & Hv & Hm & Hn & Hprog).
  destruct (vectorize_frame_same _ _ Hframe)
    as ((Hp1 & Hf1 & Hc1 & Hv1 & Hm1) & Hn1 & _).
  unfold cleared in Hf, Hc, Hp, Hv, Hm.
  cbn [DB_projects DB_files DB_chunks DB_conversations DB_messages now
       set_projects set_chunks set_files] in Hf, Hc, Hp, Hv, Hm.
  rewrite Hf1 in Hf. rewrite Hf1, Hc1 in Hc. rewrite Hp1 in Hp.
  rewrite Hv1 in Hv. rewrite Hm1 in Hm.
  exists rows, parts. split; [exact Hproc|]. split; [exact Hf|]. split; [exact Hc|].
  split; [|split; [exact Hv|split; [exact Hm|by rewrite Hprog]]].
  rewrite Hp, List.map_map. apply List.map_ext. intros q.
  unfold cleared. cbn [now set_projects set_chunks set_files]. rewrite Hn1.
  destruct (JsString.eqb (p_id q) (p_id p)) eqn:Hq; cbn [p_id]; by rewrite Hq.
Qed.

(** X23. A full re-index, forced or of a project not indexed within the last
    hour, replaces the rows of the project: its old file rows and the
    chunk rows that name the project or one of its old files are gone,
    one file row is written for each eligible file of the request with
    the chunks that [chunkFile] cuts from it, and the rows of other
    projects, the conversations and the messages are as they were. The
    row of the project gets the status, the number of files written and
    the time of the request. *)
Theorem handleIndex_reindex_replaces (body : IndexRequest) e p
  (progress : IndexProgress) ins errs e' :
  project_path body <> [] -> files body <> [] -> append body = false ->
  projectByPath e (project_path body) = Some p ->
  force body = true \/ indexedRecently (now e) (p_last_indexed_at p) = false ->
  handleIndex P body e
  = (Returned (jsonResponse (IndexBody progress None ins errs)), e') ->
  exists rows parts,
    processed P (p_id p) (List.filter (fun f => shouldIndexFile (fst f)) (files body))
      rows parts /\
    DB_files e' = filter (fun f => f_project_id f <> p_id p) (DB_files e) ++ rows /\
    DB_chunks e'
    = filter (fun c =>
                arr_includes
                  (List.map f_id (filter (fun f => f_project_id f = p_id p) (DB_files e)))
                  (file_id (chunk c)) = false)
        (filter (fun c => project_id (chunk c) <> p_id p) (DB_chunks e))
      ++ concat parts /\
    DB_projects e'
    = List.map (fun q => if JsString.eqb (p_id q) (p_id p)
                         then reindexed (if (errs =? 0)%Z then Ready else Error)
                                (Z.of_nat (length rows)) (now e / 1000)%Z q
                         else q) (DB_projects e) /\
    DB_conversations e' = DB_conversations e /\ DB_messages e' = DB_messages e.
Proof.
  intros Hpath Hfiles Happend Hproj Hmode Hrun.
  destruct (handleIndex_reindex_tables body e p progress ins errs e'
              Hpath Hfiles Happend Hproj Hmode Hrun)
    as (rows & parts & H1 & H2 & H3 & H4 & H5 & H6 & _).
  by exists rows, parts.
Qed.

(** X24. After a full re-index the progress report of the project agrees
    with the tables: the files counted in the table are as many as the
    file count of the project row, namely the eligible files of the
    request, and the chunks counted are those reported by the
    request. *)
Theorem handleIndexProgress_after_reindex (body : IndexRequest) e p
  (progress : IndexProgress) ins errs e' :
  project_path body <> [] -> files body <> [] -> append body = false ->
  projectByPath e (project_path body) = Some p ->
  force body = true \/ indexedRecently (now e) (p_last_indexed_at p) = false ->
  handleIndex P body e
  = (Returned (jsonResponse (IndexBody progress None ins errs)), e') ->
  let n := Z.of_nat (length (List.filter (fun f => shouldIndexFile (fst f)) (files body))) in
  handleIndexProgress (p_id p) e'
  = (Returned (Ok (mkProgressReport (p_id p) (if (errs =? 0)%Z then Ready else Error)
                     n n (ip_total_chunks progress) (Some (now e / 1000)%Z))), e').
Proof.
  intros Hpath Hfiles Happend Hproj Hmode Hrun n.
  destruct (handleIndex_reindex_tables body e p progress ins errs e'
              Hpath Hfiles Happend Hproj Hmode Hrun)
    as (rows & parts & Hproc & Hf & Hc & Hp & _ & _ & Htotal).
  destruct (processed_length P _ _ _ _ Hproc) as [Hrows _].
  destruct (processed_paths P _ _ _ _ Hproc) as [_ Hown].
  destruct (processed_chunks P _ _ _ _ Hproc) as [Hstamp _].
  assert (Hin : p ∈ DB_projects e).
  { apply List.find_some in Hproj as [Hin _]. by apply list_elem_of_In. }
  destruct (find_id_some (p_id p) (DB_projects e) p Hin eq_refl) as (q & Hq).
  unfold handleIndexProgress. cbv [bind gets ret]. unfold projectById.
  rewrite Hp, (find_id_update (p_id p)) by done. rewrite Hq. cbn [option_map].
  unfold countFiles, countChunks. rewrite Hf, Hc, !filter_app.
  rewrite (filter_none (fun f => f_project_id f = p_id p)
             (filter (fun f => f_project_id f <> p_id p) (DB_files e)))
    by apply Forall_filter_in.
  rewrite (filter_every (fun f => f_project_id f = p_id p) rows) by done.
  rewrite (filter_none (fun c => project_id (chunk c) = p_id p)
             (filter _ (filter (fun c => project_id (chunk c) <> p_id p) (DB_chunks e)))).
  2:{ apply Forall_forall. intros c Hc'.
      apply list_elem_of_filter in Hc' as [_ Hc'].
      by apply list_elem_of_filter in Hc' as [? _]. }
  rewrite (filter_every (fun c => project_id (chunk c) = p_id p) (concat parts)).
  2:{ eapply Forall_impl; [exact Hstamp|]. by intros c [? _]. }
  cbn [app reindexed p_status p_file_count p_last_indexed_at].
  subst n. by rewrite Htotal, Hrows.
Qed.

(** X25. When [handleIndex] answers 500, the request had a path and files,
    and the row of the project, if there is one, is left with the status
    [indexing]: the handler does not reset it. *)
Theorem handleIndex_failure_leaves_indexing (body : IndexRequest) e resp e' :
  handleIndex P body e = (Returned resp, e') -> r_status resp = 500%Z ->
  project_path body <> [] /\ files body <> [] /\
  forall q, projectByPath e' (project_path body) = Some q -> p_status q = Indexing.
Proof.
  intros Hrun Hstatus.
  destruct (project_path body) as [|c path] eqn:Hpath.
  { unfold handleIndex, try_catch, handleIndex_try in Hrun. rewrite Hpath in Hrun.
    cbv [ret] in Hrun. injection Hrun as <- _. discriminate Hstatus. }
  destruct (files body) as [|f fs] eqn:Hfiles.
  { unfold handleIndex, try_catch, handleIndex_try in Hrun. rewrite Hpath, Hfiles in Hrun.
    cbv [ret] in Hrun. injection Hrun as <- _. discriminate Hstatus. }
  split; [done|]. split; [done|].
  assert (Hp : project_path body <> []) by (by rewrite Hpath).
  assert (Hf : files body <> []) by (by rewrite Hfiles).
  rewrite <- Hpath. rewrite handleIndex_run in Hrun.
  destruct (handleIndex_try_cases P body e Hp Hf)
    as [(p & Htry)|[(msg & e1 & Htry & Hnone)|(pid & existing & e1 & q0 & Htry & Hq0 & _ & Hst)]];
    rewrite Htry in Hrun.
  - injection Hrun as <- _. discriminate Hstatus.
  - injection Hrun as _ <-. intros q Hq.
    unfold projectByPath in Hq, Hnone. cbn [DB_projects set_console] in Hq. congruence.
  - destruct (indexFiles P body pid (append body) existing e1) as [[resp'|msg] e2] eqn:Hidx.
    + apply indexFiles_status in Hidx. injection Hrun as <- _. congruence.
    + apply indexFiles_thrown in Hidx. injection Hrun as _ <-. intros q Hq.
      unfold projectByPath in Hq, Hq0. cbn [DB_projects set_console] in Hq.
      rewrite Hidx in Hq. congruence.
Qed.

(** X26. The rows that a request writes belong together: one file row for
    each file processed, and for each of them the chunks that
    [chunkFile] cuts from the content sent, under fresh identifiers.
    Every chunk row names the project and one of the file rows written
    by the same request, and the chunk counts of the file rows add up to
    the number of chunk rows, which is the number reported. *)
Theorem handleIndex_rows (body : IndexRequest) e (progress : IndexProgress) ins errs e' :
  handleIndex P body e
  = (Returned (jsonResponse (IndexBody progress None ins errs)), e') ->
  exists existing before_files before_chunks rows parts,
    processed P (ip_project_id progress) (filesToProcess body (append body) existing)
      rows parts /\
    DB_files e' = before_files ++ rows /\
    DB_chunks e' = before_chunks ++ concat parts /\
    ip_processed_files progress = Z.of_nat (length rows) /\
    ip_total_chunks progress = Z.of_nat (length (concat parts)) /\
    Forall (fun c => project_id (chunk c) = ip_project_id progress /\
                     file_id (chunk c) ∈ List.map f_id rows) (concat parts) /\
    fold_right Z.add 0%Z (List.map f_chunk_count rows) = ip_total_chunks progress.
Proof.
  intros Hrun. apply handleIndex_returned in Hrun.
  destruct (project_path body) as [|c path] eqn:Hpath.
  { unfold handleIndex_try in Hrun. rewrite Hpath in Hrun. discriminate Hrun. }
  destruct (files body) as [|f fs] eqn:Hfiles.
  { unfold handleIndex_try in Hrun. rewrite Hpath, Hfiles in Hrun. discriminate Hrun. }
  assert (Hp : project_path body <> []) by (by rewrite Hpath).
  assert (Hf : files body <> []) by (by rewrite Hfiles).
  destruct (handleIndex_try_cases P body e Hp Hf)
    as [(p & Htry)|[(msg & e1 & Htry & _)|(pid & existing & e1 & q0 & Htry & _)]];
    rewrite Htry in Hrun; try discriminate Hrun.
  apply indexFiles_complete in Hrun
    as (rows & parts & Hproc & Hfl & Hc & _ & _ & _ & _ & Hprog).
  destruct (processed_length P _ _ _ _ Hproc) as [Hrows _].
  destruct (processed_chunks P _ _ _ _ Hproc) as [Hstamp Hsum].
  exists existing, (DB_files e1), (DB_chunks e1), rows, parts.
  rewrite Hprog. cbn [ip_project_id ip_processed_files ip_total_chunks].
  rewrite Hrows. by repeat split.
Qed.

End WithPlatform.

End IndexTheorems.

(* ================================================================== *)
(** * The index handler on concrete requests *)
(* ================================================================== *)

Module IndexWitnesses.
Import PipelineFacts IndexFacts IndexTheorems Scenario Scenario2.

(** *** On concrete runs *)

Lemma handleIndex_append_nothing_new_witness :
  projectByPath indexed_env (project_path append_known_request) = Some indexed_project /\
  filesToProcess append_known_request true (storedPaths indexed_env (str "id-0")) = [] /\
  exists log,
    handleIndex healthy append_known_request indexed_env
    = (Returned (jsonResponse
                   (IndexBody (mkProgress (str "id-0") Complete 0 0 0 None)
                      (Some "No new files to index"%string) 0 0)),
       set_projects
         (List.map (fun q => if JsString.eqb (p_id q) (str "id-0")
                             then with_status Ready q else q) (DB_projects indexed_env))
         (set_console log indexed_env)).
Proof.
  assert (Hp : projectByPath indexed_env (project_path append_known_request)
               = Some indexed_project) by (vm_compute; reflexivity).
  assert (Hn : filesToProcess append_known_request true
                 (storedPaths indexed_env (p_id indexed_project)) = [])
    by (vm_compute; reflexivity).
  split; [exact Hp|]. split; [exact Hn|].
  exact (handleIndex_append_nothing_new healthy append_known_request indexed_env
           indexed_project ltac:(discriminate) ltac:(discriminate) eq_refl Hp Hn).
Defined.

Lemma handleIndex_reindex_replaces_witness :
  handleIndex healthy force_request indexed_env
  = (Returned (jsonResponse
                 (IndexBody (mkProgress (str "id-0") Complete 2 2 2 None) None 2 0)),
     run (handleIndex healthy force_request) indexed_env) /\
  exists rows,
    DB_files (run (handleIndex healthy force_request) indexed_env) = [] ++ rows /\
    List.map f_relative_path rows = [str "a.ts"; str "notes.txt"].
Proof.
  assert (Hp : projectByPath indexed_env (project_path force_request)
               = Some indexed_project) by (vm_compute; reflexivity).
  assert (Hr : handleIndex healthy force_request indexed_env
               = (Returned (jsonResponse
                              (IndexBody (mkProgress (str "id-0") Complete 2 2 2 None)
                                 None 2 0)),
                  run (handleIndex healthy force_request) indexed_env))
    by (vm_compute; reflexivity).
  split; [exact Hr|].
  destruct (handleIndex_reindex_replaces healthy force_request indexed_env indexed_project
              _ _ _ _ ltac:(discriminate) ltac:(discriminate) eq_refl Hp
              (or_introl eq_refl) Hr)
    as (rows & parts & Hproc & Hf & _).
  exists rows. split.
  - rewrite Hf. f_equal.
  - destruct (processed_paths healthy _ _ _ _ Hproc) as [Hpaths _]. exact Hpaths.
Defined.

Lemma handleIndexProgress_after_reindex_witness :
  handleIndexProgress (str "id-0") (run (handleIndex healthy force_request) indexed_env)
  = (Returned (Ok (mkProgressReport (str "id-0") Ready 2 2 2 (Some 1700000000%Z))),
     run (handleIndex healthy force_request) indexed_env).
Proof.
  assert (Hp : projectByPath indexed_env (project_path force_request)
               = Some indexed_project) by (vm_compute; reflexivity).
  assert (Hr : handleIndex healthy force_request indexed_env
               = (Returned (jsonResponse
                              (IndexBody (mkProgress (str "id-0") Complete 2 2 2 None)
                                 None 2 0)),
                  run (handleIndex healthy force_request) indexed_env))
    by (vm_compute; reflexivity).
  exact (handleIndexProgress_after_reindex healthy force_request indexed_env
           indexed_project _ _ _ _ ltac:(discriminate) ltac:(discriminate) eq_refl Hp
           (or_introl eq_refl) Hr).
Defined.

Lemma handleIndex_failure_leaves_indexing_witness :
  r_status (@errorResponse Z "D1_ERROR: UNIQUE constraint failed" 500) = 500%Z /\
  forall q,
    projectByPath (run (handleIndex healthy duplicate_request) empty_env)
      (project_path duplicate_request) = Some q ->
    p_status q = Indexing.
Proof.
  assert (Hr : handleIndex healthy duplicate_request empty_env
               = (Returned (errorResponse "D1_ERROR: UNIQUE constraint failed" 500),
                  run (handleIndex healthy duplicate_request) empty_env))
    by (vm_compute; reflexivity).
  split; [reflexivity|].
  exact (proj2 (proj2 (handleIndex_failure_leaves_indexing healthy duplicate_request
                         empty_env _ _ Hr eq_refl))).
Defined.

Lemma handleIndex_rows_witness :
  exists rows parts,
    (exists before, DB_files indexed_env = before ++ rows) /\
    (exists before, DB_chunks indexed_env = before ++ concat parts) /\
    Z.of_nat (length rows) = 2%Z /\ Z.of_nat (length (concat parts)) = 2%Z /\
    fold_right Z.add 0%Z (List.map f_chunk_count rows) = 2%Z.
Proof.
  assert (Hr : handleIndex healthy first_request empty_env
               = (Returned (jsonResponse
                              (IndexBody (mkProgress (str "id-0") Complete 2 2 2 None)
                                 None 2 0)), indexed_env))
    by (vm_compute; reflexivity).
  destruct (handleIndex_rows healthy first_request empty_env _ _ _ _ Hr)
    as (existing & bf & bc & rows & parts & _ & Hf & Hc & Hpf & Htc & _ & Hsum).
  cbn [ip_processed_files ip_total_chunks] in Hpf, Htc, Hsum.
  exists rows, parts. split; [by exists bf|]. split; [by exists bc|].
  split; [by rewrite <- Hpf|]. split; [by rewrite <- Htc|exact Hsum].
Defined.

End IndexWitnesses.

(* ================================================================== *)
(** * The index handler: a new project *)
(* ================================================================== *)

Module IndexCreation.

Import PipelineFacts IndexFacts IndexTheorems Scenario Scenario2.

Section WithPlatform.

Context {number : Type}.
Variable P : Platform number.
Implicit Types e : Env number.

Lemma map_update_fresh (projectId : jsstring) (f : Project -> Project)
  (table : list Project) :
  existsb (fun p => JsString.eqb (p_id p) projectId) table = false ->
  List.map (fun p => if JsString.eqb (p_id p) projectId then f p else p) table = table.
Proof.
  induction table as [|p table IH]; [done|]. simpl.
  intros H. apply orb_false_iff in H as [-> Ht]. by rewrite IH.
Qed.

Lemma existsb_project_id (projectId path : jsstring) (table : list Project) :
  existsb (fun p => JsString.eqb (p_id p) projectId || JsString.eqb (p_path p) path) table
  = false ->
  existsb (fun p => JsString.eqb (p_id p) projectId) table = false /\
  projectId ∉ List.map p_id table.
Proof.
  induction table as [|p table IH]; simpl; [intros _; split; [done|apply not_elem_of_nil]|].
  intros H. apply orb_false_iff in H as [Hp Ht]. apply orb_false_iff in Hp as [Hid _].
  destruct (IH Ht) as [IH1 IH2]. rewrite Hid, IH1. split; [done|].
  apply not_elem_of_cons. split; [|done].
  apply bool_decide_eq_false in Hid. congruence.
Qed.

(** X27. A request for a path that has no project, when it indexes files,
    creates the row of the project: under a fresh identifier, which is
    the one reported, with the name given in the request or else the
    last segment of the path, and with the status, the number of eligible
    files and the time of the request. The other rows of the table are
    as they were. For such a request [append] makes no difference. *)
Theorem handleIndex_new_project (body : IndexRequest) e (progress : IndexProgress)
  ins errs e' :
  project_path body <> [] -> files body <> [] ->
  projectByPath e (project_path body) = None ->
  handleIndex P body e
  = (Returned (jsonResponse (IndexBody progress None ins errs)), e') ->
  let projectId := randomUUID P (uuids e) in
  let eligible := List.filter (fun f => shouldIndexFile (fst f)) (files body) in
  ip_project_id progress = projectId /\
  (projectId ∉ List.map p_id (DB_projects e)) /\
  DB_projects e'
  = DB_projects e
    ++ [mkProject projectId
          match project_name body with
          | Some ((_ :: _) as n) => n
          | _ => extractProjectName (project_path body)
          end
          (project_path body) (if (errs =? 0)%Z then Ready else Error)
          (Z.of_nat (length eligible)) (Some (now e / 1000)%Z) (now e / 1000)%Z] /\
  ip_total_files progress = Z.of_nat (length eligible) /\
  ip_processed_files progress = Z.of_nat (length eligible).
Proof.
  intros Hpath Hfiles Hnone Hrun.
  rewrite (handleIndex_run P) in Hrun.
  destruct (handleIndex_try P body e) as [[resp|msg] e1] eqn:Htry; [|discriminate Hrun].
  injection Hrun as -> ->.
  revert Htry. unfold handleIndex_try.
  rewrite (length_eqb_0 _ Hpath), (length_eqb_0 _ Hfiles).
  cbv [DB_project_by_path]. unfold bind at 1. cbv [gets]. rewrite Hnone.
  rewrite (bind_returned _ _ _ _ _ (generateId_spec P _)).
  unfold bind at 1. cbv [DB_insert_project bind gets unixNow ret throw modify].
  cbn [DB_projects set_uuids now].
  destruct (existsb _ _) eqn:Hex; [discriminate|].
  apply existsb_project_id in Hex as [Hex Hfresh].
  intros Hrun. apply indexFiles_complete in Hrun
    as (rows & parts & Hproc & _ & _ & Hp & _ & _ & _ & Hprog).
  destruct (processed_length P _ _ _ _ Hproc) as [Hrows _].
  assert (Htodo : filesToProcess body (append body) ∅
                  = List.filter (fun f => shouldIndexFile (fst f)) (files body)).
  { unfold filesToProcess. rewrite size_empty. cbn. by rewrite andb_false_r. }
  rewrite Htodo in Hrows, Hprog.
  split; [by rewrite Hprog|]. split; [exact Hfresh|].
  split.
  - rewrite Hp. cbn [DB_projects set_projects set_uuids now].
    rewrite List.map_app, (map_update_fresh _ _ _ Hex). cbn [List.map p_id].
    unfold JsString.eqb. rewrite bool_decide_eq_true_2 by done.
    unfold with_indexed. cbn [p_id p_name p_path p_created_at p_file_count].
    rewrite Hrows. by destruct (append body).
  - by rewrite Hprog.
Qed.

End WithPlatform.

Lemma handleIndex_new_project_witness :
  DB_projects indexed_env
  = [mkProject (str "id-0") (str "proj") proj Ready 2 (Some 1700000000%Z) 1700000000%Z].
Proof.
  assert (Hr : handleIndex healthy first_request empty_env
               = (Returned (jsonResponse
                              (IndexBody (mkProgress (str "id-0") Complete 2 2 2 None)
                                 None 2 0)), indexed_env))
    by (vm_compute; reflexivity).
  destruct (handleIndex_new_project healthy first_request empty_env _ _ _ _
              ltac:(discriminate) ltac:(discriminate) eq_refl Hr)
    as (_ & _ & Hp & _).
  rewrite Hp. vm_compute. reflexivity.
Defined.

End IndexCreation.

(* ================================================================== *)
(** * The query handler, step by step *)
(* ================================================================== *)

Module QueryFacts.

Import PipelineFacts.

Ltac fields :=
  unfold set_projects, set_files, set_chunks, set_conversations, set_messages, set_KV,
    set_VECTORIZE, set_AI_calls, set_VECTORIZE_calls, set_uuids, set_console in *;
  cbn [DB_projects DB_files DB_chunks DB_conversations DB_messages KV VECTORIZE
       AI_calls VECTORIZE_calls uuids now console] in *.

Section WithPlatform.

Context {number : Type}.
Variable P : Platform number.
Implicit Types e : Env number.

Lemma rateKey_types (t t' : Z) : rateKey P "embedding" t <> rateKey P "query" t'.
Proof. unfold rateKey. intros H. apply app_inv_head in H. discriminate. Qed.

(** [generateQueryEmbedding], step by step. *)
Lemma generateQueryEmbedding_run (query : jsstring) e :
  generateQueryEmbedding P query e
  = if (DAILY_EMBEDDING_LIMIT <? embeddingCount P e + 1)%Z
    then (Thrown "Daily embedding limit reached (7000). Try again tomorrow.", e)
    else match AI_embedding P (length (AI_calls e)) [query] with
         | Some data =>
             (Returned (head data),
              set_KV (<[rateKey P "embedding" (now e) := (embeddingCount P e + 1)%Z]> (KV e))
                (set_AI_calls (AI_calls e ++ [EmbedCall [query]]) e))
         | None =>
             (Thrown "AI.run failed", set_AI_calls (AI_calls e ++ [EmbedCall [query]]) e)
         end.
Proof.
  cbv [generateQueryEmbedding generateEmbeddings bind getRateLimitKey gets ret throw modify
       AI_run_embedding embeddingCount].
  cbn [length Nat.eqb Z.of_nat Pos.of_succ_nat].
  destruct (_ <? _)%Z; [done|]. cbn [AI_calls set_AI_calls KV now].
  by destruct (AI_embedding P _ _).
Qed.

(** [searchVectors], step by step. *)
Lemma searchVectors_run (v : option (list number)) (topK : Z) (projectId : option jsstring) e :
  exists filter_project,
    searchVectors P v topK projectId e
    = match VECTORIZE_query P (length (VECTORIZE_calls e)) v topK filter_project with
      | Some ms =>
          (Returned ms,
           set_VECTORIZE_calls (VECTORIZE_calls e ++ [QueryCall v topK filter_project]) e)
      | None =>
          (Thrown "VECTORIZE.query failed",
           set_VECTORIZE_calls (VECTORIZE_calls e ++ [QueryCall v topK filter_project]) e)
      end.
Proof.
  exists (match projectId with Some ((_ :: _) as p) => Some p | _ => None end).
  cbv [searchVectors VECTORIZE_do_query bind gets modify ret throw].
  cbn [VECTORIZE_calls set_VECTORIZE_calls].
  by destruct (VECTORIZE_query P _ _ _ _).
Qed.

Lemma handleQuery_inv (body : QueryRequest) e resp e' :
  handleQuery P body e = (Returned resp, e') ->
  handleQuery_try P body e = (Returned resp, e') \/
  exists msg e1,
    handleQuery_try P body e = (Thrown msg, e1) /\ resp = errorResponse msg 500 /\
    e' = set_console (console e1 ++ [LogHandlerError msg]) e1.
Proof.
  unfold handleQuery, try_catch.
  destruct (handleQuery_try P body e) as [[r|msg] e1]; [intros H; by left|].
  cbv [bind console_error modify ret]. intros H. injection H as <- <-.
  right. by exists msg, e1.
Qed.

(** [generateConversationTitle] makes one call to the fast model. *)
Lemma generateConversationTitle_cases (firstMessage : jsstring) e :
  let e1 := set_AI_calls
              (AI_calls e ++ [ChatCall FAST_MODEL
                                [(system, TitleSystemPrompt); (user, Plain firstMessage)] 20])
              e in
  (exists title, generateConversationTitle P firstMessage e = (Returned title, e1)) \/
  generateConversationTitle P firstMessage e = (Thrown "AI.run failed", e1).
Proof.
  cbv [generateConversationTitle AI_run_chat bind gets modify ret throw].
  cbn [AI_calls set_AI_calls].
  destruct (AI_chat P _ _ _); [left; by eexists|by right].
Qed.

(** [generateRAGResponse]: refused, failed or answered. *)
Lemma generateRAGResponse_cases (query : jsstring) (context : list ContextItem)
  (history : list (Role * jsstring)) e :
  let e1 := set_AI_calls
              (AI_calls e ++ [ChatCall LLM_MODEL (ragMessages query context history) 1024])
              e in
  (generateRAGResponse P query context history e
   = (Thrown "Daily LLM query limit reached (3000). Try again tomorrow.", e) /\
   (DAILY_LLM_LIMIT <= llmCount P e)%Z) \/
  generateRAGResponse P query context history e = (Thrown "AI.run failed", e1) \/
  (exists answer,
     generateRAGResponse P query context history e
     = (Returned answer,
        set_KV (<[rateKey P "query" (now e) := (llmCount P e + 1)%Z]> (KV e)) e1)).
Proof.
  cbv [generateRAGResponse AI_run_chat bind getRateLimitKey gets modify ret throw].
  fold (llmCount P e). fold (ragMessages query context history).
  destruct (_ <=? _)%Z eqn:Hq.
  { left. split; [done|]. by apply Z.leb_le. }
  right. cbn [AI_calls set_AI_calls KV now].
  destruct (AI_chat P _ _ _); [right; by eexists|by left].
Qed.

Lemma llmCount_embedding e (v : Z) (calls : list AICall) :
  llmCount P (set_KV (<[rateKey P "embedding" (now e) := v]> (KV e)) (set_AI_calls calls e))
  = llmCount P e.
Proof.
  unfold llmCount. cbn [KV now set_KV set_AI_calls].
  rewrite lookup_insert_ne; [done|apply rateKey_types].
Qed.

Lemma existsb_id_false (x : jsstring) (table : list Conversation) :
  existsb (fun c => JsString.eqb (c_id c) x) table = false ->
  x ∉ List.map c_id table.
Proof.
  induction table as [|c table IH]; simpl; [intros _; apply not_elem_of_nil|].
  intros H. apply orb_false_iff in H as [Hc Ht].
  apply not_elem_of_cons. split; [|by apply IH].
  apply bool_decide_eq_false in Hc. congruence.
Qed.

(** The step of [handleQuery] that continues the conversation named by
    the request or opens a new one. *)
Lemma start_conversation_inv (body : QueryRequest) e2 o e3 :
  match
    match q_conversation_id body with
    | Some ((_ :: _) as c) => Some c
    | _ => None
    end
  with
  | Some c =>
      bind (gets (fun e => conversationHistory e c)) (fun history => ret (history, c))
  | None =>
      bind (generateId P) (fun currentConversationId =>
      bind (generateConversationTitle P (q_query body)) (fun title =>
      bind unixNow (fun t =>
      bind (gets DB_conversations) (fun table =>
      bind (if existsb (fun c => JsString.eqb (c_id c) currentConversationId) table
            then throw "D1_ERROR: UNIQUE constraint failed"
            else modify (set_conversations
                           (table ++ [mkConversation currentConversationId
                                        match q_project_id body with
                                        | Some ((_ :: _) as p) => Some p
                                        | _ => None
                                        end title 0 t])))
        (fun _ => ret ([], currentConversationId))))))
  end e2 = (o, e3) ->
  match o with
  | Returned started =>
      exists opened,
        DB_messages e3 = DB_messages e2 /\ KV e3 = KV e2 /\ now e3 = now e2 /\
        DB_conversations e3 = DB_conversations e2 ++ opened /\
        match q_conversation_id body with
        | Some ((_ :: _) as c) =>
            started.2 = c /\ opened = [] /\ AI_calls e3 = AI_calls e2
        | _ =>
            started.2 = randomUUID P (uuids e2) /\
            (started.2 ∉ List.map c_id (DB_conversations e2)) /\
            AI_calls e3
            = AI_calls e2
              ++ [ChatCall FAST_MODEL
                    [(system, TitleSystemPrompt); (user, Plain (q_query body))] 20] /\
            exists title,
              opened = [mkConversation started.2
                          match q_project_id body with
                          | Some ((_ :: _) as p) => Some p
                          | _ => None
                          end title 0 (now e2 / 1000)%Z]
        end
  | Thrown msg => msg = "AI.run failed"%string \/
                  msg = "D1_ERROR: UNIQUE constraint failed"%string
  end.
Proof.
  destruct (q_conversation_id body) as [[|c0 c]|].
  2: { cbv [bind gets ret]. intros H. injection H as <- <-. exists [].
       by rewrite app_nil_r. }
  all: rewrite (bind_returned _ _ _ _ _ (generateId_spec P _));
    destruct (generateConversationTitle_cases (q_query body)
                (set_uuids (S (uuids e2)) e2)) as [[title Ht]|Ht];
    [rewrite (bind_returned _ _ _ _ _ Ht)
    |rewrite (bind_thrown _ _ _ _ _ Ht); intros H; injection H as <- <-; by left];
    cbv [bind unixNow gets ret throw modify]; fields;
    destruct (existsb _ _) eqn:Hex; intros H; injection H as <- <-; [by right|]; fields;
    eexists; (split; [done|]); (split; [done|]); (split; [done|]); (split; [done|]);
    (split; [done|]); (split; [by apply existsb_id_false|]); (split; [done|by exists title]).
Qed.

Lemma map_eq_nil_inv {A B} (f : A -> B) (l : list A) : List.map f l = [] -> l = [].
Proof. by destruct l. Qed.

End WithPlatform.
End QueryFacts.

(* ================================================================== *)
(** * The query handler: what a request leaves behind *)
(* ================================================================== *)

Module QueryTheorems.

Import PipelineFacts IndexFacts QueryFacts Scenario Scenario2.

Section WithPlatform.

Context {number : Type}.
Variable P : Platform number.
Implicit Types e : Env number.

(** X28. An answer without sources is always the fixed message that nothing
    was found. It is given when the vector search matches nothing; it
    has cost one embedding and no chat completion, and nothing is
    written to the tables: no conversation and no message is stored,
    also when the request named no conversation and a new identifier is
    returned for one. *)
Theorem handleQuery_nothing_found (body : QueryRequest) e (answer cid : jsstring) e' :
  handleQuery P body e = (Returned (jsonResponse (QueryBody answer [] cid)), e') ->
  answer = notFoundAnswer /\
  cid = match q_conversation_id body with
        | Some ((_ :: _) as c) => c
        | _ => randomUUID P (uuids e)
        end /\
  same_tables e e' /\
  AI_calls e' = AI_calls e ++ [EmbedCall [q_query body]] /\
  embeddingCount P e' = (embeddingCount P e + 1)%Z /\
  llmCount P e' = llmCount P e.
Proof.
  intros H. apply handleQuery_inv in H as [Htry|(msg & e1 & _ & ? & _)]; [|discriminate].
  revert Htry. unfold handleQuery_try.
  destruct (_ || _); [discriminate|].
  unfold bind at 1. rewrite generateQueryEmbedding_run.
  destruct (_ <? _)%Z; [discriminate|].
  destruct (AI_embedding P _ _) as [data|]; [|discriminate].
  unfold bind at 1.
  destruct (searchVectors_run P (head data) (default 10%Z (q_top_k body))
              (q_project_id body)
              (set_KV (<[rateKey P "embedding" (now e) := (embeddingCount P e + 1)%Z]> (KV e))
                 (set_AI_calls (AI_calls e ++ [EmbedCall [q_query body]]) e)))
    as [fp ->].
  destruct (VECTORIZE_query P _ _ _ _) as [ms|]; [|discriminate].
  destruct (length ms =? 0) eqn:Hms.
  - assert (Hcount : forall e2 : Env number,
              KV e2 = <[rateKey P "embedding" (now e) := (embeddingCount P e + 1)%Z]> (KV e) ->
              now e2 = now e ->
              embeddingCount P e2 = (embeddingCount P e + 1)%Z /\
              llmCount P e2 = llmCount P e).
    { intros e2 Hkv Hnow. unfold embeddingCount, llmCount at 1. rewrite Hkv, Hnow.
      rewrite lookup_insert_eq, lookup_insert_ne by apply rateKey_types. done. }
    destruct (q_conversation_id body) as [[|c0 c]|];
      cbv [bind ret generateId gets modify]; intros H; injection H as <- <- <-;
      (split; [done|]); (split; [done|]); (split; [done|]); (split; [done|]);
      by apply Hcount.
  - intros H.
    repeat (apply bind_inv in H as (? & ? & _ & H)).
    injection H as _ Hs _ _. apply map_eq_nil_inv in Hs. by subst ms.
Qed.

(** X29. When a query is answered with sources, the question and the answer
    have been stored as two messages of the conversation returned, under
    two different fresh identifiers and with the time of the request,
    and the message count of that conversation has grown by 2. The
    conversation is the one the request named or, if it named none, a
    new row with an identifier not used before. One embedding and one
    chat completion have been counted. (The conversation and the
    project that the request names are taken to exist.) *)
Theorem handleQuery_stores_exchange (body : QueryRequest) e (answer : jsstring)
  (sources : list SourceReference) (cid : jsstring) e' :
  conversation_known e (q_conversation_id body) ->
  project_known e (q_project_id body) ->
  handleQuery P body e = (Returned (jsonResponse (QueryBody answer sources cid)), e') ->
  sources <> [] ->
  exists (u a : jsstring) (opened : list Conversation),
    u <> a /\
    DB_messages e'
    = DB_messages e
      ++ [mkMessage u cid user (q_query body) None (now e / 1000)%Z;
          mkMessage a cid assistant answer (Some sources) (now e / 1000)%Z] /\
    DB_conversations e' = List.map (counted cid) (DB_conversations e ++ opened) /\
    match q_conversation_id body with
    | Some ((_ :: _) as c) => cid = c /\ opened = []
    | _ =>
        (cid ∉ List.map c_id (DB_conversations e)) /\
        exists title,
          opened = [mkConversation cid
                      match q_project_id body with
                      | Some ((_ :: _) as p) => Some p
                      | _ => None
                      end title 0 (now e / 1000)%Z]
    end /\
    embeddingCount P e' = (embeddingCount P e + 1)%Z /\
    llmCount P e' = (llmCount P e + 1)%Z.
Proof.
  intros _ _ H Hsources.
  apply handleQuery_inv in H as [Htry|(msg & e1 & _ & ? & _)]; [|discriminate].
  revert Htry. unfold handleQuery_try.
  destruct (_ || _); [discriminate|].
  unfold bind at 1. rewrite generateQueryEmbedding_run.
  destruct (_ <? _)%Z; [discriminate|].
  destruct (AI_embedding P _ _) as [data|]; [|discriminate].
  unfold bind at 1.
  destruct (searchVectors_run P (head data) (default 10%Z (q_top_k body))
              (q_project_id body)
              (set_KV (<[rateKey P "embedding" (now e) := (embeddingCount P e + 1)%Z]> (KV e))
                 (set_AI_calls (AI_calls e ++ [EmbedCall [q_query body]]) e)))
    as [fp ->].
  destruct (VECTORIZE_query P _ _ _ _) as [ms|]; [|discriminate].
  match goal with |- _ ?E = _ -> _ =>
    assert (Hframe : DB_messages E = DB_messages e /\
                     DB_conversations E = DB_conversations e /\
                     KV E = <[rateKey P "embedding" (now e) := (embeddingCount P e + 1)%Z]>
                              (KV e) /\
                     now E = now e) by done;
    set (e2 := E) in *; clearbody e2
  end.
  destruct Hframe as (Hm2 & Hc2 & Hkv2 & Hnow2).
  destruct (length ms =? 0) eqn:Hms.
  { intros H. apply bind_inv in H as (? & ? & _ & H). by injection H as _ <- _ _. }
  unfold bind at 1. cbn [gets].
  intros H.
  apply bind_inv in H as (started & e3 & Hstart & H).
  apply start_conversation_inv in Hstart as (opened & Hm3 & Hkv3 & Hnow3 & Hc3 & Hopened).
  apply bind_inv in H as (answer0 & e4 & Hrag & H).
  rewrite (bind_returned _ _ _ _ _ (generateId_spec P _)) in H.
  rewrite (bind_returned _ _ _ _ _ (generateId_spec P _)) in H.
  apply bind_inv in H as ([] & e5 & Hsave & H).
  unfold ret, jsonResponse in H. injection H as -> Hs <- <-.
  match type of Hs with ?S = _ => set (srcs := S) in *; clearbody srcs end. subst srcs.
  match type of Hrag with generateRAGResponse _ ?q ?c ?h ?E = _ =>
    destruct (generateRAGResponse_cases P q c h E) as [[Hr _]|[Hr|[ans Hr]]];
    rewrite Hr in Hrag; [discriminate|discriminate|]; clear Hr;
    generalize dependent c; intros ctx Hrag
  end.
  injection Hrag as -> <-.
  cbv [DB_save_exchange bind unixNow gets ret throw modify] in Hsave. fields.
  destruct (_ || _) eqn:Hex in Hsave; [discriminate|].
  injection Hsave as <-.
  apply orb_false_iff in Hex as [_ Hua]. apply bool_decide_eq_false in Hua.
  exists (randomUUID P (uuids e3)), (randomUUID P (S (uuids e3))), opened.
  split; [exact Hua|]. cbn [DB_messages DB_conversations].
  split; [by rewrite Hm3, Hm2, Hnow3, Hnow2|].
  split; [by rewrite Hc3, Hc2|].
  split.
  { rewrite <- Hc2, <- Hnow2.
    destruct (q_conversation_id body) as [[|c0 c]|];
      [destruct Hopened as (_ & ? & _ & ?)|destruct Hopened as (? & ? & _)
      |destruct Hopened as (_ & ? & _ & ?)]; done. }
  unfold embeddingCount, llmCount. cbn [KV now].
  rewrite Hkv3, Hkv2, Hnow3, Hnow2.
  split.
  - rewrite lookup_insert_ne by apply not_eq_sym, rateKey_types.
    by rewrite lookup_insert_eq.
  - rewrite lookup_insert_eq. by rewrite lookup_insert_ne by apply rateKey_types.
Qed.

(** X30. A query that is refused because the daily limit of chat
    completions is reached (status 500) has nevertheless spent one
    embedding of the embedding quota, and the limit was reached before
    the request. No message is stored. When the request named a
    conversation nothing else has happened; when it named none, a title
    has been requested from the fast model and a new conversation row
    without messages is left in the table. (The project that the request
    names is taken to exist.) *)
Theorem handleQuery_llm_limit (body : QueryRequest) e e' :
  project_known e (q_project_id body) ->
  handleQuery P body e
  = (Returned (errorResponse "Daily LLM query limit reached (3000). Try again tomorrow." 500),
     e') ->
  (DAILY_LLM_LIMIT <= llmCount P e)%Z /\
  DB_messages e' = DB_messages e /\
  embeddingCount P e' = (embeddingCount P e + 1)%Z /\
  llmCount P e' = llmCount P e /\
  match q_conversation_id body with
  | Some (_ :: _) =>
      DB_conversations e' = DB_conversations e /\
      AI_calls e' = AI_calls e ++ [EmbedCall [q_query body]]
  | _ =>
      exists title,
        DB_conversations e'
        = DB_conversations e
          ++ [mkConversation (randomUUID P (uuids e))
                match q_project_id body with
                | Some ((_ :: _) as p) => Some p
                | _ => None
                end title 0 (now e / 1000)%Z] /\
        AI_calls e'
        = AI_calls e
          ++ [EmbedCall [q_query body];
              ChatCall FAST_MODEL
                [(system, TitleSystemPrompt); (user, Plain (q_query body))] 20]
  end.
Proof.
  intros _ H.
  apply handleQuery_inv in H as [Htry|(msg & e1 & Htry & Hmsg & ->)].
  { revert Htry. unfold handleQuery_try.
    destruct (_ || _); [discriminate|].
    intros H. repeat (apply bind_inv in H as (? & ? & _ & H)).
    revert H. destruct (_ =? 0); intros H;
      repeat (apply bind_inv in H as (? & ? & _ & H)); discriminate. }
  injection Hmsg as <-.
  revert Htry. unfold handleQuery_try.
  destruct (_ || _); [discriminate|].
  unfold bind at 1. rewrite generateQueryEmbedding_run.
  destruct (_ <? _)%Z; [discriminate|].
  destruct (AI_embedding P _ _) as [data|]; [|discriminate].
  unfold bind at 1.
  destruct (searchVectors_run P (head data) (default 10%Z (q_top_k body))
              (q_project_id body)
              (set_KV (<[rateKey P "embedding" (now e) := (embeddingCount P e + 1)%Z]> (KV e))
                 (set_AI_calls (AI_calls e ++ [EmbedCall [q_query body]]) e)))
    as [fp ->].
  destruct (VECTORIZE_query P _ _ _ _) as [ms|]; [|discriminate].
  match goal with |- _ ?E = _ -> _ =>
    assert (Hframe : DB_messages E = DB_messages e /\
                     DB_conversations E = DB_conversations e /\
                     KV E = <[rateKey P "embedding" (now e) := (embeddingCount P e + 1)%Z]>
                              (KV e) /\
                     now E = now e /\ uuids E = uuids e /\
                     AI_calls E = AI_calls e ++ [EmbedCall [q_query body]]) by done;
    set (e2 := E) in *; clearbody e2
  end.
  destruct Hframe as (Hm2 & Hc2 & Hkv2 & Hnow2 & Hu2 & Ha2).
  destruct (length ms =? 0) eqn:Hms.
  { destruct (q_conversation_id body) as [[|c0 c]|];
      cbv [bind ret generateId gets modify]; discriminate. }
  unfold bind at 1. cbn [gets].
  intros H. apply bind_thrown_inv in H as [Hstart|(started & e3 & Hstart & H)].
  { apply start_conversation_inv in Hstart as [?|?]; discriminate. }
  apply start_conversation_inv in Hstart as (opened & Hm3 & Hkv3 & Hnow3 & Hc3 & Hopened).
  apply bind_thrown_inv in H as [Hrag|(answer & e4 & _ & H)].
  2: { rewrite (bind_returned _ _ _ _ _ (generateId_spec P _)) in H.
       rewrite (bind_returned _ _ _ _ _ (generateId_spec P _)) in H.
       apply bind_thrown_inv in H as [Hsave|(? & ? & _ & ?)]; [|discriminate].
       revert Hsave. cbv [DB_save_exchange bind unixNow gets ret throw modify].
       destruct (_ || _); discriminate. }
  match type of Hrag with generateRAGResponse _ ?q ?c ?h ?E = _ =>
    destruct (generateRAGResponse_cases P q c h E) as [[Hr Hlimit]|[Hr|[ans Hr]]];
    rewrite Hr in Hrag; [|discriminate|discriminate]; clear Hr
  end.
  injection Hrag as <-.
  assert (Hllm : llmCount P e3 = llmCount P e).
  { unfold llmCount. rewrite Hkv3, Hkv2, Hnow3, Hnow2.
    by rewrite lookup_insert_ne by apply rateKey_types. }
  split; [by rewrite <- Hllm|].
  cbn [DB_messages DB_conversations AI_calls set_console].
  split; [by rewrite Hm3|].
  split.
  { unfold embeddingCount. cbn [KV now set_console].
    rewrite Hkv3, Hkv2, Hnow3, Hnow2. by rewrite lookup_insert_eq. }
  split.
  { unfold llmCount in *. by cbn [KV now set_console]. }
  rewrite Hc3, Hc2.
  destruct (q_conversation_id body) as [[|c0 c]|].
  - destruct Hopened as (Hid & _ & Hcalls & title & ->). exists title.
    rewrite Hid, Hu2, Hnow2, Hcalls, Ha2, <- app_assoc. done.
  - destruct Hopened as (_ & -> & Hcalls). by rewrite app_nil_r, Hcalls.
  - destruct Hopened as (Hid & _ & Hcalls & title & ->). exists title.
    rewrite Hid, Hu2, Hnow2, Hcalls, Ha2, <- app_assoc. done.
Qed.

End WithPlatform.

(** *** On concrete requests *)

Lemma handleQuery_nothing_found_witness :
  fst (handleQuery healthy lost_request indexed_env)
  = Returned (jsonResponse (QueryBody notFoundAnswer [] (str "id-5"))) /\
  same_tables indexed_env (run (handleQuery healthy lost_request) indexed_env).
Proof.
  assert (Hr : handleQuery healthy lost_request indexed_env
               = (Returned (jsonResponse (QueryBody notFoundAnswer [] (str "id-5"))),
                  run (handleQuery healthy lost_request) indexed_env))
    by (vm_compute; reflexivity).
  split; [by rewrite Hr|].
  exact (proj1 (proj2 (proj2 (handleQuery_nothing_found healthy lost_request indexed_env
                                _ _ _ Hr)))).
Defined.

Lemma handleQuery_stores_exchange_witness :
  exists u a,
    List.map m_id (DB_messages (run (handleQuery one_match chat_request) chat_env))
    = List.map m_id (DB_messages chat_env) ++ [u; a] /\ u <> a.
Proof.
  assert (Hknown : conversation_known chat_env (q_conversation_id chat_request)).
  { apply list_elem_of_here. }
  assert (Hr : handleQuery one_match chat_request chat_env
               = (Returned (jsonResponse
                              (QueryBody (str "answer")
                                 [mkSource (str "id-2") (str "a.ts") (str "proj") 1 1 1%Z]
                                 (str "conv-1"))),
                  run (handleQuery one_match chat_request) chat_env))
    by (vm_compute; reflexivity).
  destruct (handleQuery_stores_exchange one_match chat_request chat_env _ _ _ _
              Hknown I Hr ltac:(discriminate))
    as (u & a & opened & Hua & Hm & _).
  exists u, a. split; [|exact Hua]. rewrite Hm, List.map_app. done.
Defined.

Lemma handleQuery_llm_limit_witness :
  exists title,
    DB_conversations (run (handleQuery one_match new_chat_request) spent_env)
    = [mkConversation (str "id-5") None title 0 1700000000%Z].
Proof.
  assert (Hr : handleQuery one_match new_chat_request spent_env
               = (Returned (errorResponse
                              "Daily LLM query limit reached (3000). Try again tomorrow."
                              500),
                  run (handleQuery one_match new_chat_request) spent_env))
    by (vm_compute; reflexivity).
  destruct (handleQuery_llm_limit one_match new_chat_request spent_env _ I Hr)
    as (_ & _ & _ & _ & title & Hc & _).
  exists title. exact Hc.
Defined.

End QueryTheorems.
